(** * ferret: SSH tunnelling broker -- a shallow embedding of its Go sources

    The development follows the package [internal] of the repository:
    addresses (address.go), hosts and the jump-host resolver (host.go),
    tunnels and the relay loop (tunnel.go), the statistics service
    (statistics.go) and the configuration driver (config.go).

    Go values are modelled as follows.
    - [string] is a Go string (a sequence of bytes); [list byte] is a [[]byte].
    - [int], [int32] and [int64] are [Z]; where the code can wrap around the
      wrap-around is written out ([wrap64]).
    - a pointer that may be nil is an [option]; a [*Address] that is shared
      between a host and a tunnel is a location in the address store.
    - the global maps [Hosts], [Tunnels], [hostKeysMap] and [identityMap] are
      [gmap]s with string keys, threaded through the functions that use them.
    - [fmt.Printf] appends one line to a log (the trailing newline is left
      out).
    - the operating system, the resolver, the ssh library and the network are
      oracles: parameters of the sections that use them. *)

From Stdlib Require Import ZArith Ascii String DecimalString DecimalPos.
From Stdlib.Strings Require Import Byte.
From stdpp Require Import base option list strings gmap.

Local Open Scope Z_scope.

#[global] Instance byte_eq_decision : EqDecision byte := Byte.byte_eq_dec.

(** ** Go library functions on strings *)

Definition colon : ascii := ":"%char.

(** [strings.Split(s, ":")]: the fields of [s] between colons; a string
    without colon (the empty one too) is its own single field. *)
Fixpoint Split (s : string) : list string :=
  match s with
  | EmptyString => [EmptyString]
  | String c rest =>
      if Ascii.eqb c colon then EmptyString :: Split rest
      else match Split rest with
           | [] => [String c EmptyString]
           | p :: ps => String c p :: ps
           end
  end.

(** [%d] of an integer. *)
Definition itoa (z : Z) : string := NilZero.string_of_int (Z.to_int z).

Definition max_int64 : Z := 2 ^ 63 - 1.
Definition min_int64 : Z := - 2 ^ 63.

(** [int64(x)] for an [x] computed without bound. *)
Definition wrap64 (z : Z) : Z := (z + 2 ^ 63) mod 2 ^ 64 - 2 ^ 63.

Definition digit_of (c : ascii) : option Z :=
  let n := Z.of_nat (nat_of_ascii c) in
  if (48 <=? n) && (n <=? 57) then Some (n - 48) else None.

Fixpoint digits_value (acc : Z) (s : string) : option Z :=
  match s with
  | EmptyString => Some acc
  | String c rest =>
      match digit_of c with
      | Some d => digits_value (10 * acc + d) rest
      | None => None
      end
  end.

Inductive AtoiError := ErrSyntax | ErrRange.

(** [strconv.Atoi]: an optional sign, then at least one decimal digit and
    nothing else; the value has to fit the 64-bit [int]. *)
Definition Atoi (s : string) : Z + AtoiError :=
  let '(neg, body) :=
    match s with
    | String "-" rest => (true, rest)
    | String "+" rest => (false, rest)
    | _ => (false, s)
    end in
  match body with
  | EmptyString => inr ErrSyntax
  | _ =>
      match digits_value 0 body with
      | None => inr ErrSyntax
      | Some v =>
          let i := if neg then - v else v in
          if (min_int64 <=? i) && (i <=? max_int64) then inl i else inr ErrRange
      end
  end.

(** [err.Error()] of the error of [strconv.Atoi]. The offending text is
    printed as it is (Go quotes it). *)
Definition AtoiError_text (s : string) (e : AtoiError) : string :=
  "strconv.Atoi: parsing " +:+ s +:+
  match e with
  | ErrSyntax => ": invalid syntax"
  | ErrRange => ": value out of range"
  end.

(** [strings.TrimSpace] removes the white space of Unicode from both ends
    of a string: U+0009 to U+000D, U+0020, U+0085, U+00A0, U+1680, U+2000 to
    U+200A, U+2028, U+2029, U+202F, U+205F and U+3000 ([unicode.IsSpace]).
    A Go string holds bytes, read as UTF-8: a rune is decoded from its
    shortest encoding only, every other byte counts as U+FFFD, which is no
    white space. So a string starts, or ends, with a white space rune
    exactly when it starts, or ends, with one of the encodings below, of
    one, two or three bytes. *)
Definition byte_is (c : ascii) (n : nat) : bool := (nat_of_ascii c =? n)%nat.

(** Tab, line feed, vertical tab, form feed, carriage return and space. *)
Definition is_space (c : ascii) : bool :=
  let n := nat_of_ascii c in
  ((9 <=? n) && (n <=? 13))%nat || (n =? 32)%nat.

(** U+0085 is C2 85 and U+00A0 is C2 A0. *)
Definition is_space2 (a b : ascii) : bool :=
  byte_is a 194 && (byte_is b 133 || byte_is b 160).

(** U+1680 is E1 9A 80; U+2000 to U+200A are E2 80 80 to E2 80 8A; U+2028,
    U+2029 and U+202F are E2 80 A8, E2 80 A9 and E2 80 AF; U+205F is
    E2 81 9F; U+3000 is E3 80 80. *)
Definition is_space3 (a b c : ascii) : bool :=
  byte_is a 225 && byte_is b 154 && byte_is c 128
  || byte_is a 226 && byte_is b 128
     && (((128 <=? nat_of_ascii c) && (nat_of_ascii c <=? 138))%nat
         || byte_is c 168 || byte_is c 169 || byte_is c 175)
  || byte_is a 226 && byte_is b 129 && byte_is c 159
  || byte_is a 227 && byte_is b 128 && byte_is c 128.

Section TrimRunes.

(** The encodings of two and of three bytes, as the bytes are met: first
    byte first from the left, last byte first from the right. *)
Variable two : ascii -> ascii -> bool.
Variable three : ascii -> ascii -> ascii -> bool.

(** The bytes that are left once the white space runes at the front are
    taken off, one after the other. *)
Fixpoint trim_runes (l : list ascii) : list ascii :=
  match l with
  | [] => []
  | a :: r1 =>
      if is_space a then trim_runes r1
      else
        match r1 with
        | b :: r2 =>
            if two a b then trim_runes r2
            else
              match r2 with
              | c :: r3 => if three a b c then trim_runes r3 else l
              | [] => l
              end
        | [] => l
        end
  end.

(** Whether the bytes start with a white space rune. *)
Definition starts_space (l : list ascii) : bool :=
  match l with
  | a :: r1 =>
      is_space a
      || match r1 with
         | b :: r2 =>
             two a b
             || match r2 with
                | c :: _ => three a b c
                | [] => false
                end
         | [] => false
         end
  | [] => false
  end.

End TrimRunes.

Definition trim_left (s : string) : string :=
  string_of_list_ascii
    (trim_runes is_space2 is_space3 (list_ascii_of_string s)).

Definition trim_right (s : string) : string :=
  string_of_list_ascii
    (rev (trim_runes (fun b a => is_space2 a b) (fun c b a => is_space3 a b c)
            (rev (list_ascii_of_string s)))).

(** [strings.TrimSpace]: the leading white space is taken off, then the
    trailing one. *)
Definition TrimSpace (s : string) : string := trim_right (trim_left s).

(** The no-break space U+00A0, as Go holds it. *)
Definition nbsp : string :=
  String (ascii_of_nat 194) (String (ascii_of_nat 160) EmptyString).

(** ** address.go *)

Record Address := mkAddress {
  valid : bool;
  address : string;
  port : Z;
}.

Definition NewAddress (addr : string) : Address :=
  {| valid := false; address := addr; port := 0 |}.

Definition IsBlank (a : Address) : bool := bool_decide (address a = "").
Definition IsValid (a : Address) : bool := valid a.
Definition Port (a : Address) : Z := port a.

(** A [net.IP]: one with a four-byte form ([To4] is not nil), given by its
    dotted text, or one without. *)
Inductive IP :=
| IP4 (dotted : string)
| IP6 (text : string).

Definition To4 (ip : IP) : option string :=
  match ip with
  | IP4 s => Some s
  | IP6 _ => None
  end.

Definition set_valid (v : bool) (a : Address) : Address :=
  {| valid := v; address := address a; port := port a |}.
Definition set_address (s : string) (a : Address) : Address :=
  {| valid := valid a; address := s; port := port a |}.
Definition set_port (p : Z) (a : Address) : Address :=
  {| valid := valid a; address := address a; port := p |}.

Section ValidateAddress.

(** [net.LookupIP]: [None] is an error. *)
Variable LookupIP : string -> option (list IP).

(** The lookup part of [ValidateAddress] (the [if ips, err := ...] chain),
    on the host part [host] of the address. *)
Definition resolve_host (group name attr : string) (remote : bool)
    (host : string) (a : Address) : Address * list string :=
  match LookupIP host with
  | None =>
      if negb remote then
        (set_valid false a,
         ["  Error - " +:+ group +:+ "(" +:+ name +:+ ") " +:+ attr +:+ "("
            +:+ host +:+ ") cannot be resolved"])
      else
        (a,
         ["  Warn  - " +:+ group +:+ "(" +:+ name +:+ ") " +:+ attr +:+ "("
            +:+ host +:+ ") cannot be resolved local"])
  | Some [] =>
      (set_valid false a,
       ["  Error - " +:+ group +:+ "(" +:+ name +:+ ") " +:+ attr +:+ "("
          +:+ host +:+ ") has no valid IP addresses associated with it"])
  | Some (ip :: _) =>
      match To4 ip with
      | None =>
          (a,
           ["  Error - " +:+ group +:+ "(" +:+ name +:+ ") " +:+ attr +:+ "("
              +:+ host +:+ ") cannot be converted to a valid IP4 address"])
      | Some ipv4 =>
          if negb remote then (set_address ipv4 a, [])
          else (set_address host a, [])
      end
  end.

(** The port part of [ValidateAddress] (the [strconv.Atoi] chain). *)
Definition check_port (group name attr : string) (portText : string)
    (a : Address) : Address * list string :=
  match Atoi portText with
  | inr e =>
      (set_valid false a,
       ["  Error - " +:+ group +:+ "(" +:+ name +:+ ") " +:+ attr
          +:+ " port(" +:+ portText +:+ ") " +:+ AtoiError_text portText e])
  | inl i =>
      if (i <? 1) || (i >? 65536) then
        (set_valid false a,
         ["  Error - " +:+ group +:+ "(" +:+ name +:+ ") " +:+ attr
            +:+ " port(" +:+ portText
            +:+ ") range is invalid.  Must be between 1 and 65536"])
      else
        (set_port i (set_address (address a +:+ ":" +:+ itoa i) a), [])
  end.

(** [Address.ValidateAddress(group, name, attr, remote)]: the address after
    the call, the value returned and the lines printed. *)
Definition ValidateAddress (group name attr : string) (remote : bool)
    (a : Address) : Address * bool * list string :=
  let a := set_valid true a in
  match Split (address a) with
  | [host; portText] =>
      let '(a, out1) := resolve_host group name attr remote host a in
      let '(a, out2) := check_port group name attr portText a in
      (a, valid a, out1 ++ out2)
  | _ =>
      (set_valid false a, false,
       ["  Error - " +:+ group +:+ "(" +:+ name +:+ ") " +:+ attr +:+ "("
          +:+ address a
          +:+ ") is invalid.  Required syntax is <ip address>:<port>"])
  end.

End ValidateAddress.

(** A resolver that knows the loopback and wildcard literals and one name,
    used to run the code on concrete inputs. *)
Definition literalResolver (host : string) : option (list IP) :=
  if bool_decide (host = "127.0.0.1") then Some [IP4 "127.0.0.1"]
  else if bool_decide (host = "0.0.0.0") then Some [IP4 "0.0.0.0"]
  else if bool_decide (host = "10.0.0.5") then Some [IP4 "10.0.0.5"]
  else if bool_decide (host = "10.0.0.6") then Some [IP4 "10.0.0.6"]
  else if bool_decide (host = "10.0.0.7") then Some [IP4 "10.0.0.7"]
  else if bool_decide (host = "localhost") then Some [IP4 "127.0.0.1"]
  else None.

(** ** statistics.go *)

Record TunnelStats := mkTunnelStats {
  ts_Name : string;
  Connections : Z;
  Received : Z;
  Transmitted : Z;
}.

(** A subscriber connection of the publisher, by its number. *)
Definition Conn := nat.

Record StatsManager := mkStatsManager {
  statsPort : Z;
  statsAddress : string;
  connections : list Conn;
  locked : bool;
  updated : bool;
  lastUpdate : list byte;
}.

Definition NewStats (statsPort : Z) : StatsManager :=
  {| statsPort := statsPort; statsAddress := ""; connections := [];
     locked := false; updated := false; lastUpdate := [] |}.

Definition zeros : list byte := replicate 256 x00.

Definition interval : Z := 5 * 1000000000.
Definition Second : Z := 1000000000.

Definition set_lastUpdate (u : list byte) (s : StatsManager) : StatsManager :=
  {| statsPort := statsPort s; statsAddress := statsAddress s;
     connections := connections s; locked := locked s; updated := updated s;
     lastUpdate := u |}.
Definition set_connections (cs : list Conn) (s : StatsManager) : StatsManager :=
  {| statsPort := statsPort s; statsAddress := statsAddress s;
     connections := cs; locked := locked s; updated := updated s;
     lastUpdate := lastUpdate s |}.
Definition set_updated (u : bool) (s : StatsManager) : StatsManager :=
  {| statsPort := statsPort s; statsAddress := statsAddress s;
     connections := connections s; locked := locked s; updated := u;
     lastUpdate := lastUpdate s |}.

(** What a call of a method of the program leaves on the wire: the bytes
    written to a subscriber. *)
Definition Sent := (Conn * list byte)%type.

Section Publisher.

(** [conn.Write] of a subscriber connection: [true] when it returns no
    error. *)
Variable connWrite : Conn -> list byte -> bool.

(** The [for _, conn := range s.connections] loop of [writeUpdate]: the
    connections that took the frame, what was written and the lines
    printed. *)
Fixpoint write_all (frame : list byte) (conns : list Conn)
    : list Conn * list Sent * list string :=
  match conns with
  | [] => ([], [], [])
  | conn :: rest =>
      let '(alive, sent, out) := write_all frame rest in
      if connWrite conn frame then (conn :: alive, (conn, frame) :: sent, out)
      else (alive, sent, "  Info  - Disconnected stats client" :: out)
  end.

(** [StatsManager.writeUpdate(update)]. [TryLock] fails when the lock is
    held (by [addConnection] on another task). *)
Definition writeUpdate (s : StatsManager) (update : list byte)
    : StatsManager * list Sent * list string :=
  if locked s then (s, [], [])
  else
    let x := (256 - (length update mod 256))%nat in
    let s := set_lastUpdate (update ++ drop (256 - x) zeros) s in
    let '(alive, sent, out) := write_all (lastUpdate s) (connections s) in
    let s :=
      if bool_decide (length alive ≠ length (connections s))
      then set_connections alive s else s in
    (s, sent, out).

(** [StatsManager.addConnection(conn)]: the last frame, if there is one,
    goes to the new subscriber. *)
Definition addConnection (s : StatsManager) (conn : Conn)
    : StatsManager * list Sent :=
  let sent :=
    if bool_decide (0 < length (lastUpdate s))%nat
    then [(conn, lastUpdate s)] else [] in
  (set_connections (connections s ++ [conn]) s, sent).

End Publisher.

(** *** The subscriber: [receiveStats] *)

(** One [conn.Read(bs)]: an error, or [n] bytes ([n] the length of [data],
    at most the 256 bytes of the buffer) and no error. *)
Inductive ReadResult :=
| ReadErr
| ReadOk (data : list byte).

(** What the subscriber prints: a line of text, or a row of the table (the
    numbers are laid out by the message printer of the program). *)
Inductive Printed :=
| Text (line : string)
| TableRow (name : string) (received transmitted connections : Z).

Definition table_header : Printed :=
  Text "Name                                     Rcvd            Sent            Cnct  ".

(** The local variables [bs] and [str] of [receiveStats]. *)
Record Receiver := mkReceiver {
  bs : list byte;
  str : list byte;
}.

Definition receiver_start : Receiver :=
  {| bs := replicate 256 x00; str := [] |}.

(** How a run of the loop ends: the function returned, it panicked, or it
    waits in [conn.Read] for more than the network has delivered so far. *)
Inductive LoopEnd :=
| Returned
| Panicked
| Waiting (r : Receiver).

(** [strings.IndexByte(s, c)]. *)
Fixpoint IndexByte (s : list byte) (c : byte) : option nat :=
  match s with
  | [] => None
  | b :: rest =>
      if Byte.eqb b c then Some 0%nat else S <$> IndexByte rest c
  end.

(** The bytes of [s] before its first zero byte: [s[:index]] in
    [receiveStats] ([s] whole when there is none). *)
Definition frame_payload (s : list byte) : list byte :=
  match IndexByte s x00 with
  | Some index => take index s
  | None => s
  end.

Section Subscriber.

(** [json.Unmarshal] into a [[]*TunnelStats]: [None] is an error, a [None]
    element a JSON null. *)
Variable Unmarshal : list byte -> option (list (option TunnelStats)).

(** The [for _, t := range ts] loop: a nil element stops it with a panic. *)
Fixpoint print_rows (ts : list (option TunnelStats)) : list Printed * bool :=
  match ts with
  | [] => ([], true)
  | None :: _ => ([], false)
  | Some t :: rest =>
      let '(out, ok) := print_rows rest in
      (TableRow (ts_Name t) (Received t) (Transmitted t) (Connections t) :: out, ok)
  end.

Inductive Step :=
| Continue (r : Receiver) (out : list Printed)
| Stop (e : LoopEnd) (out : list Printed).

(** One turn of the [for] loop of [receiveStats]. *)
Definition receive_step (r : Receiver) (rd : ReadResult) : Step :=
  match rd with
  | ReadErr =>
      Stop Returned [Text "  Info  - ferret terminated or cannot be reached"]
  | ReadOk data =>
      let n := length data in
      let bs := data ++ drop n (bs r) in
      let str := if bool_decide (0 < n)%nat then str r ++ bs else str r in
      match n with
      | O => Stop Panicked []
      | S m =>
          match bs !! m with
          | None => Stop Panicked []
          | Some last =>
              if Byte.eqb last x00 then
                match IndexByte str x00 with
                | None => Stop Panicked []
                | Some index =>
                    let str := take index str in
                    match Unmarshal str with
                    | Some ts =>
                        let '(rows, ok) := print_rows ts in
                        if ok then
                          Continue {| bs := bs; str := [] |} (table_header :: rows)
                        else Stop Panicked (table_header :: rows)
                    | None => Continue {| bs := bs; str := [] |} []
                    end
                end
              else Continue {| bs := bs; str := str |} []
          end
      end
  end.

(** The loop, on the reads the connection delivers. *)
Fixpoint receive_loop (r : Receiver) (reads : list ReadResult)
    : list Printed * LoopEnd :=
  match reads with
  | [] => ([], Waiting r)
  | rd :: rest =>
      match receive_step r rd with
      | Stop e out => (out, e)
      | Continue r' out =>
          let '(out', e) := receive_loop r' rest in (out ++ out', e)
      end
  end.

(** [receiveStats], once the dial succeeded. *)
Definition receiveStats (reads : list ReadResult) : list Printed * LoopEnd :=
  let '(out, e) := receive_loop receiver_start reads in
  (Text "ferret already running" :: out, e).

End Subscriber.

(** A TCP connection that hands the subscriber the stream in full buffers:
    [k] reads of 256 bytes. *)
Fixpoint full_reads (k : nat) (stream : list byte) : list ReadResult :=
  match k with
  | O => []
  | S k' => ReadOk (take 256 stream) :: full_reads k' (drop 256 stream)
  end.

Definition deliver (stream : list byte) : list ReadResult :=
  full_reads (length stream / 256) stream.

(** *** The publisher: [statsBroadcaster] with its clock

    Time is a number of nanoseconds, as in [time.Duration]. The broadcaster
    task handles one event at a time; the task it starts with [go func()]
    sleeps on its timer until [sleeper] and then runs to its end at that
    instant. *)

Inductive Event :=
| Signal                 (* a value arrives on [s.updateChan] *)
| Accepted (conn : Conn) (* [transmitStats] accepted a subscriber *)
| Cancelled.             (* [ctx.Done()]: the broadcaster returns *)

Record Broadcaster := mkBroadcaster {
  mgr : StatsManager;
  lastBroadcast : Z;
  sleeper : option Z;
  finished : bool;
}.

(** A call of [writeUpdate] by the broadcaster: when, and what went out. *)
Definition Broadcast := (Z * list Sent)%type.

Section Broadcaster.

Variable connWrite : Conn -> list byte -> bool.
(** [json.Marshal(tunnelStats)], and the global [tunnelStats] as it is read
    at a given time. *)
Variable Marshal : list TunnelStats -> option (list byte).
Variable tunnelStats : Z -> list TunnelStats.

(** [statsBroadcaster] starts at time [t0]. *)
Definition broadcaster_start (s : StatsManager) (t0 : Z) : Broadcaster :=
  {| mgr := s; lastBroadcast := t0 - interval; sleeper := None;
     finished := false |}.

(** The end of the started task, when its timer fires at [now]. *)
Definition sender_wakes (now : Z) (b : Broadcaster)
    : Broadcaster * list Broadcast :=
  let '(m, sent) :=
    match Marshal (tunnelStats now) with
    | Some update =>
        let '(m, sent, _) := writeUpdate connWrite (mgr b) update in
        (m, [(now, sent)])
    | None => (mgr b, [])
    end in
  ({| mgr := set_updated false m; lastBroadcast := now; sleeper := None;
      finished := finished b |}, sent).

(** Time passes to [now]: a timer that is due fires. *)
Definition advance (now : Z) (b : Broadcaster) : Broadcaster * list Broadcast :=
  match sleeper b with
  | Some wake => if wake <=? now then sender_wakes wake b else (b, [])
  | None => (b, [])
  end.

(** The [case <-s.updateChan] branch, at time [now]. *)
Definition on_signal (now : Z) (b : Broadcaster) : Broadcaster :=
  if negb (updated (mgr b)) then
    let m := set_updated true (mgr b) in
    if bool_decide (0 < length (connections m))%nat then
      let diff := lastBroadcast b + interval - now in
      let wait := if 0 <? diff then diff else Second in
      {| mgr := m; lastBroadcast := lastBroadcast b;
         sleeper := Some (now + wait); finished := finished b |}
    else
      {| mgr := m; lastBroadcast := lastBroadcast b; sleeper := sleeper b;
         finished := finished b |}
  else b.

Definition handle (now : Z) (e : Event) (b : Broadcaster)
    : Broadcaster * list Sent :=
  match e with
  | Signal => if finished b then (b, []) else (on_signal now b, [])
  | Accepted conn =>
      let '(m, sent) := addConnection (mgr b) conn in
      ({| mgr := m; lastBroadcast := lastBroadcast b; sleeper := sleeper b;
          finished := finished b |}, sent)
  | Cancelled =>
      ({| mgr := mgr b; lastBroadcast := lastBroadcast b; sleeper := sleeper b;
          finished := true |}, [])
  end.

(** The publisher on a list of timed events (times do not decrease): the
    broadcasts made until the last event. *)
Fixpoint run_events (b : Broadcaster) (evs : list (Z * Event))
    : Broadcaster * list Broadcast :=
  match evs with
  | [] => (b, [])
  | (now, e) :: rest =>
      let '(b, out1) := advance now b in
      let '(b, _) := handle now e b in
      let '(b, out2) := run_events b rest in
      (b, out1 ++ out2)
  end.

(** The broadcasts made until time [till], the events given. *)
Definition broadcasts_until (till : Z) (b : Broadcaster)
    (evs : list (Z * Event)) : list Broadcast :=
  let '(b, out1) := run_events b evs in
  let '(_, out2) := advance till b in
  out1 ++ out2.

End Broadcaster.

(** ** tunnel.go: the relay loop *)

Inductive error :=
| EOF
| ErrShortWrite
| errInvalidWrite
| OtherError (text : string).

#[global] Instance error_eq_dec : EqDecision error.
Proof. solve_decision. Defined.

(** One turn of the loop of [copy], as its reader and writer answer:
    [src.Read] returns [nr] and [er]; [dst.Write], called when [nr] is
    positive, returns [nw] and [ew] and has then really taken [written] of
    the [nr] bytes. *)
Record Turn := mkTurn {
  nr : Z;
  er : option error;
  nw : Z;
  ew : option error;
  written : Z;
}.

Definition add_Received (n : Z) (s : TunnelStats) : TunnelStats :=
  {| ts_Name := ts_Name s; Connections := Connections s;
     Received := wrap64 (Received s + n); Transmitted := Transmitted s |}.
Definition add_Transmitted (n : Z) (s : TunnelStats) : TunnelStats :=
  {| ts_Name := ts_Name s; Connections := Connections s;
     Received := Received s; Transmitted := wrap64 (Transmitted s + n) |}.

Inductive Flow :=
| Next
| Break (err : option error).

(** The body of the loop: the statistics after it ([t.stats] may be nil), the
    number of signals sent on [updateChan] and whether the loop goes on. *)
Definition copy_turn (stats : option TunnelStats) (read : bool) (io : Turn)
    : option TunnelStats * nat * Flow :=
  let on_read :=
    match er io with
    | Some e => Break (if bool_decide (e ≠ EOF) then Some e else None)
    | None => Next
    end in
  if 0 <? nr io then
    let '(nw, ew) :=
      if (nw io <? 0) || (nr io <? nw io) then
        (0, match ew io with None => Some errInvalidWrite | e => e end)
      else (nw io, ew io) in
    let '(stats, signals) :=
      match stats with
      | Some s =>
          (Some (if read then add_Received nw s else add_Transmitted nw s), 1%nat)
      | None => (None, 0%nat)
      end in
    match ew with
    | Some e => (stats, signals, Break (Some e))
    | None =>
        if bool_decide (nr io ≠ nw) then (stats, signals, Break (Some ErrShortWrite))
        else (stats, signals, on_read)
    end
  else (stats, 0%nat, on_read).

(** How [copy] stands after the turns given: it returned [err], or it waits
    in [src.Read]. *)
Inductive CopyEnd :=
| CopyReturned (err : option error)
| CopyReading.

(** [Tunnel.copy(dst, src, read)] on the answers of its reader and writer. *)
Fixpoint copy (stats : option TunnelStats) (read : bool) (ios : list Turn)
    : option TunnelStats * nat * CopyEnd :=
  match ios with
  | [] => (stats, 0%nat, CopyReading)
  | io :: rest =>
      match copy_turn stats read io with
      | (stats, n, Break err) => (stats, n, CopyReturned err)
      | (stats, n, Next) =>
          let '(stats, m, e) := copy stats read rest in (stats, (n + m)%nat, e)
      end
  end.

(** The bytes the writer really took in the turns that [copy] runs: the
    turns up to the one that ends the loop. *)
Fixpoint bytes_written (stats : option TunnelStats) (read : bool)
    (ios : list Turn) : Z :=
  match ios with
  | [] => 0
  | io :: rest =>
      let w := if 0 <? nr io then written io else 0 in
      match copy_turn stats read io with
      | (_, _, Break _) => w
      | (stats, _, Next) => w + bytes_written stats read rest
      end
  end.

(** What [io.Reader] and [io.Writer] promise: [Read] fills at most the
    buffer of 32 KiB; a [Write] that reports a count between 0 and the
    length it was given has taken that many bytes, and no [Write] takes more
    than it was given. *)
Definition honest (io : Turn) : Prop :=
  0 <= nr io <= 32 * 1024 /\
  0 <= written io <= nr io /\
  (0 <= nw io <= nr io -> written io = nw io).

(** ** host.go *)

(** A run of Go code ends with a value or with a run-time panic. *)
Inductive Result (A : Type) :=
| Ok (a : A)
| Panic.
Arguments Ok {A} a.
Arguments Panic {A}.

#[global] Instance Result_bind : MBind Result := fun A B k r =>
  match r with
  | Ok a => k a
  | Panic => Panic
  end.

(** A [*Address]: nil, or the place of the object in the store. *)
Definition loc := nat.

Definition PublicKey := list byte.
Definition Signer := string.

(** An [ssh.HostKeyCallback] takes the host name, the remote address and the
    key of the server; [None] is the nil error: the key is accepted. *)
Definition HostKeyCallback := string -> string -> PublicKey -> option string.

Record ClientConfig := mkClientConfig {
  User : string;
  Auth : option Signer;
  HostKeyCallback_of : option HostKeyCallback;
}.

(** An established [*ssh.Client], by its number. *)
Definition Client := nat.
Definition NetConn := nat.

Record Host := mkHost {
  Host_Name : string;
  Host_Address : option loc;
  Username : string;
  Identity : string;
  Passphrase : string;
  KnownHosts : string;
  JumpHost : string;
  isHost : bool;
  isJumpHost : bool;
  client : option Client;
  config : option ClientConfig;
}.

Record Tunnel := mkTunnel {
  Tunnel_Name : string;
  Local : option loc;
  Tunnel_Host : string;
  Forward : option loc;
}.

(** The package variables and what was printed. [store] holds the [Address]
    objects that hosts and tunnels point to. *)
Record World := mkWorld {
  store : list Address;
  Hosts : gmap string Host;
  Tunnels : gmap string Tunnel;
  hostKeysMap : gmap string HostKeyCallback;
  identityMap : gmap string Signer;
  printed : list string;
}.

(** The callback under the empty path: every key is accepted. *)
Definition acceptAnyKey : HostKeyCallback := fun _ _ _ => None.

Definition world_start (addresses : list Address) : World :=
  {| store := addresses; Hosts := ∅; Tunnels := ∅;
     hostKeysMap := {[ "" := acceptAnyKey ]}; identityMap := ∅;
     printed := [] |}.

Definition say (line : string) (w : World) : World :=
  {| store := store w; Hosts := Hosts w; Tunnels := Tunnels w;
     hostKeysMap := hostKeysMap w; identityMap := identityMap w;
     printed := printed w ++ [line] |}.
Definition say_all (lines : list string) (w : World) : World :=
  {| store := store w; Hosts := Hosts w; Tunnels := Tunnels w;
     hostKeysMap := hostKeysMap w; identityMap := identityMap w;
     printed := printed w ++ lines |}.
Definition set_store (s : list Address) (w : World) : World :=
  {| store := s; Hosts := Hosts w; Tunnels := Tunnels w;
     hostKeysMap := hostKeysMap w; identityMap := identityMap w;
     printed := printed w |}.
Definition set_Hosts (hs : gmap string Host) (w : World) : World :=
  {| store := store w; Hosts := hs; Tunnels := Tunnels w;
     hostKeysMap := hostKeysMap w; identityMap := identityMap w;
     printed := printed w |}.
Definition set_Tunnels (ts : gmap string Tunnel) (w : World) : World :=
  {| store := store w; Hosts := Hosts w; Tunnels := ts;
     hostKeysMap := hostKeysMap w; identityMap := identityMap w;
     printed := printed w |}.
Definition set_hostKeysMap (m : gmap string HostKeyCallback) (w : World) : World :=
  {| store := store w; Hosts := Hosts w; Tunnels := Tunnels w;
     hostKeysMap := m; identityMap := identityMap w;
     printed := printed w |}.
Definition set_identityMap (m : gmap string Signer) (w : World) : World :=
  {| store := store w; Hosts := Hosts w; Tunnels := Tunnels w;
     hostKeysMap := hostKeysMap w; identityMap := m;
     printed := printed w |}.

(** [NewAddress(text)] as an allocation: the new object and its place. *)
Definition new_address (text : string) (w : World) : World * loc :=
  (set_store (store w ++ [NewAddress text]) w, length (store w)).

(** [p == nil || p.IsBlank()]. *)
Definition nil_or_blank (w : World) (p : option loc) : bool :=
  match p with
  | None => true
  | Some l =>
      match store w !! l with
      | Some a => IsBlank a
      | None => true
      end
  end.

Definition set_Host_Name (s : string) (h : Host) : Host :=
  {| Host_Name := s; Host_Address := Host_Address h; Username := Username h;
     Identity := Identity h; Passphrase := Passphrase h;
     KnownHosts := KnownHosts h; JumpHost := JumpHost h; isHost := isHost h;
     isJumpHost := isJumpHost h; client := client h; config := config h |}.
Definition set_Host_Address (a : option loc) (h : Host) : Host :=
  {| Host_Name := Host_Name h; Host_Address := a; Username := Username h;
     Identity := Identity h; Passphrase := Passphrase h;
     KnownHosts := KnownHosts h; JumpHost := JumpHost h; isHost := isHost h;
     isJumpHost := isJumpHost h; client := client h; config := config h |}.
Definition set_Username (s : string) (h : Host) : Host :=
  {| Host_Name := Host_Name h; Host_Address := Host_Address h; Username := s;
     Identity := Identity h; Passphrase := Passphrase h;
     KnownHosts := KnownHosts h; JumpHost := JumpHost h; isHost := isHost h;
     isJumpHost := isJumpHost h; client := client h; config := config h |}.
Definition set_Identity (s : string) (h : Host) : Host :=
  {| Host_Name := Host_Name h; Host_Address := Host_Address h;
     Username := Username h; Identity := s; Passphrase := Passphrase h;
     KnownHosts := KnownHosts h; JumpHost := JumpHost h; isHost := isHost h;
     isJumpHost := isJumpHost h; client := client h; config := config h |}.
Definition set_Passphrase (s : string) (h : Host) : Host :=
  {| Host_Name := Host_Name h; Host_Address := Host_Address h;
     Username := Username h; Identity := Identity h; Passphrase := s;
     KnownHosts := KnownHosts h; JumpHost := JumpHost h; isHost := isHost h;
     isJumpHost := isJumpHost h; client := client h; config := config h |}.
Definition set_KnownHosts (s : string) (h : Host) : Host :=
  {| Host_Name := Host_Name h; Host_Address := Host_Address h;
     Username := Username h; Identity := Identity h;
     Passphrase := Passphrase h; KnownHosts := s; JumpHost := JumpHost h;
     isHost := isHost h; isJumpHost := isJumpHost h; client := client h;
     config := config h |}.
Definition set_isHost (b : bool) (h : Host) : Host :=
  {| Host_Name := Host_Name h; Host_Address := Host_Address h;
     Username := Username h; Identity := Identity h;
     Passphrase := Passphrase h; KnownHosts := KnownHosts h;
     JumpHost := JumpHost h; isHost := b; isJumpHost := isJumpHost h;
     client := client h; config := config h |}.
Definition set_client (c : option Client) (h : Host) : Host :=
  {| Host_Name := Host_Name h; Host_Address := Host_Address h;
     Username := Username h; Identity := Identity h;
     Passphrase := Passphrase h; KnownHosts := KnownHosts h;
     JumpHost := JumpHost h; isHost := isHost h; isJumpHost := isJumpHost h;
     client := c; config := config h |}.
Definition set_config (c : option ClientConfig) (h : Host) : Host :=
  {| Host_Name := Host_Name h; Host_Address := Host_Address h;
     Username := Username h; Identity := Identity h;
     Passphrase := Passphrase h; KnownHosts := KnownHosts h;
     JumpHost := JumpHost h; isHost := isHost h; isJumpHost := isJumpHost h;
     client := client h; config := c |}.

(** *** [Host.Open] and [Host.Dial] *)

Section Session.

(** [ssh.Dial("tcp", address, config)]: the client, or the text of the
    error. *)
Variable sshDial : string -> option ClientConfig -> Client + string.
(** The method [Dial("tcp", address)] of [*ssh.Client], called on the
    client of the host as it stands, be it nil: Go makes the call on a nil
    pointer, and what comes of it is decided in the ssh library: a
    connection, the text of an error, or a panic. *)
Variable clientDial : option Client -> string -> Result (NetConn + string).

(** [Host.Open()]: the host after the call, the value returned and what is
    printed. The address of the host is read through its pointer. *)
Definition Host_Open (w : World) (h : Host) : Result (Host * bool * list string) :=
  match client h with
  | None =>
      match Host_Address h ≫= (store w !!.) with
      | None => Panic
      | Some a =>
          match sshDial (address a) (config h) with
          | inl c => Ok (set_client (Some c) h, true, [])
          | inr err =>
              Ok (set_client None h, false,
                  ["  Error - failed to connect to remote address: " +:+ err])
          end
      end
  | Some _ => Ok (h, true, [])
  end.

(** [Host.Dial(address)]: the connection, or nil, and the flag. The
    client is not looked at before the call. *)
Definition Host_Dial (h : Host) (addr : string)
    : Result (option NetConn * bool * list string) :=
  r ← clientDial (client h) addr;
  match r with
  | inl conn => Ok (Some conn, true, [])
  | inr err =>
      Ok (None, false,
          ["  Error - Host (" +:+ Host_Name h
             +:+ ") failed to call remote address: " +:+ err])
  end.

(** The start of [Tunnel.forward]: the session of the host of the tunnel
    is opened, then the forward address is dialled. [None] is the early
    return of the function. *)
Definition forward_connect (w : World) (t : Tunnel)
    : Result (World * option NetConn) :=
  match Hosts w !! Tunnel_Host t with
  | None => Panic
  | Some host =>
      '(host, ok, out) ← Host_Open w host;
      let w := say_all out (set_Hosts (<[Tunnel_Host t := host]> (Hosts w)) w) in
      if negb ok then Ok (w, None)
      else
        match Forward t ≫= (store w !!.) with
        | None => Panic
        | Some fwd =>
            '(conn, ok, out) ← Host_Dial host (address fwd);
            Ok (say_all out w, if ok : bool then conn : option NetConn else None)
        end
  end.

End Session.

(** *** Validation: [Host.Validate], [Tunnel.Validate], [validateJumpHosts] *)

(** [os.Stat(path)]: no such file, another error (the [FileInfo] is nil
    then), a directory, or a file. *)
Inductive StatResult :=
| StatNotExist
| StatError
| StatDir
| StatFile.

(** A call that reads a file: permission denied, another error with its
    text, or the value. *)
Inductive Loaded (A : Type) :=
| LoadPermission
| LoadError (text : string)
| LoadOk (a : A).
Arguments LoadPermission {A}.
Arguments LoadError {A} text.
Arguments LoadOk {A} a.

(** The line that [validateJumpHosts] prints for a host behind a chain of
    jump hosts. *)
Definition multi_hop_error (h : Host) : string :=
  "  Error - host (" +:+ Host_Name h
    +:+ ") requires multi-host jumps and is not supported".

Section Validation.

Variable verboseFlag : bool.
Variable osStat : string -> StatResult.
(** [knownhosts.New(path)] and [os.ReadFile(path)]. *)
Variable knownhostsNew : string -> Loaded HostKeyCallback.
Variable osReadFile : string -> Loaded (list byte).
(** [ssh.ParsePrivateKey(key)] and, with the passphrase given,
    [ssh.ParsePrivateKeyWithPassphrase(key, passphrase)]: the signer, or
    the text of the error. *)
Variable ParsePrivateKey : list byte -> option string -> Signer + string.
(** [Address.Validate(group, name, attr, remote, flag)], the method that
    hosts and tunnels of this revision call; its file is not part of the
    sources at hand. It is taken as it comes: the address after the call,
    the value returned and the lines printed. *)
Variable Address_Validate :
  string -> string -> string -> bool -> bool -> Address ->
  Address * bool * list string.
(** [freePort()], by the number of listeners that [validateJumpHosts]
    already holds: the port of a new listener, or [None] when none was
    found. *)
Variable freePort : nat -> option Z.

(** [p.Validate(group, name, attr, remote, flag)] through the pointer [l]. *)
Definition validate_at (group name attr : string) (remote flag : bool)
    (l : loc) (w : World) : World * bool :=
  match store w !! l with
  | Some a =>
      let '(a, ok, out) := Address_Validate group name attr remote flag a in
      (say_all out (set_store (<[l := a]> (store w)) w), ok)
  | None => (w, false)
  end.

(** The [known_hosts] block of [Host.Validate]. *)
Definition load_known_hosts (h : Host) (w : World) (valid : bool)
    : Result (World * bool) :=
  match hostKeysMap w !! KnownHosts h with
  | Some _ => Ok (w, valid)
  | None =>
      match osStat (KnownHosts h) with
      | StatNotExist =>
          Ok (say ("  Error - host (" +:+ Host_Name h +:+ ") known_hosts file ("
                     +:+ KnownHosts h +:+ ") cannot be read: file not found") w,
              false)
      | StatError => Panic
      | StatDir =>
          Ok (say ("  Error - host (" +:+ Host_Name h +:+ ") known_hosts file ("
                     +:+ KnownHosts h
                     +:+ ") cannot be read: file is a directory") w, false)
      | StatFile =>
          match knownhostsNew (KnownHosts h) with
          | LoadPermission =>
              Ok (say ("  Error - host (" +:+ Host_Name h
                         +:+ ") known_hosts file (" +:+ KnownHosts h
                         +:+ ") cannot be read: permission denied") w, false)
          | LoadError text =>
              Ok (say ("  Error - host (" +:+ Host_Name h
                         +:+ ") known_hosts file (" +:+ KnownHosts h
                         +:+ ") cannot be read: " +:+ text) w, false)
          | LoadOk hostKeyCallback =>
              Ok (set_hostKeysMap
                    (<[KnownHosts h := hostKeyCallback]> (hostKeysMap w)) w,
                  valid)
          end
      end
  end.

(** The identity block of [Host.Validate], after the check for a blank
    identity. The passphrase is trimmed on the way. *)
Definition load_identity (h : Host) (w : World) (valid : bool)
    : Result (World * Host * bool) :=
  match identityMap w !! Identity h with
  | Some _ => Ok (w, h, valid)
  | None =>
      match osStat (Identity h) with
      | StatNotExist =>
          Ok (say ("  Error - host (" +:+ Host_Name h +:+ ") identity file ("
                     +:+ Identity h +:+ ") cannot be read: file not found") w,
              h, false)
      | StatError => Panic
      | StatDir =>
          Ok (say ("  Error - host (" +:+ Host_Name h +:+ ") identity file ("
                     +:+ Identity h
                     +:+ ") cannot be read: file is a directory") w, h, false)
      | StatFile =>
          match osReadFile (Identity h) with
          | LoadPermission =>
              Ok (say ("  Error - host (" +:+ Host_Name h
                         +:+ ") identity file (" +:+ Identity h
                         +:+ ") cannot be read: permission denied") w, h, false)
          | LoadError text =>
              Ok (say ("  Error - host (" +:+ Host_Name h
                         +:+ ") identity file (" +:+ Identity h
                         +:+ ") cannot be read: " +:+ text) w, h, false)
          | LoadOk key =>
              let h := set_Passphrase (TrimSpace (Passphrase h)) h in
              let parsed :=
                if bool_decide (Passphrase h ≠ "")
                then ParsePrivateKey key (Some (Passphrase h))
                else ParsePrivateKey key None in
              match parsed with
              | inr text =>
                  Ok (say ("  Error - host (" +:+ Host_Name h
                             +:+ ") identity file (" +:+ Identity h
                             +:+ ") cannot be decode: " +:+ text) w, h, false)
              | inl signer =>
                  Ok (set_identityMap
                        (<[Identity h := signer]> (identityMap w)) w, h, valid)
              end
          end
      end
  end.

(** [Host.Validate(defaultUsername)]: the package variables and the host
    after the call, and the value returned. *)
Definition Host_Validate (defaultUsername : string) (h : Host) (w : World)
    : Result (World * Host * bool) :=
  let valid := true in
  let h := set_Host_Name (TrimSpace (Host_Name h)) h in
  let '(w, valid) :=
    if bool_decide (Host_Name h = "")
    then (say "  Error - host name cannot be blank" w, false)
    else (w, valid) in
  let '(w, valid) :=
    match Hosts w !! Host_Name h with
    | Some _ =>
        (say ("  Error - host name (" +:+ Host_Name h +:+ ") redfined") w, false)
    | None => (w, valid)
    end in
  let h := set_Username (TrimSpace (Username h)) h in
  let '(w, h) :=
    if bool_decide (TrimSpace (Username h) = "") && verboseFlag
    then (say ("  Info  - host (" +:+ Host_Name h
                 +:+ ") will use default username: " +:+ defaultUsername) w,
          set_Username defaultUsername h)
    else (w, h) in
  let h := set_KnownHosts (TrimSpace (KnownHosts h)) h in
  '(w, valid) ← load_known_hosts h w valid;
  let h := set_Identity (TrimSpace (Identity h)) h in
  let '(w, valid) :=
    if bool_decide (Identity h = "")
    then (say ("  Error - host (" +:+ Host_Name h
                 +:+ ") missing identity file") w, false)
    else (w, valid) in
  '(w, h, valid) ← load_identity h w valid;
  let '(w, valid) :=
    match Host_Address h with
    | Some l =>
        if nil_or_blank w (Some l)
        then (say ("  Error - host (" +:+ Host_Name h
                     +:+ ") requires an address") w, false)
        else
          let '(w, ok) :=
            validate_at "host" (Host_Name h) "address"
              (bool_decide (JumpHost h ≠ "")) true l w in
          (w, if ok then valid else false)
    | None =>
        (say ("  Error - host (" +:+ Host_Name h
                +:+ ") requires an address") w, false)
    end in
  let '(w, h, valid) :=
    if bool_decide (JumpHost h ≠ "") then
      if bool_decide (JumpHost h = Host_Name h)
      then (say ("  Error - host (" +:+ Host_Name h
                   +:+ ") jump_host cannot reference itself") w, h, false)
      else (w, set_KnownHosts "" h, valid)
    else (w, h, valid) in
  let h :=
    set_config
      (Some {| User := Username h;
               Auth := identityMap w !! Identity h;
               HostKeyCallback_of := hostKeysMap w !! KnownHosts h |}) h in
  let w :=
    if verboseFlag && valid
    then say ("  Info - host (" +:+ Host_Name h +:+ ") validated") w
    else w in
  Ok (set_Hosts (<[Host_Name h := h]> (Hosts w)) w, h, valid).

Definition set_Tunnel_Name (s : string) (t : Tunnel) : Tunnel :=
  {| Tunnel_Name := s; Local := Local t; Tunnel_Host := Tunnel_Host t;
     Forward := Forward t |}.
Definition set_Local (l : option loc) (t : Tunnel) : Tunnel :=
  {| Tunnel_Name := Tunnel_Name t; Local := l; Tunnel_Host := Tunnel_Host t;
     Forward := Forward t |}.
Definition set_Tunnel_Host (s : string) (t : Tunnel) : Tunnel :=
  {| Tunnel_Name := Tunnel_Name t; Local := Local t; Tunnel_Host := s;
     Forward := Forward t |}.

(** [t.Forward != nil && t.Forward.IsValid()], with the port of the
    forward address when it holds. *)
Definition forward_valid (w : World) (t : Tunnel) : option Z :=
  a ← Forward t ≫= (store w !!.);
  if IsValid a then Some (Port a) else None.

(** [Tunnel.Validate()]: the package variables and the tunnel after the
    call, and the value returned. *)
Definition Tunnel_Validate (t : Tunnel) (w : World) : World * Tunnel * bool :=
  let valid := true in
  let t := set_Tunnel_Name (TrimSpace (Tunnel_Name t)) t in
  let '(w, valid) :=
    if bool_decide (Tunnel_Name t = "")
    then (say "  Error - tunnel name cannot be blank" w, false)
    else (w, valid) in
  let '(w, valid) :=
    match Tunnels w !! Tunnel_Name t with
    | Some _ =>
        (say ("  Error - tunnel name (" +:+ Tunnel_Name t +:+ ") redfined") w,
         false)
    | None => (w, valid)
    end in
  let '(w, valid) :=
    match Forward t with
    | Some l =>
        if nil_or_blank w (Some l)
        then (say ("  Error - tunnel (" +:+ Tunnel_Name t
                     +:+ ") requires a forward address") w, false)
        else
          let '(w, ok) :=
            validate_at "tunnel" (Tunnel_Name t) "forward address" true false
              l w in
          (w, if ok then valid else false)
    | None =>
        (say ("  Error - tunnel (" +:+ Tunnel_Name t
                +:+ ") requires a forward address") w, false)
    end in
  let '(w, t) :=
    match forward_valid w t with
    | Some p =>
        if nil_or_blank w (Local t) then
          let w :=
            say ("  Warn  - tunnel (" +:+ Tunnel_Name t
                   +:+ ") Local entrance undefined. Defaulting to 127.0.0.1:"
                   +:+ itoa p) w in
          let '(w, l) := new_address ("127.0.0.1:" +:+ itoa p) w in
          (w, set_Local (Some l) t)
        else (w, t)
    | None => (w, t)
    end in
  let '(w, valid) :=
    match Local t with
    | Some l =>
        if nil_or_blank w (Some l)
        then (say ("  Error - tunnel (" +:+ Tunnel_Name t
                     +:+ ") missing a local address that cannot be derived") w,
              valid)
        else
          let '(w, ok) :=
            validate_at "tunnel" (Tunnel_Name t) "local address" true false
              l w in
          (w, if ok then valid else false)
    | None =>
        (say ("  Error - tunnel (" +:+ Tunnel_Name t
                +:+ ") missing a local address that cannot be derived") w,
         valid)
    end in
  let t := set_Tunnel_Host (TrimSpace (Tunnel_Host t)) t in
  let '(w, valid) :=
    if bool_decide (Tunnel_Host t = "")
    then (say ("  Error - tunnel (" +:+ Tunnel_Name t
                 +:+ ") missing remote host") w, false)
    else
      match Hosts w !! Tunnel_Host t with
      | None =>
          (say ("  Error - tunnel (" +:+ Tunnel_Name t +:+ ") remote host ("
                  +:+ Tunnel_Host t +:+ ") undefined") w, false)
      | Some host =>
          (set_Hosts (<[Tunnel_Host t := set_isHost true host]> (Hosts w)) w,
           valid)
      end in
  let w :=
    if verboseFlag && valid
    then say ("  Info  - tunnel (" +:+ Tunnel_Name t +:+ ") validated") w
    else w in
  (set_Tunnels (<[Tunnel_Name t := t]> (Tunnels w)) w, t, valid).

(** [h.Address = p] for the host under the key [k]. *)
Definition point_host_at (k : string) (p : option loc) (w : World) : World :=
  set_Hosts (alter (set_Host_Address p) k (Hosts w)) w.

(** The tunnel that [validateJumpHosts] makes for the host [h] with the
    jump host [jumpHost], its local address at [l]. *)
Definition jumpTunnel_for (h jumpHost : Host) (l : loc) : Tunnel :=
  {| Tunnel_Name := Host_Name jumpHost +:+ " jumphost";
     Local := Some l;
     Tunnel_Host := JumpHost h;
     Forward := Host_Address h |}.

(** What the body of the loop of [validateJumpHosts] does with [valid] and
    whether the loop goes on. *)
Inductive JumpFlow :=
| JumpNext (w : World) (listeners : nat) (valid : bool)
| JumpBreak (w : World) (valid : bool).

(** The body of the loop of [validateJumpHosts] for the host under the key
    [k]; [listeners] counts the entries of [freePortListeners]. *)
Definition jump_host_step (k : string) (w : World) (listeners : nat)
    (valid : bool) : JumpFlow :=
  match Hosts w !! k with
  | None => JumpNext w listeners valid
  | Some h =>
      if bool_decide (JumpHost h ≠ "") && isHost h then
        match Hosts w !! JumpHost h with
        | None =>
            JumpNext
              (say ("  Error - host (" +:+ Host_Name h +:+ ") jump_host ("
                      +:+ JumpHost h +:+ ") is not defined") w)
              listeners false
        | Some jumpHost =>
            if bool_decide (JumpHost jumpHost ≠ "") then
              JumpNext (say (multi_hop_error h) w) listeners false
            else
              match freePort listeners with
              | None => JumpBreak w false
              | Some port =>
                  let '(w, l) := new_address ("127.0.0.1:" +:+ itoa port) w in
                  let '(w, jumpTunnel, _) :=
                    Tunnel_Validate (jumpTunnel_for h jumpHost l) w in
                  let w := point_host_at k (Local jumpTunnel) w in
                  JumpNext w (S listeners) valid
              end
        end
      else JumpNext w listeners valid
  end.

(** The loop [for _, h := range Hosts], the keys taken in the order
    [order] (Go leaves the order open). *)
Fixpoint jump_hosts_loop (order : list string) (w : World) (listeners : nat)
    (valid : bool) : World * bool :=
  match order with
  | [] => (w, valid)
  | k :: rest =>
      match jump_host_step k w listeners valid with
      | JumpNext w listeners valid => jump_hosts_loop rest w listeners valid
      | JumpBreak w valid => (w, valid)
      end
  end.

(** [validateJumpHosts()]. *)
Definition validateJumpHosts (order : list string) (w : World) : World * bool :=
  jump_hosts_loop order w 0%nat true.

(** ** config.go *)

Record Configuration := mkConfiguration {
  cfg_Hosts : list Host;
  cfg_Tunnels : list Tunnel;
}.

Fixpoint validate_hosts (defaultUsername : string) (hosts : list Host)
    (w : World) (valid : bool) : Result (World * bool) :=
  match hosts with
  | [] => Ok (w, valid)
  | host :: rest =>
      '(w, _, ok) ← Host_Validate defaultUsername host w;
      validate_hosts defaultUsername rest w (if ok : bool then valid else false)
  end.

Fixpoint validate_tunnels (tunnels : list Tunnel) (w : World) (valid : bool)
    : World * bool :=
  match tunnels with
  | [] => (w, valid)
  | tunnel :: rest =>
      let '(w, _, ok) := Tunnel_Validate tunnel w in
      validate_tunnels rest w (if ok then valid else false)
  end.

(** The two last loops of [Configuration.Validate]: the hosts that are
    neither the host of a tunnel nor a jump host are reported and
    deleted. *)
Fixpoint unused_hosts (order : list string) (w : World) : World * list string :=
  match order with
  | [] => (w, [])
  | name :: rest =>
      match Hosts w !! name with
      | Some host =>
          if negb (isHost host) && negb (isJumpHost host) then
            let '(w, unused) :=
              unused_hosts rest
                (say ("  Info  - host(" +:+ name +:+ ") is unused") w) in
            (w, name :: unused)
          else unused_hosts rest w
      | None => unused_hosts rest w
      end
  end.

Definition delete_hosts (unused : list string) (w : World) : World :=
  set_Hosts (foldl (fun hs name => delete name hs) (Hosts w) unused) w.

(** [Configuration.Validate(defaultUsername)]; [order] and [order'] are the
    orders in which the two loops over [Hosts] take the keys. *)
Definition Configuration_Validate (defaultUsername : string)
    (order order' : list string) (c : Configuration) (w : World)
    : Result (World * bool) :=
  '(w, valid) ← validate_hosts defaultUsername (cfg_Hosts c) w true;
  let '(w, valid) := validate_tunnels (cfg_Tunnels c) w valid in
  let '(w, ok) := validateJumpHosts order w in
  let valid := if ok then valid else false in
  let '(w, unused) := unused_hosts order' w in
  Ok (delete_hosts unused w, valid).

End Validation.

(** ** A concrete environment, to run the code on examples

    The identity file [/id] exists and parses, no [known_hosts] file can be
    read, the addresses are validated as the method [ValidateAddress] of
    address.go does it with [literalResolver], and the free ports are
    40000, 40001, ... *)

Definition ex_osStat (path : string) : StatResult :=
  if bool_decide (path = "/id") then StatFile else StatNotExist.
Definition ex_knownhostsNew (path : string) : Loaded HostKeyCallback :=
  LoadError "unreadable".
Definition ex_osReadFile (path : string) : Loaded (list byte) := LoadOk [].
Definition ex_ParsePrivateKey (key : list byte) (pass : option string)
    : Signer + string := inl "signer".
Definition ex_Address_Validate (group name attr : string) (remote flag : bool)
    (a : Address) : Address * bool * list string :=
  ValidateAddress literalResolver group name attr remote a.
Definition ex_freePort (listeners : nat) : option Z :=
  Some (40000 + Z.of_nat listeners).

Definition ex_host (name : string) (addr : option loc) (jump : string) : Host :=
  {| Host_Name := name; Host_Address := addr; Username := "u";
     Identity := "/id"; Passphrase := ""; KnownHosts := ""; JumpHost := jump;
     isHost := false; isJumpHost := false; client := None; config := None |}.

(** Hosts [A] and [B], [B] behind the jump host [A]; the tunnel [T1] to [B]
    has no local address. *)
Definition ex_config : Configuration :=
  {| cfg_Hosts := [ex_host "A" (Some 0%nat) ""; ex_host "B" (Some 1%nat) "A"];
     cfg_Tunnels :=
       [{| Tunnel_Name := "T1"; Local := None; Tunnel_Host := "B";
           Forward := Some 2%nat |}] |}.
Definition ex_world : World :=
  world_start
    [NewAddress "10.0.0.5:22"; NewAddress "10.0.0.6:22"; NewAddress "10.0.0.5:80"].

Definition ex_Configuration_Validate :=
  Configuration_Validate false ex_osStat ex_knownhostsNew ex_osReadFile
    ex_ParsePrivateKey ex_Address_Validate ex_freePort "u".

(** The package variables once the hosts and the tunnels of a configuration
    are validated one by one: what [validateJumpHosts] starts from. *)
Definition ex_registered (c : Configuration) (w : World) : World :=
  match validate_hosts false ex_osStat ex_knownhostsNew ex_osReadFile
          ex_ParsePrivateKey ex_Address_Validate "u" (cfg_Hosts c) w true with
  | Ok (w, valid) =>
      (validate_tunnels false ex_Address_Validate (cfg_Tunnels c) w valid).1
  | Panic => w
  end.

(** The hosts [A] and [B] of [ex_config] as they stand in the registry when
    the resolver starts. *)
Definition ex_registered_A : Host :=
  Eval vm_compute in
    default (ex_host "" None "") (Hosts (ex_registered ex_config ex_world) !! "A").
Definition ex_registered_B : Host :=
  Eval vm_compute in
    default (ex_host "" None "") (Hosts (ex_registered ex_config ex_world) !! "B").

(** As [ex_config], but the only tunnel goes to [A]: no tunnel has the host
    [B], which stands behind the jump host [A]. *)
Definition ex_config_idle : Configuration :=
  {| cfg_Hosts := [ex_host "A" (Some 0%nat) ""; ex_host "B" (Some 1%nat) "A"];
     cfg_Tunnels :=
       [{| Tunnel_Name := "T1"; Local := None; Tunnel_Host := "A";
           Forward := Some 2%nat |}] |}.

Definition ex_world_chain : World :=
  world_start
    [NewAddress "10.0.0.5:22"; NewAddress "10.0.0.6:22"; NewAddress "10.0.0.5:80";
     NewAddress "10.0.0.7:22"].

(** Two hosts, [B] and [D], behind the same jump host [A], each the host
    of a tunnel. *)
Definition ex_config_shared : Configuration :=
  {| cfg_Hosts :=
       [ex_host "A" (Some 0%nat) ""; ex_host "B" (Some 1%nat) "A";
        ex_host "D" (Some 3%nat) "A"];
     cfg_Tunnels :=
       [{| Tunnel_Name := "T1"; Local := None; Tunnel_Host := "B";
           Forward := Some 2%nat |};
        {| Tunnel_Name := "T2"; Local := None; Tunnel_Host := "D";
           Forward := Some 2%nat |}] |}.

(** The tunnel of [ex_config]. *)
Definition ex_T1 : Tunnel :=
  {| Tunnel_Name := "T1"; Local := None; Tunnel_Host := "B";
     Forward := Some 2%nat |}.


(** The host [S] with a blank before its name, and the same text as its
    jump host. *)
Definition ex_host_self : Host :=
  {| Host_Name := " S"; Host_Address := Some 1%nat; Username := "u";
     Identity := "/id"; Passphrase := ""; KnownHosts := ""; JumpHost := " S";
     isHost := false; isJumpHost := false; client := None; config := None |}.

(** The counter that a call of [copy] with the flag [read] adds to, and the
    other one. *)
Definition counter (read : bool) (s : TunnelStats) : Z :=
  if read then Received s else Transmitted s.
Definition other_counter (read : bool) (s : TunnelStats) : Z :=
  if read then Transmitted s else Received s.

(** The row that the subscriber prints for a record. *)
Definition row_of (t : TunnelStats) : Printed :=
  TableRow (ts_Name t) (Received t) (Transmitted t) (Connections t).

(** The text of a JSON document with one record, as bytes, and a parser that
    knows this one document. *)
Definition quote : string := String (ascii_of_nat 34) EmptyString.
Definition ex_stats : TunnelStats :=
  {| ts_Name := "T1"; Connections := 1; Received := 2; Transmitted := 3 |}.
Definition ex_json : list byte :=
  list_byte_of_string
    ("[{" +:+ quote +:+ "name" +:+ quote +:+ ":" +:+ quote +:+ "T1" +:+ quote
     +:+ "," +:+ quote +:+ "connections" +:+ quote +:+ ":1,"
     +:+ quote +:+ "received" +:+ quote +:+ ":2,"
     +:+ quote +:+ "transmitted" +:+ quote +:+ ":3}]").
Definition ex_Marshal (ts : list TunnelStats) : option (list byte) :=
  Some ex_json.
Definition ex_Unmarshal (text : list byte) : option (list (option TunnelStats)) :=
  if bool_decide (text = ex_json) then Some [Some ex_stats] else None.

(** Two states of the package variables that differ at most in what was
    printed. *)
Definition quiet (w w' : World) : Prop :=
  store w' = store w /\ Hosts w' = Hosts w /\ Tunnels w' = Tunnels w /\
  hostKeysMap w' = hostKeysMap w /\ identityMap w' = identityMap w.

(** Two states of the package variables with the same registries, the
    second with the lines of the first and maybe more; the stores may
    differ. *)
Definition calm (w w' : World) : Prop :=
  Hosts w' = Hosts w /\ Tunnels w' = Tunnels w /\
  hostKeysMap w' = hostKeysMap w /\ identityMap w' = identityMap w /\
  ∃ more, printed w' = printed w ++ more.

(** The registry of hosts as [Host.Validate] fills it: a host stands under
    its name, and the names are trimmed. *)
Definition registry_ok (w : World) : Prop :=
  ∀ k h, Hosts w !! k = Some h -> Host_Name h = k /\ TrimSpace k = k.

(** Every host of the first state is in the second one, under the same key
    and with the same name and jump host; a host of a tunnel stays one. *)
Definition hosts_kept (w w' : World) : Prop :=
  ∀ k h, Hosts w !! k = Some h ->
    ∃ h', Hosts w' !! k = Some h' /\ Host_Name h' = Host_Name h /\
          JumpHost h' = JumpHost h /\ (isHost h = true -> isHost h' = true).

(** Broadcasts that keep their distance: the first at least [interval]
    after [t], each next one at least [interval] after the one before. *)
Fixpoint spaced_from (t : Z) (out : list Broadcast) : Prop :=
  match out with
  | [] => True
  | (t', _) :: rest => t + interval <= t' /\ spaced_from t' rest
  end.

(** A task asleep was started by a signal that set [updated], and it wakes
    no sooner than [interval] after the last broadcast. *)
Definition sleeper_ok (b : Broadcaster) : Prop :=
  ∀ wake, sleeper b = Some wake ->
    lastBroadcast b + interval <= wake /\ updated (mgr b) = true.

(** When the task that a signal at [now] starts wakes: [interval] after the
    last broadcast if that is still to come, else a second from now (the
    timers of the [go func()] of [statsBroadcaster]). *)
Definition wake_time (now : Z) (b : Broadcaster) : Z :=
  if 0 <? lastBroadcast b + interval - now
  then lastBroadcast b + interval else now + Second.

(** A turn of [copy] in which all goes well: bytes are read, the writer
    takes them all, and neither end reports an error. The bytes read in a
    list of turns. *)
Definition clean (io : Turn) : Prop :=
  0 < nr io /\ nw io = nr io /\ ew io = None /\ er io = None.
Definition total_read (ios : list Turn) : Z :=
  foldr (λ io acc, nr io + acc) 0 ios.

(** The user name that [Host.Validate] leaves in the host: the default
    one stands in for a blank name only when [verboseFlag] is set. *)
Definition username_after (verboseFlag : bool) (defaultUsername : string)
    (h : Host) : string :=
  if bool_decide (TrimSpace (Username h) = "") && verboseFlag
  then defaultUsername else TrimSpace (Username h).

(** ** tunnel.go, the earlier revision

    [Tunnel.Validate] as it was with the method [ValidateAddress] of
    address.go: the addresses of a tunnel are used without a check for
    nil, and a blank local address is made of 0.0.0.0 and the port of the
    forward address. *)

(** [*p] for a pointer to an address: a nil pointer panics. *)
Definition deref (w : World) (p : option loc) : Result (loc * Address) :=
  match p with
  | Some l =>
      match store w !! l with
      | Some a => Ok (l, a)
      | None => Panic
      end
  | None => Panic
  end.

Section LegacyValidation.

Variable LookupIP : string -> option (list IP).

(** [p.ValidateAddress(group, name, attr, remote)] through the pointer [l]. *)
Definition validate_address_at (group name attr : string) (remote : bool)
    (l : loc) (w : World) : World * bool :=
  validate_at
    (λ group name attr remote _, ValidateAddress LookupIP group name attr remote)
    group name attr remote false l w.

Definition Tunnel_Validate_legacy (t : Tunnel) (w : World)
    : Result (World * Tunnel * bool) :=
  let valid := true in
  let t := set_Tunnel_Name (TrimSpace (Tunnel_Name t)) t in
  let '(w, valid) :=
    if bool_decide (Tunnel_Name t = "")
    then (say "  Error - tunnel name cannot be blank" w, false)
    else (w, valid) in
  let '(w, valid) :=
    match Tunnels w !! Tunnel_Name t with
    | Some _ =>
        (say ("  Error - tunnel name (" +:+ Tunnel_Name t +:+ ") redfined") w,
         false)
    | None => (w, valid)
    end in
  '(lf, forward) ← deref w (Forward t);
  let '(w, valid) :=
    if IsBlank forward
    then (say ("  Error - tunnel(" +:+ Tunnel_Name t
                 +:+ ") requires a forward address") w, false)
    else
      let '(w, ok) :=
        validate_address_at "tunnel" (Tunnel_Name t) "forward address" true
          lf w in
      (w, if ok then valid else false) in
  '(_, local) ← deref w (Local t);
  '(w, t) ←
    (if IsBlank local then
       '(_, forward) ← deref w (Forward t);
       if IsValid forward then
         let '(w, l) := new_address ("0.0.0.0:" +:+ itoa (Port forward)) w in
         Ok (w, set_Local (Some l) t)
       else Ok (w, t)
     else Ok (w, t));
  '(ll, local) ← deref w (Local t);
  let '(w, valid) :=
    if IsBlank local
    then (say ("  Error - tunnel(" +:+ Tunnel_Name t
                 +:+ ") missing a local address that cannot be derived") w,
          valid)
    else
      let '(w, ok) :=
        validate_address_at "tunnel" (Tunnel_Name t) "local address" true
          ll w in
      (w, if ok then valid else false) in
  let t := set_Tunnel_Host (TrimSpace (Tunnel_Host t)) t in
  let '(w, valid) :=
    if bool_decide (Tunnel_Host t = "")
    then (say ("  Error - tunnel (" +:+ Tunnel_Name t
                 +:+ ") missing remote host") w, false)
    else
      match Hosts w !! Tunnel_Host t with
      | None =>
          (say ("  Error - tunnel (" +:+ Tunnel_Name t +:+ ") remote host ("
                  +:+ Tunnel_Host t +:+ ") not defined") w, false)
      | Some host =>
          (set_Hosts (<[Tunnel_Host t := set_isHost true host]> (Hosts w)) w,
           valid)
      end in
  Ok (set_Tunnels (<[Tunnel_Name t := t]> (Tunnels w)) w, t, valid).

End LegacyValidation.

(** ** main.go: the command line *)

(** [strings.HasPrefix(s, prefix)]. *)
Definition HasPrefix (s prefix : string) : bool := String.prefix prefix s.

Definition max_int32 : Z := 2 ^ 31 - 1.
Definition min_int32 : Z := - 2 ^ 31.

(** [strconv.ParseInt(s, 10, 32)]: an optional sign, then at least one
    decimal digit and nothing else; the value has to fit 32 bits. [None]
    is an error. *)
Definition ParseInt32 (s : string) : option Z :=
  let '(neg, body) :=
    match s with
    | String "-" rest => (true, rest)
    | String "+" rest => (false, rest)
    | _ => (false, s)
    end in
  match body with
  | EmptyString => None
  | _ =>
      match digits_value 0 body with
      | None => None
      | Some v =>
          let i := if neg then - v else v in
          if (min_int32 <=? i) && (i <=? max_int32) then Some i else None
      end
  end.

(** The package variables of main.go that the command line sets, and what
    was printed. *)
Record Options := mkOptions {
  cli_helpFlag : bool;
  cli_versionFlag : bool;
  cli_verboseFlag : bool;
  cli_configFile : string;
  cli_statsPort : Z;
  cli_out : list string;
}.

Definition set_helpFlag (o : Options) : Options :=
  {| cli_helpFlag := true; cli_versionFlag := cli_versionFlag o;
     cli_verboseFlag := cli_verboseFlag o; cli_configFile := cli_configFile o;
     cli_statsPort := cli_statsPort o; cli_out := cli_out o |}.
Definition set_versionFlag (o : Options) : Options :=
  {| cli_helpFlag := cli_helpFlag o; cli_versionFlag := true;
     cli_verboseFlag := cli_verboseFlag o; cli_configFile := cli_configFile o;
     cli_statsPort := cli_statsPort o; cli_out := cli_out o |}.
Definition set_verboseFlag (o : Options) : Options :=
  {| cli_helpFlag := cli_helpFlag o; cli_versionFlag := cli_versionFlag o;
     cli_verboseFlag := true; cli_configFile := cli_configFile o;
     cli_statsPort := cli_statsPort o; cli_out := cli_out o |}.
Definition set_configFile (s : string) (o : Options) : Options :=
  {| cli_helpFlag := cli_helpFlag o; cli_versionFlag := cli_versionFlag o;
     cli_verboseFlag := cli_verboseFlag o; cli_configFile := s;
     cli_statsPort := cli_statsPort o; cli_out := cli_out o |}.
Definition set_statsPort (p : Z) (o : Options) : Options :=
  {| cli_helpFlag := cli_helpFlag o; cli_versionFlag := cli_versionFlag o;
     cli_verboseFlag := cli_verboseFlag o; cli_configFile := cli_configFile o;
     cli_statsPort := p; cli_out := cli_out o |}.
Definition cli_say (line : string) (o : Options) : Options :=
  {| cli_helpFlag := cli_helpFlag o; cli_versionFlag := cli_versionFlag o;
     cli_verboseFlag := cli_verboseFlag o; cli_configFile := cli_configFile o;
     cli_statsPort := cli_statsPort o; cli_out := cli_out o ++ [line] |}.

(** A function of main.go goes on with the options, or the process exits
    with a code, what was printed until then given. *)
Inductive Run (A : Type) :=
| Goes (a : A)
| Exits (code : Z) (out : list string).
Arguments Goes {A} a.
Arguments Exits {A} code out.

(** [terminate(code)]. *)
Definition terminate {A} (code : Z) (out : list string) : Run A :=
  Exits code (out ++ ["Terminated"]).

(** [parameter(index)]; the name of the option stands before its value. *)
Definition parameter (args : list string) (index : nat) (o : Options)
    : Run string :=
  let missing :=
    terminate 1
      (cli_out o ++
       ["  Error - paramreter " +:+ default "" (args !! pred index)
          +:+ " requires a value"]) in
  match args !! index with
  | Some value => if negb (HasPrefix value "-") then Goes value else missing
  | None => missing
  end.

(** [parameterInt(index)]. *)
Definition parameterInt (args : list string) (index : nat) (o : Options)
    : Run Z :=
  match parameter args index o with
  | Goes value =>
      match ParseInt32 value with
      | Some i => Goes i
      | None =>
          terminate 1
            (cli_out o ++
             ["  Error - paramreter " +:+ default "" (args !! pred index)
                +:+ " expected an int value"])
      end
  | Exits code out => Exits code out
  end.

Definition help_text : list string :=
  ["Automatic tunneling on demand";
   "Usage:";
   "  -h, --help        Display this message.";
   "  -c, --config      Specify the tunnel configuration file";
   "  -p, --stats-port  Ferret stats port.  Default is 2663";
   "  -v, --verbose     Verbose mode.  Prints progress debug messages.";
   "  -V, --version     Display version information."].

(** The loop of [parseCommandLine]: [rest] is what of [os.Args] stands at
    [index] and after it. *)
Fixpoint parse_loop (args rest : list string) (index : nat) (o : Options)
    : Run Options :=
  match rest with
  | [] => Goes o
  | arg :: rest =>
      if bool_decide (arg = "-h" \/ arg = "--help") then
        parse_loop args rest (S index) (set_helpFlag o)
      else if bool_decide (arg = "-V" \/ arg = "--version") then
        parse_loop args rest (S index) (set_versionFlag o)
      else if bool_decide (arg = "-v" \/ arg = "--verbose") then
        parse_loop args rest (S index) (set_verboseFlag o)
      else if bool_decide (arg = "-p" \/ arg = "--stats-port") then
        match parameterInt args (S index) o with
        | Goes i =>
            match rest with
            | _ :: rest => parse_loop args rest (S (S index)) (set_statsPort i o)
            | [] => Goes (set_statsPort i o)
            end
        | Exits code out => Exits code out
        end
      else if bool_decide (arg = "-c" \/ arg = "--config") then
        match parameter args (S index) o with
        | Goes file =>
            match rest with
            | _ :: rest => parse_loop args rest (S (S index)) (set_configFile file o)
            | [] => Goes (set_configFile file o)
            end
        | Exits code out => Exits code out
        end
      else
        let line :=
          if HasPrefix arg "-"
          then "  Error - unknown paramters (" +:+ arg +:+ ") at position "
                 +:+ itoa (Z.of_nat index)
          else "  Error - unexpected argument (" +:+ arg +:+ ") as position "
                 +:+ itoa (Z.of_nat index) in
        parse_loop args rest (S index) (set_helpFlag (cli_say line o))
  end.

(** [parseCommandLine()] on [os.Args]; [version_text] is the line that
    [version()] prints, with and without [verboseFlag]. *)
Definition parseCommandLine (version_text : bool -> string)
    (args : list string) (o : Options) : Run Options :=
  match parse_loop args (drop 1 args) 1 o with
  | Goes o =>
      if cli_helpFlag o then terminate 0 (cli_out o ++ help_text)
      else if cli_versionFlag o
      then terminate 0 (cli_out o ++ [version_text (cli_verboseFlag o)])
      else Goes o
  | Exits code out => Exits code out
  end.

(** The options as [defaultValues()] leaves them, the configuration file
    of the user given. *)
Definition defaultValues (configFile : string) : Options :=
  {| cli_helpFlag := false; cli_versionFlag := false; cli_verboseFlag := false;
     cli_configFile := configFile; cli_statsPort := 2663; cli_out := [] |}.

(** What the loop of [parseCommandLine] keeps: a help flag that is set,
    the lines printed, and a port of the statistics that is the old one or
    no negative number; and it exits with the code 1 only. *)
Definition parse_kept (o : Options) (r : Run Options) : Prop :=
  match r with
  | Goes o' =>
      (cli_helpFlag o = true -> cli_helpFlag o' = true) /\
      (cli_statsPort o' = cli_statsPort o \/ 0 <= cli_statsPort o' <= max_int32) /\
      ∃ more, cli_out o' = cli_out o ++ more
  | Exits code out => code = 1 /\ ∃ more, out = cli_out o ++ more
  end.

(** ** tunnel.go: the goroutines of one tunnel

    [Tunnel.Open] starts [forward] in a goroutine of its own for every
    connection it accepts, and [forward] starts two goroutines that run
    [copy]; all of them add to the one [TunnelStats] that [Tunnel.Open]
    made for the tunnel. The statement [t.stats.Received += int64(nw)] is
    no single step: the counter is loaded, and the sum is stored. A
    goroutine in [copy] is taken through its turns in steps, the load and
    the store of a [+=] being two of them, and a schedule names the
    goroutine that makes the next step. *)

(** The statistics with the counter of a direction set. *)
Definition set_counter (read : bool) (v : Z) (s : TunnelStats) : TunnelStats :=
  if read
  then {| ts_Name := ts_Name s; Connections := Connections s;
          Received := v; Transmitted := Transmitted s |}
  else {| ts_Name := ts_Name s; Connections := Connections s;
          Received := Received s; Transmitted := v |}.

(** A goroutine that runs [copy]: its flag [read], the turns to come, the
    value it has loaded for the [+=] under way, and how it stands. *)
Record Copier := mkCopier {
  cp_read : bool;
  cp_turns : list Turn;
  cp_loaded : option Z;
  cp_end : CopyEnd;
}.

Definition copier_start (read : bool) (ios : list Turn) : Copier :=
  {| cp_read := read; cp_turns := ios; cp_loaded := None;
     cp_end := CopyReading |}.

(** The goroutine once a turn is over. *)
Definition copier_after (c : Copier) (rest : list Turn) (f : Flow) : Copier :=
  {| cp_read := cp_read c; cp_turns := rest; cp_loaded := None;
     cp_end := match f with
               | Next => CopyReading
               | Break err => CopyReturned err
               end |}.

(** One step of a goroutine on the statistics [s] of the tunnel. In a turn
    that has read bytes the first step goes up to the load of the counter,
    the second one stores the sum made with the value loaded and ends the
    turn; what is added, and how the turn ends, is what [copy_turn] says.
    A turn without bytes read is one step. A goroutine that has returned,
    or that waits in [Read], stays as it is. *)
Definition copier_step (s : TunnelStats) (c : Copier) : TunnelStats * Copier :=
  match cp_end c, cp_turns c with
  | CopyReading, io :: rest =>
      if 0 <? nr io then
        match cp_loaded c with
        | None =>
            (s, {| cp_read := cp_read c; cp_turns := cp_turns c;
                   cp_loaded := Some (counter (cp_read c) s);
                   cp_end := CopyReading |})
        | Some v =>
            match copy_turn (Some (set_counter (cp_read c) v s)) (cp_read c) io with
            | (Some s', _, f) =>
                (set_counter (cp_read c) (counter (cp_read c) s') s,
                 copier_after c rest f)
            | (None, _, f) => (s, copier_after c rest f)
            end
        end
      else (s, copier_after c rest (copy_turn (Some s) (cp_read c) io).2)
  | _, _ => (s, c)
  end.

(** A goroutine that runs alone for [n] steps. *)
Fixpoint copier_run (n : nat) (s : TunnelStats) (c : Copier)
    : TunnelStats * Copier :=
  match n with
  | O => (s, c)
  | S n => let '(s, c) := copier_step s c in copier_run n s c
  end.

(** The goroutines [cs] of a tunnel under a schedule: the statistics as
    they stand after each step. *)
Fixpoint run_copiers (s : TunnelStats) (cs : list Copier) (schedule : list nat)
    : list TunnelStats :=
  match schedule with
  | [] => []
  | i :: rest =>
      match cs !! i with
      | Some c =>
          let '(s, c) := copier_step s c in
          s :: run_copiers s (<[i := c]> cs) rest
      | None => s :: run_copiers s cs rest
      end
  end.


(** The [Address] of every host is an object of the store. *)
Definition addresses_allocated (w : World) : Prop :=
  ∀ k h l, Hosts w !! k = Some h -> Host_Address h = Some l ->
    (l < length (store w))%nat.

(** No host of a tunnel, the one under [k] apart, has the jump host [j]. *)
Definition alone_behind (k j : string) (w : World) : Prop :=
  ∀ k2 h2, k2 ≠ k -> Hosts w !! k2 = Some h2 -> isHost h2 = true ->
    JumpHost h2 ≠ j.

(** What the resolver has made for the host under [k]: the tunnel [t]
    registered under [name], the address [a] at [place], the host [hk],
    and no other host that points to [place]. *)
Definition fronted (k name : string) (t : Tunnel) (place : loc) (a : Address)
    (hk : Host) (w : World) : Prop :=
  Tunnels w !! name = Some t /\
  store w !! place = Some a /\
  Hosts w !! k = Some hk /\
  ∀ k2 h2, k2 ≠ k -> Hosts w !! k2 = Some h2 -> Host_Address h2 ≠ Some place.

(** * Properties *)

(** ** Addresses *)

Lemma check_port_range group name attr portText a a' out :
  check_port group name attr portText a = (a', out) ->
  valid a' = true -> 1 <= port a' <= 65536.
Proof.
  unfold check_port. destruct (Atoi portText) as [i|e]; [|by intros [= <- <-]].
  destruct ((i <? 1) || (i >? 65536)) eqn:Hrange; intros [= <- <-]; [done|].
  intros _. simpl. apply orb_false_iff in Hrange as [H1 H2]. lia.
Qed.

(** [ValidateAddress] leaves [valid] set only with a port between 1 and
    65536. *)
Lemma ValidateAddress_port_range LookupIP group name attr remote a a' ok out :
  ValidateAddress LookupIP group name attr remote a = (a', ok, out) ->
  valid a' = true -> 1 <= port a' <= 65536.
Proof.
  unfold ValidateAddress.
  destruct (Split (address (set_valid true a))) as [|host [|portText [|? ?]]];
    try by intros [= <- <- <-].
  destruct (resolve_host _ _ _ _ _ _) as [a1 out1].
  destruct (check_port _ _ _ _ a1) as [a2 out2] eqn:Hport.
  intros [= <- <- <-]. by eapply check_port_range.
Qed.

(** C6: the port 65536, outside 1..65535, is accepted: the address
    [127.0.0.1:65536] comes out of [ValidateAddress] marked valid, with the
    port 65536, and nothing is printed. *)
Theorem ValidateAddress_accepts_port_65536 :
  ValidateAddress literalResolver "tunnel" "T1" "local address" true
    (NewAddress "127.0.0.1:65536")
  = ({| valid := true; address := "127.0.0.1:65536"; port := 65536 |}, true, []).
Proof. reflexivity. Qed.

(** A remote name that does not resolve keeps its port in the address, and
    the port is appended once more. *)
Example ValidateAddress_unresolved_remote :
  (ValidateAddress literalResolver "tunnel" "T1" "forward address" true
     (NewAddress "example.org:80")).1.1
  = {| valid := true; address := "example.org:80:80"; port := 80 |}.
Proof. reflexivity. Qed.

(** ** The statistics frames *)

Lemma IndexByte_first_zero (l t : list byte) :
  Forall (λ b, b ≠ x00) l -> IndexByte (l ++ x00 :: t) x00 = Some (length l).
Proof.
  induction 1 as [|b l Hb _ IH]; simpl; [done|].
  destruct (Byte.eqb b x00) eqn:E.
  - by apply Byte.byte_dec_bl in E.
  - by rewrite IH.
Qed.

Lemma frame_payload_zero (l t : list byte) :
  Forall (λ b, b ≠ x00) l -> frame_payload (l ++ x00 :: t) = l.
Proof.
  intros Hl. unfold frame_payload. rewrite IndexByte_first_zero by done.
  by rewrite take_app_length.
Qed.

Lemma IndexByte_elem (s : list byte) (c : byte) :
  c ∈ s -> is_Some (IndexByte s c).
Proof.
  induction 1 as [b s|b b' s _ IH]; simpl.
  - by rewrite (Byte.byte_dec_lb eq_refl).
  - destruct (Byte.eqb b' b); [done|]. destruct IH as [i ->]. done.
Qed.

(** The frame that [writeUpdate] makes of [update]: [update] and then 1 to
    256 zero bytes, up to the next multiple of 256. *)
Lemma writeUpdate_frame connWrite s update :
  locked s = false ->
  lastUpdate (writeUpdate connWrite s update).1.1
  = update ++ replicate (256 - length update mod 256) x00.
Proof.
  intros Hlock. unfold writeUpdate. rewrite Hlock.
  destruct (write_all _ _ _) as [[alive sent] out].
  assert (length update mod 256 < 256)%nat by (apply Nat.mod_upper_bound; lia).
  replace (256 - (256 - length update mod 256))%nat
    with (length update mod 256)%nat by lia.
  unfold zeros. rewrite drop_replicate.
  case_bool_decide; reflexivity.
Qed.

(** Every subscriber whose [Write] succeeds is sent the frame. *)
Lemma write_all_sent connWrite frame conns conn :
  conn ∈ conns -> connWrite conn frame = true ->
  (conn, frame) ∈ (write_all connWrite frame conns).1.2.
Proof.
  induction 1 as [conn conns|conn c conns _ IH]; intros Hw; simpl;
    destruct (write_all _ _ _) as [[alive sent] out] eqn:E; simpl in *.
  - rewrite Hw. simpl. left.
  - destruct (connWrite c frame); simpl; [right|]; by apply IH.
Qed.

Section Frames.

Variable Unmarshal : list byte -> option (list (option TunnelStats)).

(** A full read that does not end in a zero byte is kept for later. *)
Lemma receive_step_keep r data last :
  length (bs r) = 256%nat -> length data = 256%nat ->
  data !! 255%nat = Some last -> last ≠ x00 ->
  receive_step Unmarshal r (ReadOk data)
  = Continue {| bs := data; str := str r ++ data |} [].
Proof.
  intros Hbs Hlen Hlast Hnz. unfold receive_step. rewrite Hlen.
  rewrite drop_ge, app_nil_r by lia. rewrite Hlast.
  destruct (Byte.eqb last x00) eqn:E; [by apply Byte.byte_dec_bl in E|].
  by case_bool_decide; [|lia].
Qed.

(** A read that ends in a zero byte closes the frame: what was gathered
    up to the first zero byte is parsed, and [str] starts afresh. *)
Lemma receive_step_close r data :
  last data = Some x00 ->
  let bs' := data ++ drop (length data) (bs r) in
  receive_step Unmarshal r (ReadOk data)
  = match Unmarshal (frame_payload (str r ++ bs')) with
    | Some ts =>
        let '(rows, ok) := print_rows ts in
        if ok then Continue {| bs := bs'; str := [] |} (table_header :: rows)
        else Stop Panicked (table_header :: rows)
    | None => Continue {| bs := bs'; str := [] |} []
    end.
Proof.
  intros Hlast bs'. unfold receive_step.
  destruct data as [|b data] using rev_ind; [done|clear IHdata].
  rewrite last_snoc in Hlast. injection Hlast as ->.
  fold bs'.
  assert (Hz : bs' !! length data = Some x00).
  { unfold bs'. rewrite <- app_assoc. by apply (list_lookup_middle data _ x00). }
  rewrite length_app. cbn [length].
  replace (length data + 1)%nat with (S (length data)) by lia.
  rewrite Hz. cbn [Byte.eqb].
  rewrite bool_decide_eq_true_2 by lia.
  assert (Hin : x00 ∈ str r ++ bs').
  { apply elem_of_app. right. by eapply list_elem_of_lookup_2. }
  unfold frame_payload.
  destruct (IndexByte_elem _ _ Hin) as [index ->]. done.
Qed.

Lemma print_rows_Some (ts : list TunnelStats) :
  print_rows (Some <$> ts)
  = ((λ t, TableRow (ts_Name t) (Received t) (Transmitted t) (Connections t))
       <$> ts, true).
Proof.
  induction ts as [|t ts IH]; [done|].
  rewrite !fmap_cons. cbn [print_rows]. by rewrite IH.
Qed.

(** The reads of a padded frame, [q] full buffers of payload before the
    last one: the payload is gathered behind [str] and parsed as one. *)
Lemma receive_loop_frame q : ∀ r payload rest,
  length (bs r) = 256%nat ->
  Forall (λ b, b ≠ x00) (str r) ->
  Forall (λ b, b ≠ x00) payload ->
  (256 * q <= length payload < 256 * q + 256)%nat ->
  let frame := payload ++ replicate (256 - length payload mod 256) x00 in
  ∃ buf, length buf = 256%nat /\
    receive_loop Unmarshal r (full_reads (S q) frame ++ rest)
    = match Unmarshal (str r ++ payload) with
      | Some ts =>
          let '(rows, ok) := print_rows ts in
          if ok then
            let '(out, e) :=
              receive_loop Unmarshal {| bs := buf; str := [] |} rest in
            (table_header :: rows ++ out, e)
          else (table_header :: rows, Panicked)
      | None => receive_loop Unmarshal {| bs := buf; str := [] |} rest
      end.
Proof.
  induction q as [|q IH]; intros r payload rest Hbs Hstr Hpay Hlen frame.
  - assert (Hmod : (length payload mod 256 = length payload)%nat)
      by (apply Nat.mod_small; lia).
    subst frame. rewrite Hmod.
    set (pad := replicate (256 - length payload) x00).
    assert (Hpad : pad = replicate (255 - length payload) x00 ++ [x00]).
    { unfold pad. replace (256 - length payload)%nat
        with (S (255 - length payload)) by lia.
      by rewrite replicate_S_end. }
    assert (Hfl : length (payload ++ pad) = 256%nat).
    { rewrite length_app. unfold pad. rewrite length_replicate. lia. }
    exists (payload ++ pad). split; [done|].
    cbn [full_reads app receive_loop]. rewrite take_ge by lia.
    rewrite receive_step_close
      by (rewrite Hpad, app_assoc; apply last_snoc).
    rewrite Hfl, drop_ge, app_nil_r by lia.
    assert (Hp : frame_payload (str r ++ payload ++ pad) = str r ++ payload).
    { rewrite app_assoc.
      unfold pad. replace (256 - length payload)%nat
        with (S (255 - length payload)) by lia. cbn [replicate].
      apply frame_payload_zero. by apply Forall_app. }
    rewrite Hp.
    destruct (Unmarshal (str r ++ payload)) as [ts|];
      [|by destruct (receive_loop _ _ rest)].
    destruct (print_rows ts) as [rows ok]. destruct ok; [|done].
    by destruct (receive_loop _ _ rest).
  - assert (Hsplit : payload = take 256 payload ++ drop 256 payload)
      by (by rewrite take_drop).
    assert (Hl1 : length (take 256 payload) = 256%nat)
      by (rewrite length_take; lia).
    assert (Hl2 : length (drop 256 payload) = (length payload - 256)%nat)
      by apply length_drop.
    assert (Hmod : (length payload mod 256
                    = length (drop 256 payload) mod 256)%nat).
    { rewrite Hl2.
      replace (length payload) with ((length payload - 256) + 1 * 256)%nat at 1
        by lia.
      by rewrite Nat.Div0.mod_add. }
    subst frame.
    change (full_reads (S (S q)) ?f ++ rest)
      with (ReadOk (take 256 f) :: (full_reads (S q) (drop 256 f) ++ rest)).
    rewrite take_app_le, drop_app_le by lia.
    destruct (take 256 payload !! 255%nat) as [last|] eqn:Hlast;
      [|apply lookup_ge_None in Hlast; lia].
    assert (Hlastnz : last ≠ x00).
    { apply list_elem_of_lookup_2 in Hlast.
      rewrite Forall_forall in Hpay. apply Hpay.
      rewrite Hsplit. apply elem_of_app. by left. }
    cbn [receive_loop].
    rewrite (receive_step_keep r _ last) by done.
    rewrite Hmod.
    edestruct (IH {| bs := take 256 payload; str := str r ++ take 256 payload |}
                 (drop 256 payload) rest) as (buf & Hbuf & ->); simpl.
    + done.
    + apply Forall_app. split; [done|]. by apply Forall_take.
    + by apply Forall_drop.
    + lia.
    + exists buf. split; [done|].
      rewrite <- app_assoc, <- Hsplit.
      destruct (Unmarshal (str r ++ payload)) as [ts|];
        [|by destruct (receive_loop _ _ rest)].
      destruct (print_rows ts) as [rows ok]. destruct ok; [|done].
      by destruct (receive_loop _ _ rest).
Qed.

End Frames.

Lemma deliver_frame (update : list byte) :
  deliver (update ++ replicate (256 - length update mod 256) x00)
  = full_reads (S (length update / 256))
      (update ++ replicate (256 - length update mod 256) x00).
Proof.
  unfold deliver. f_equal.
  rewrite length_app, length_replicate.
  assert (length update mod 256 < 256)%nat by (apply Nat.mod_upper_bound; lia).
  pose proof (Nat.div_mod_eq (length update) 256) as Hdm.
  replace (length update + (256 - length update mod 256))%nat
    with ((1 + length update / 256) * 256)%nat by lia.
  by rewrite Nat.div_mul.
Qed.

(** The round trip on whole buffers: a list of records whose
    serialization [update] has no zero byte and is read back by the parser
    as the same records: the frame that [writeUpdate] makes of it goes to
    every live subscriber, and a subscriber that is handed this frame in
    reads of 256 bytes prints exactly the rows of these records, in their
    order, and waits for the next frame with nothing left over. *)
Lemma stats_frame_round_trip
    (Unmarshal : list byte -> option (list (option TunnelStats)))
    (connWrite : Conn -> list byte -> bool)
    (s : StatsManager) (ts : list TunnelStats) (update : list byte) :
  Unmarshal update = Some (Some <$> ts) ->
  Forall (λ b, b ≠ x00) update ->
  locked s = false ->
  let frame := lastUpdate (writeUpdate connWrite s update).1.1 in
  (∀ conn, conn ∈ connections s -> connWrite conn frame = true ->
     (conn, frame) ∈ (writeUpdate connWrite s update).1.2) /\
  ∃ r, str r = [] /\
    receiveStats Unmarshal (deliver frame)
    = (Text "ferret already running" :: table_header :: (row_of <$> ts),
       Waiting r).
Proof.
  intros Hparse Hnz Hlock frame. split.
  - intros conn Hconn Hw. subst frame. revert Hw.
    unfold writeUpdate. rewrite Hlock.
    destruct (write_all _ _ _) as [[alive sent] out] eqn:E.
    replace (lastUpdate (_, sent, out).1.1) with
      (lastUpdate (set_lastUpdate
         (update ++ drop (256 - (256 - length update mod 256)) zeros) s))
      by (by case_bool_decide).
    intros Hw. pose proof (write_all_sent connWrite _ _ conn Hconn Hw) as Hs.
    cbn [connections set_lastUpdate] in E. cbn [connections set_lastUpdate] in Hs.
    by rewrite E in Hs.
  - subst frame. rewrite writeUpdate_frame by done.
    rewrite deliver_frame. unfold receiveStats.
    assert (Hq : (256 * (length update / 256) <= length update
                  < 256 * (length update / 256) + 256)%nat).
    { pose proof (Nat.div_mod_eq (length update) 256).
      assert (length update mod 256 < 256)%nat
        by (apply Nat.mod_upper_bound; lia). lia. }
    destruct (receive_loop_frame Unmarshal (length update / 256) receiver_start
                update [] eq_refl (Forall_nil_2 _) Hnz Hq) as (buf & Hbuf & Heq).
    rewrite app_nil_r in Heq. rewrite Heq.
    cbn [str receiver_start app]. rewrite Hparse, print_rows_Some.
    cbn [receive_loop]. rewrite app_nil_r.
    exists {| bs := buf; str := [] |}. done.
Qed.

Lemma stats_frame_round_trip_witness :
  ∃ r, str r = [] /\
    receiveStats ex_Unmarshal
      (deliver (lastUpdate (writeUpdate (λ _ _, true) (NewStats 2663) ex_json).1.1))
    = (Text "ferret already running" :: table_header :: (row_of <$> [ex_stats]),
       Waiting r).
Proof.
  apply (stats_frame_round_trip ex_Unmarshal (λ _ _, true)
           (NewStats 2663) [ex_stats] ex_json).
  - reflexivity.
  - vm_compute. repeat constructor; discriminate.
  - reflexivity.
Defined.

(** A frame of one buffer that the connection hands over in two reads, the
    first with [k] bytes of the payload. After the first read the whole
    buffer is appended to [str]: the [k] bytes and, behind them, the zeros
    the buffer was made with. The second read closes the frame, [str] is
    cut at its first zero byte, and what is parsed is the first [k] bytes
    of the payload: the rest of the frame is lost. *)
Lemma receive_loop_split_frame
    (Unmarshal : list byte -> option (list (option TunnelStats)))
    (update : list byte) (k : nat) :
  Forall (λ b, b ≠ x00) update ->
  (0 < k <= length update)%nat -> (length update < 256)%nat ->
  let frame := update ++ replicate (256 - length update mod 256) x00 in
  ∃ buf,
    receive_loop Unmarshal receiver_start
      [ReadOk (take k frame); ReadOk (drop k frame)]
    = match Unmarshal (take k update) with
      | Some ts =>
          let '(rows, ok) := print_rows ts in
          (table_header :: rows,
           if ok then Waiting {| bs := buf; str := [] |} else Panicked)
      | None => ([], Waiting {| bs := buf; str := [] |})
      end.
Proof.
  intros Hnz Hk Hlen frame.
  assert (Hmod : (length update mod 256 = length update)%nat)
    by (apply Nat.mod_small; lia).
  subst frame. rewrite Hmod.
  set (pad := replicate (256 - length update) x00).
  assert (Hpad : pad = replicate (255 - length update) x00 ++ [x00]).
  { unfold pad. replace (256 - length update)%nat
      with (S (255 - length update)) by lia.
    by rewrite replicate_S_end. }
  assert (Hfl : length (update ++ pad) = 256%nat).
  { rewrite length_app. unfold pad. rewrite length_replicate. lia. }
  rewrite take_app_le by lia.
  assert (Hk1 : length (take k update) = k) by (rewrite length_take; lia).
  set (bs1 := take k update ++ drop k (replicate 256 x00)).
  assert (Hbs1 : bs1 = take k update ++ x00 :: replicate (255 - k) x00).
  { unfold bs1. rewrite drop_replicate.
    by replace (256 - k)%nat with (S (255 - k)) by lia. }
  (* the first read *)
  assert (Hstep1 : receive_step Unmarshal receiver_start (ReadOk (take k update))
                   = Continue {| bs := bs1; str := bs1 |} []).
  { unfold receive_step. rewrite Hk1. cbn [bs str receiver_start app].
    fold bs1. destruct k as [|m]; [lia|].
    destruct (update !! m) as [b|] eqn:Hb;
      [|apply lookup_ge_None in Hb; lia].
    assert (Hb1 : bs1 !! m = Some b).
    { unfold bs1. rewrite lookup_app_l by lia.
      by rewrite lookup_take_lt by lia. }
    rewrite Hb1.
    assert (Hbnz : b ≠ x00).
    { rewrite Forall_forall in Hnz. apply Hnz.
      by eapply list_elem_of_lookup_2. }
    destruct (Byte.eqb b x00) eqn:E; [by apply Byte.byte_dec_bl in E|].
    by rewrite bool_decide_eq_true_2 by lia. }
  cbn [receive_loop]. rewrite Hstep1.
  (* the second read *)
  assert (Hlast : last (drop k (update ++ pad)) = Some x00).
  { rewrite Hpad, app_assoc, drop_app_le; [apply last_snoc|].
    rewrite length_app, length_replicate. lia. }
  rewrite receive_step_close by done. cbv zeta. cbn [str bs].
  set (bs2 := drop k (update ++ pad) ++ drop (length (drop k (update ++ pad))) bs1).
  assert (Hp : frame_payload (bs1 ++ bs2) = take k update).
  { rewrite Hbs1, <- app_assoc. cbn [app].
    apply frame_payload_zero. by apply Forall_take. }
  rewrite Hp. exists bs2.
  destruct (Unmarshal (take k update)) as [ts|]; [|done].
  destruct (print_rows ts) as [rows ok]. destruct ok; [|done].
  cbn [receive_loop app]. by rewrite app_nil_r.
Qed.

(** C2: the frame of the record [ex_stats], as [writeUpdate] makes it, is
    one buffer of 256 bytes. Handed to the subscriber in one read, the
    record is printed. Handed over in two reads, of 30 and of 226 bytes,
    it is lost: the subscriber prints nothing and waits for the next
    frame. *)
Theorem receiveStats_loses_split_frame :
  let frame :=
    lastUpdate (writeUpdate (λ _ _, true) (NewStats 2663) ex_json).1.1 in
  length frame = 256%nat /\
  (∃ r, str r = [] /\
     receiveStats ex_Unmarshal [ReadOk frame]
     = (Text "ferret already running" :: table_header :: [row_of ex_stats],
        Waiting r)) /\
  (∃ r, str r = [] /\
     receiveStats ex_Unmarshal [ReadOk (take 30 frame); ReadOk (drop 30 frame)]
     = ([Text "ferret already running"], Waiting r)).
Proof.
  cbv zeta. split_and!.
  - reflexivity.
  - eexists. split; [|vm_compute; reflexivity]. reflexivity.
  - eexists. split; [|vm_compute; reflexivity]. reflexivity.
Qed.

(** C8: a read that closes a frame (its last byte is zero) whose payload,
    the bytes gathered before the first zero byte, does not parse. The
    turn of the loop prints nothing, drops what was gathered and goes on;
    with no further read the subscriber waits in [Read], it has neither
    returned nor panicked; the reads that follow are handled as by a
    subscriber with nothing gathered; and a frame that follows, with
    records that parse, is printed in full. *)
Theorem malformed_frame_is_skipped
    (Unmarshal : list byte -> option (list (option TunnelStats)))
    (r : Receiver) (data : list byte) :
  length (bs r) = 256%nat -> (length data <= 256)%nat ->
  last data = Some x00 ->
  Unmarshal (frame_payload (str r ++ data ++ drop (length data) (bs r))) = None ->
  let r' := {| bs := data ++ drop (length data) (bs r); str := [] |} in
  receive_step Unmarshal r (ReadOk data) = Continue r' [] /\
  receive_loop Unmarshal r [ReadOk data] = ([], Waiting r') /\
  (∀ rest, receive_loop Unmarshal r (ReadOk data :: rest)
           = receive_loop Unmarshal r' rest) /\
  ∀ update ts,
    Forall (λ b, b ≠ x00) update ->
    Unmarshal update = Some (Some <$> ts) ->
    ∃ r'', str r'' = [] /\
      receive_loop Unmarshal r
        (ReadOk data
           :: deliver (update ++ replicate (256 - length update mod 256) x00))
      = (table_header :: (row_of <$> ts), Waiting r'').
Proof.
  intros Hbs Hlen Hlast Hparse r'.
  assert (Hstep : receive_step Unmarshal r (ReadOk data) = Continue r' []).
  { rewrite receive_step_close by done. cbv zeta. by rewrite Hparse. }
  assert (Hrest : ∀ rest, receive_loop Unmarshal r (ReadOk data :: rest)
                          = receive_loop Unmarshal r' rest).
  { intros rest. cbn [receive_loop]. rewrite Hstep.
    by destruct (receive_loop _ _ rest). }
  split_and!; [done|by rewrite Hrest|done|].
  intros update ts Hnz Hu. rewrite Hrest, deliver_frame.
  assert (Hq : (256 * (length update / 256) <= length update
                < 256 * (length update / 256) + 256)%nat).
  { pose proof (Nat.div_mod_eq (length update) 256).
    assert (length update mod 256 < 256)%nat
      by (apply Nat.mod_upper_bound; lia). lia. }
  assert (Hbs' : length (bs r') = 256%nat).
  { unfold r'. cbn [bs]. rewrite length_app, length_drop. lia. }
  destruct (receive_loop_frame Unmarshal (length update / 256) r' update []
              Hbs' (Forall_nil_2 _) Hnz Hq) as (buf & Hbuf & Heq).
  rewrite app_nil_r in Heq. rewrite Heq.
  cbn [str r' app]. rewrite Hu, print_rows_Some.
  cbn [receive_loop]. rewrite app_nil_r.
  by exists {| bs := buf; str := [] |}.
Qed.

Lemma malformed_frame_is_skipped_witness :
  let r' := {| bs := replicate 256 x00 ++ drop 256 (bs receiver_start);
               str := [] |} in
  receive_step ex_Unmarshal receiver_start (ReadOk (replicate 256 x00))
  = Continue r' [] /\
  receive_loop ex_Unmarshal receiver_start [ReadOk (replicate 256 x00)]
  = ([], Waiting r') /\
  (∀ rest, receive_loop ex_Unmarshal receiver_start
             (ReadOk (replicate 256 x00) :: rest)
           = receive_loop ex_Unmarshal r' rest) /\
  ∀ update ts,
    Forall (λ b, b ≠ x00) update ->
    ex_Unmarshal update = Some (Some <$> ts) ->
    ∃ r'', str r'' = [] /\
      receive_loop ex_Unmarshal receiver_start
        (ReadOk (replicate 256 x00)
           :: deliver (update ++ replicate (256 - length update mod 256) x00))
      = (table_header :: (row_of <$> ts), Waiting r'').
Proof.
  apply (malformed_frame_is_skipped ex_Unmarshal receiver_start
           (replicate 256 x00)).
  - reflexivity.
  - vm_compute. lia.
  - reflexivity.
  - reflexivity.
Defined.

(** ** The broadcaster *)

Section BroadcasterProperties.

Variable connWrite : Conn -> list byte -> bool.
Variable Marshal : list TunnelStats -> option (list byte).
Variable tunnelStats : Z -> list TunnelStats.

Local Abbreviation run := (run_events connWrite Marshal tunnelStats).
Local Abbreviation until := (broadcasts_until connWrite Marshal tunnelStats).

(** A broadcaster with [updated] set and no task asleep stays so: no
    event clears the flag, and no event starts a task. *)
Lemma swallowed_stays b evs :
  updated (mgr b) = true -> sleeper b = None ->
  ∃ b', run b evs = (b', []) /\
    updated (mgr b') = true /\ sleeper b' = None.
Proof.
  revert b. induction evs as [|[now e] evs IH]; intros b Hup Hsl.
  - by exists b.
  - cbn [run_events]. unfold advance. rewrite Hsl.
    destruct e as [|conn|]; cbn [handle].
    + assert (Hb : (if finished b then (b, @nil Sent)
                    else (on_signal now b, [])) = (b, [])).
      { destruct (finished b); [done|]. unfold on_signal. by rewrite Hup. }
      rewrite Hb.
      destruct (IH b Hup Hsl) as (b' & -> & ? & ?). by exists b'.
    + destruct (addConnection (mgr b) conn) as [m sent] eqn:E.
      unfold addConnection in E. injection E as <- _.
      edestruct (IH {| mgr := set_connections (connections (mgr b) ++ [conn]) (mgr b);
                       lastBroadcast := lastBroadcast b; sleeper := sleeper b;
                       finished := finished b |}) as (b' & -> & ? & ?);
        [done|done|]. by exists b'.
    + edestruct (IH {| mgr := mgr b; lastBroadcast := lastBroadcast b;
                       sleeper := sleeper b; finished := true |})
        as (b' & -> & ? & ?); [done|done|]. by exists b'.
Qed.

(** Once a signal was taken while no subscriber was connected, nothing is
    broadcast any more, whatever happens later. *)
Lemma swallowed_signal_silences s t0 now evs till :
  updated s = false -> connections s = [] ->
  until till (broadcaster_start s t0) ((now, Signal) :: evs) = [].
Proof.
  intros Hup Hconn. unfold broadcasts_until.
  cbn [run_events]. unfold advance at 1.
  cbn [sleeper broadcaster_start handle finished].
  assert (Hsig : on_signal now (broadcaster_start s t0)
                 = {| mgr := set_updated true s; lastBroadcast := t0 - interval;
                      sleeper := None; finished := false |}).
  { unfold on_signal. cbn [mgr broadcaster_start]. rewrite Hup. cbn [negb].
    by rewrite bool_decide_eq_false_2
      by (cbn [set_updated connections]; rewrite Hconn; cbn; lia). }
  rewrite Hsig.
  edestruct (swallowed_stays
               {| mgr := set_updated true s; lastBroadcast := t0 - interval;
                  sleeper := None; finished := false |} evs)
    as (b' & Hrun & _ & Hsl); [done|done|].
  rewrite Hrun. unfold advance. by rewrite Hsl.
Qed.

(** An idle broadcaster with a subscriber: the frame of a signal goes out
    one second after it. *)
Lemma idle_signal_broadcast b now update :
  finished b = false -> updated (mgr b) = false -> sleeper b = None ->
  connections (mgr b) ≠ [] ->
  lastBroadcast b + interval <= now ->
  Marshal (tunnelStats (now + Second)) = Some update ->
  ∃ sent, until (now + Second) b [(now, Signal)] = [(now + Second, sent)].
Proof.
  intros Hfin Hup Hsl Hconn Hidle Hm. unfold broadcasts_until.
  cbn [run_events]. unfold advance at 1. rewrite Hsl.
  cbn [handle]. rewrite Hfin. unfold on_signal. rewrite Hup. cbn [negb].
  rewrite bool_decide_eq_true_2
    by (cbn [set_updated connections]; destruct (connections (mgr b));
        [done|simpl; lia]).
  destruct (0 <? lastBroadcast b + interval - now) eqn:E;
    [apply Z.ltb_lt in E; lia|].
  unfold advance. cbn [sleeper].
  rewrite (proj2 (Z.leb_le _ _)) by (unfold Second; lia).
  unfold sender_wakes. rewrite Hm.
  destruct (writeUpdate _ _ _) as [[m sent] out].
  by exists sent.
Qed.

Lemma spaced_from_earlier t t' out :
  t <= t' -> spaced_from t' out -> spaced_from t out.
Proof.
  destruct out as [|[t0 sent] out]; [done|]. cbn [spaced_from].
  intros Hle [Ht Hrest]. split; [lia|done].
Qed.

Lemma advance_spaced now b :
  sleeper_ok b ->
  ∃ b1 out1, advance connWrite Marshal tunnelStats now b = (b1, out1) /\
    sleeper_ok b1 /\ lastBroadcast b <= lastBroadcast b1 /\
    ∀ out2, spaced_from (lastBroadcast b1) out2 ->
            spaced_from (lastBroadcast b) (out1 ++ out2).
Proof.
  intros Hok. unfold advance. destruct (sleeper b) as [wake|] eqn:Hs.
  - destruct (Hok wake Hs) as [Hw _]. destruct (wake <=? now).
    + unfold sender_wakes.
      destruct (Marshal (tunnelStats wake)) as [update|].
      * destruct (writeUpdate _ _ _) as [[m sent] out].
        eexists _, _. split; [done|]. cbn. split_and!.
        -- by intros w' [=].
        -- unfold interval in *. lia.
        -- intros out2 H2. by split.
      * eexists _, _. split; [done|]. cbn. split_and!.
        -- by intros w' [=].
        -- unfold interval in *. lia.
        -- intros out2. apply spaced_from_earlier. unfold interval in *. lia.
    + eexists _, _. split; [done|]. split_and!; [done|lia|done].
  - eexists _, _. split; [done|]. split_and!; [done|lia|done].
Qed.

Lemma handle_spaced now e b :
  sleeper_ok b ->
  sleeper_ok (handle now e b).1 /\
  lastBroadcast (handle now e b).1 = lastBroadcast b.
Proof.
  intros Hok. destruct e as [|conn|]; cbn [handle].
  - destruct (finished b); [done|]. unfold on_signal.
    destruct (updated (mgr b)) eqn:Hup; [done|]. cbn [negb].
    case_bool_decide; cbn; (split; [|done]).
    + intros wake [= <-]. split; [|done].
      destruct (0 <? lastBroadcast b + interval - now) eqn:E.
      * cbn [lastBroadcast]. lia.
      * apply Z.ltb_ge in E. cbn [lastBroadcast]. unfold Second. lia.
    + intros wake Hw. destruct (Hok wake Hw) as [? Hu]. congruence.
  - destruct (addConnection (mgr b) conn) as [m sent] eqn:E.
    unfold addConnection in E. injection E as <- _. by cbn.
  - by cbn.
Qed.

(** Whatever the events and their times, two broadcasts are at least
    [interval] apart. *)
Lemma broadcasts_spaced evs : ∀ b till,
  sleeper_ok b ->
  spaced_from (lastBroadcast b) (until till b evs).
Proof.
  assert (Hrun : ∀ evs b, sleeper_ok b ->
            ∃ b' out, run b evs = (b', out) /\ sleeper_ok b' /\
              ∀ out2, spaced_from (lastBroadcast b') out2 ->
                      spaced_from (lastBroadcast b) (out ++ out2)).
  { clear evs. induction evs as [|[now e] evs IH]; intros b Hok.
    - eexists _, _. split; [done|]. by split.
    - cbn [run_events].
      destruct (advance_spaced now b Hok) as (b1 & out1 & -> & Hok1 & _ & H1).
      destruct (handle_spaced now e b1 Hok1) as [Hok2 Hl2].
      destruct (handle now e b1) as [b2 sent]. cbn in Hok2, Hl2.
      destruct (IH b2 Hok2) as (b' & out & -> & Hok' & H').
      eexists _, _. split; [done|]. split; [done|].
      intros out2 H2. rewrite <- app_assoc. apply H1. rewrite <- Hl2. by apply H'. }
  intros b till Hok. unfold broadcasts_until.
  destruct (Hrun evs b Hok) as (b' & out & -> & Hok' & H').
  destruct (advance_spaced till b' Hok') as (b1 & out1 & -> & _ & _ & H1).
  apply H'. rewrite <- (app_nil_r out1). by apply H1.
Qed.

End BroadcasterProperties.

(** C3: a signal arrives while no subscriber is connected; a subscriber
    connects a second later; the system is idle until the signals at 10 s
    and 11 s. Nothing is broadcast within the hour: not within a second of
    the signal at 10 s, as the idle system should. *)
Theorem statsBroadcaster_swallows_signals
    (connWrite : Conn -> list byte -> bool)
    (Marshal : list TunnelStats -> option (list byte))
    (tunnelStats : Z -> list TunnelStats) :
  broadcasts_until connWrite Marshal tunnelStats (3600 * Second)
    (broadcaster_start (NewStats 2663) 0)
    [(0, Signal); (1 * Second, Accepted 1%nat);
     (10 * Second, Signal); (11 * Second, Signal)]
  = [].
Proof. by apply swallowed_signal_silences. Qed.

(** ** The relay loop *)

Lemma wrap64_in_range z : min_int64 <= z <= max_int64 -> wrap64 z = z.
Proof.
  unfold min_int64, max_int64, wrap64. intros Hz.
  rewrite Z.mod_small; lia.
Qed.

(** One turn of [copy] with statistics: the counter of the direction grows
    by at most what the writer took, the other one stays. *)
Lemma copy_turn_counters read s io :
  honest io ->
  min_int64 <= counter read s ->
  counter read s + written io <= max_int64 ->
  ∃ s' k f, copy_turn (Some s) read io = (Some s', k, f) /\
    counter read s <= counter read s'
      <= counter read s + (if 0 <? nr io then written io else 0) /\
    other_counter read s' = other_counter read s.
Proof.
  intros (Hnr & Hw & Hnw) Hmin Hmax. unfold copy_turn.
  destruct (0 <? nr io) eqn:Hpos.
  - set (clamped := (nw io <? 0) || (nr io <? nw io)).
    assert (Hn : ∃ n e, (if clamped
                         then (0, match ew io with
                                  | None => Some errInvalidWrite | e => e end)
                         else (nw io, ew io)) = (n, e) /\ 0 <= n <= written io).
    { destruct clamped eqn:Hc; eexists _, _; (split; [done|]); [lia|].
      apply orb_false_iff in Hc as [H1 H2].
      apply Z.ltb_ge in H1, H2. rewrite Hnw; lia. }
    destruct Hn as (n & e & -> & Hn).
    assert (Hs : ∃ s', (if read then add_Received n s else add_Transmitted n s) = s'
                 /\ counter read s <= counter read s' <= counter read s + written io
                 /\ other_counter read s' = other_counter read s).
    { eexists; split; [done|].
      destruct read; cbn [counter other_counter add_Received add_Transmitted
                           Received Transmitted] in *;
        rewrite wrap64_in_range by lia; lia. }
    destruct Hs as (s' & -> & Hs1 & Hs2).
    destruct e as [e|]; [by eexists _, _, _|].
    case_bool_decide; by eexists _, _, _.
  - eexists _, _, _. split; [done|]. lia.
Qed.

Lemma copy_turn_flow_stats s1 s2 read io :
  (copy_turn s1 read io).2 = (copy_turn s2 read io).2.
Proof.
  unfold copy_turn. destruct (0 <? nr io); [|done].
  destruct (if (nw io <? 0) || (nr io <? nw io) then _ else _) as [n e].
  destruct s1, s2, e; try done; by case_bool_decide.
Qed.

Lemma bytes_written_stats s1 s2 read ios :
  bytes_written s1 read ios = bytes_written s2 read ios.
Proof.
  revert s1 s2. induction ios as [|io ios IH]; intros s1 s2; [done|].
  cbn [bytes_written]. pose proof (copy_turn_flow_stats s1 s2 read io) as Hf.
  destruct (copy_turn s1 read io) as [[s1' ?] f1].
  destruct (copy_turn s2 read io) as [[s2' ?] f2].
  cbn in Hf. subst f2. destruct f1; [|done]. by rewrite (IH s1' s2').
Qed.

Lemma bytes_written_nonneg s read ios :
  Forall honest ios -> 0 <= bytes_written s read ios.
Proof.
  intros H. revert s. induction H as [|io ios (Hnr & Hw & _) _ IH]; intros s; [done|].
  cbn [bytes_written]. destruct (copy_turn s read io) as [[s' ?] f].
  destruct (0 <? nr io), f; try lia; specialize (IH s'); lia.
Qed.

(** One call of [copy] that has the statistics to itself: in every turn of
    its loop, and over the whole loop, the counter of the direction
    ([Received] for a call with [read], else [Transmitted]) does not
    decrease and grows by no more than the bytes the writer really took;
    the other counter is not touched. The reader and the writer keep the
    promises of [io.Reader] and [io.Writer], and the bytes written fit the
    64-bit counter. *)
Lemma copy_counters_monotone_bounded (read : bool) :
  (∀ s io,
     honest io ->
     min_int64 <= counter read s ->
     counter read s + written io <= max_int64 ->
     ∃ s' k f, copy_turn (Some s) read io = (Some s', k, f) /\
       counter read s <= counter read s'
         <= counter read s + (if 0 <? nr io then written io else 0) /\
       other_counter read s' = other_counter read s) /\
  (∀ ios s,
     Forall honest ios ->
     min_int64 <= counter read s ->
     counter read s + bytes_written (Some s) read ios <= max_int64 ->
     ∃ s' k e, copy (Some s) read ios = (Some s', k, e) /\
       counter read s <= counter read s'
         <= counter read s + bytes_written (Some s) read ios /\
       other_counter read s' = other_counter read s).
Proof.
  split; [intros; by apply copy_turn_counters|].
  induction ios as [|io ios IH]; intros s Hh Hmin Hmax.
  - exists s, 0%nat, CopyReading. cbn. split; [done|]. lia.
  - apply Forall_cons in Hh as [Hio Hios].
    pose proof (bytes_written_nonneg (Some s) read ios Hios) as Hnn.
    cbn [bytes_written copy] in *.
    assert (Hio' := Hio). destruct Hio' as (Hnr & Hw & _).
    assert (Hfit : counter read s + written io <= max_int64).
    { destruct (copy_turn (Some s) read io) as [[s1 k] f].
      pose proof (bytes_written_nonneg s1 read ios Hios).
      destruct (0 <? nr io) eqn:Hpos, f; try lia;
        apply Z.ltb_ge in Hpos; lia. }
    destruct (copy_turn_counters read s io Hio Hmin Hfit)
      as (s1 & k & f & E & Hc & Ho).
    rewrite E in *. destruct f as [|err].
    + destruct (IH s1 Hios) as (s' & m & e & E' & Hc' & Ho'); [lia|lia|].
      rewrite E'. exists s', (k + m)%nat, e. split; [done|].
      split; [lia|congruence].
    + exists s1, k, (CopyReturned err). split; [done|]. split; [lia|done].
Qed.

Lemma copy_counters_monotone_bounded_witness :
  ∃ s' k e,
    copy (Some ex_stats) true
      [ {| nr := 10; er := None; nw := 10; ew := None; written := 10 |};
        {| nr := 5; er := None; nw := 7; ew := None; written := 5 |} ]
    = (Some s', k, e) /\
    counter true ex_stats <= counter true s' <= counter true ex_stats + 15 /\
    other_counter true s' = other_counter true ex_stats.
Proof.
  apply (proj2 (copy_counters_monotone_bounded true)
           [ {| nr := 10; er := None; nw := 10; ew := None; written := 10 |};
             {| nr := 5; er := None; nw := 7; ew := None; written := 5 |} ]
           ex_stats).
  - repeat constructor; cbn; lia.
  - vm_compute. discriminate.
  - vm_compute. discriminate.
Defined.

Lemma set_counter_same read s : set_counter read (counter read s) s = s.
Proof. by destruct read, s. Qed.

Lemma copy_turn_set_counter read s io s' k f :
  copy_turn (Some s) read io = (Some s', k, f) ->
  set_counter read (counter read s') s = s'.
Proof.
  unfold copy_turn. destruct (0 <? nr io).
  - destruct (if (nw io <? 0) || (nr io <? nw io) then _ else _) as [n e].
    assert (Hs : set_counter read
                   (counter read (if read then add_Received n s
                                  else add_Transmitted n s)) s
                 = (if read then add_Received n s else add_Transmitted n s))
      by (by destruct read).
    destruct e; [|case_bool_decide]; by intros [= <- _ _].
  - intros [= <- _ _]. apply set_counter_same.
Qed.

Lemma copier_run_add m n : ∀ s c,
  copier_run (m + n) s c
  = let '(s1, c1) := copier_run m s c in copier_run n s1 c1.
Proof.
  induction m as [|m IH]; intros s c; [done|].
  cbn [Nat.add copier_run]. destruct (copier_step s c) as [s2 c2]. apply IH.
Qed.

(** A goroutine that is alone with the statistics does what [copy] does:
    taken through its steps, it ends with the statistics and the result of
    [copy]. *)
Lemma copier_run_alone read ios : ∀ s,
  ∃ n s' c k e,
    copier_run n s (copier_start read ios) = (s', c) /\
    copy (Some s) read ios = (Some s', k, e) /\
    cp_end c = e.
Proof.
  induction ios as [|io ios IH]; intros s.
  - by exists 0%nat, s, (copier_start read []), 0%nat, CopyReading.
  - destruct (copy_turn (Some s) read io) as [[s1 k1] f] eqn:E.
    assert (Hs1 : ∃ s1', s1 = Some s1').
    { revert E. unfold copy_turn.
      destruct (0 <? nr io); [|intros [= <- _ _]; by eexists].
      destruct (if (nw io <? 0) || (nr io <? nw io) then _ else _) as [n e].
      destruct e; [|case_bool_decide]; intros [= <- _ _]; by eexists. }
    destruct Hs1 as [s1' ->].
    assert (Hturn : ∃ m, copier_run m s (copier_start read (io :: ios))
                         = (s1', copier_after (copier_start read (io :: ios)) ios f)).
    { destruct (0 <? nr io) eqn:Hpos.
      - exists 2%nat. cbn [copier_run]. unfold copier_step at 1.
        cbn [copier_start cp_end cp_turns cp_loaded cp_read]. rewrite Hpos.
        unfold copier_step. cbn [cp_end cp_turns cp_loaded cp_read].
        rewrite Hpos, set_counter_same, E.
        by rewrite (copy_turn_set_counter read s io s1' k1 f E).
      - exists 1%nat. cbn [copier_run]. unfold copier_step.
        cbn [copier_start cp_end cp_turns cp_loaded cp_read].
        rewrite Hpos, E. cbn [snd].
        revert E. unfold copy_turn. rewrite Hpos. by intros [= <- _ _]. }
    destruct Hturn as [m Hm]. cbn [copy]. rewrite E. destruct f as [|err].
    + destruct (IH s1') as (n & s' & c & k & e & Hrun & Hcopy & Hend).
      exists (m + n)%nat, s', c, (k1 + k)%nat, e. rewrite Hcopy.
      split_and!; [|done|done].
      by rewrite copier_run_add, Hm.
    + eexists m, s1', _, k1, (CopyReturned err). by split_and!.
Qed.

(** C4: two connections of one tunnel, each with one turn of its [copy]
    towards the server, of 10 and of 50 bytes read and written. The first
    goroutine loads the counter, the second one loads it and stores its
    sum, then the first one stores its own: [Received] stands at 0, 0, 50
    and 10 after the four steps. It has gone down, and it ends at 10 with
    60 bytes relayed. *)
Theorem copy_counters_lose_updates :
  let io n := {| nr := n; er := None; nw := n; ew := None; written := n |} in
  let stats :=
    {| ts_Name := "T1"; Connections := 2; Received := 0; Transmitted := 0 |} in
  Received
    <$> run_copiers stats [copier_start true [io 10]; copier_start true [io 50]]
          [0; 1; 1; 0]%nat
  = [0; 0; 50; 10] /\
  Received
    <$> run_copiers stats [copier_start true [io 10]; copier_start true [io 50]]
          [0; 0; 1; 1]%nat
  = [0; 10; 10; 60].
Proof. split; reflexivity. Qed.

(** ** Sessions *)

(** [Host.Open] that returns true leaves the host with a client, and
    [Host.Dial] then hands this client and the address to the library: it
    returns what the library returns, with the error printed, and panics
    only if the library does. *)
Lemma Host_Dial_after_Open
    (sshDial : string -> option ClientConfig -> Client + string)
    (clientDial : option Client -> string -> Result (NetConn + string))
    w h h' out addr :
  Host_Open sshDial w h = Ok (h', true, out) ->
  ∃ c, client h' = Some c /\
    Host_Dial clientDial h' addr
    = (match clientDial (Some c) addr with
       | Ok (inl conn) => Ok (Some conn, true, [])
       | Ok (inr err) =>
           Ok (None, false,
               ["  Error - Host (" +:+ Host_Name h'
                  +:+ ") failed to call remote address: " +:+ err])
       | Panic => Panic
       end).
Proof.
  unfold Host_Open, Host_Dial. destruct (client h) as [c|] eqn:Hc.
  - intros [= <- <-]. exists c. rewrite Hc. split; [done|].
    by destruct (clientDial (Some c) addr) as [[conn|err]|].
  - destruct (Host_Address h ≫= _) as [a|]; [|done].
    destruct (sshDial (address a) (config h)) as [c|err]; [|done].
    intros [= <- <-]. exists c. cbn [client set_client]. split; [done|].
    by destruct (clientDial (Some c) addr) as [[conn|err]|].
Qed.

(** [Tunnel.forward] dials only after [Host.Open] returned true: what the
    library does with a nil client plays no part in it. *)
Lemma forward_connect_dials_open_session
    (sshDial : string -> option ClientConfig -> Client + string)
    (clientDial clientDial' : option Client -> string -> Result (NetConn + string))
    w t :
  (∀ c addr, clientDial (Some c) addr = clientDial' (Some c) addr) ->
  forward_connect sshDial clientDial w t
  = forward_connect sshDial clientDial' w t.
Proof.
  intros Hsame. unfold forward_connect.
  destruct (Hosts w !! Tunnel_Host t) as [host|]; [|done].
  destruct (Host_Open sshDial w host) as [[[host' ok] out]|] eqn:Hopen; [|done].
  cbn [mbind Result_bind]. destruct ok; cbn [negb]; [|done].
  destruct (Forward t ≫= _) as [fwd|]; [|done].
  destruct (Host_Dial_after_Open sshDial clientDial w host host' out
              (address fwd) Hopen) as (c & Hc & ->).
  destruct (Host_Dial_after_Open sshDial clientDial' w host host' out
              (address fwd) Hopen) as (c' & Hc' & ->).
  rewrite Hc in Hc'. injection Hc' as <-. by rewrite Hsame.
Qed.

(** So with the host registered, the addresses at hand and a library that
    returns on an established client, [Tunnel.forward] comes back without
    panic. *)
Lemma forward_connect_returns
    (sshDial : string -> option ClientConfig -> Client + string)
    (clientDial : option Client -> string -> Result (NetConn + string))
    w t host :
  (∀ c addr, clientDial (Some c) addr ≠ Panic) ->
  Hosts w !! Tunnel_Host t = Some host ->
  is_Some (Host_Address host ≫= (store w !!.)) ->
  is_Some (Forward t ≫= (store w !!.)) ->
  ∃ r, forward_connect sshDial clientDial w t = Ok r.
Proof.
  intros Hlib Hhost [a Ha] [fwd Hfwd]. unfold forward_connect. rewrite Hhost.
  destruct (Host_Open sshDial w host) as [[[host' ok] out]|] eqn:Hopen.
  - cbn [mbind Result_bind]. destruct ok; cbn [negb]; [|by eexists].
    cbn [store say_all set_Hosts]. rewrite Hfwd.
    destruct (Host_Dial_after_Open sshDial clientDial w host host' out
                (address fwd) Hopen) as (c & Hc & ->).
    specialize (Hlib c (address fwd)).
    destruct (clientDial (Some c) (address fwd)) as [[conn|err]|];
      [by eexists|by eexists|done].
  - unfold Host_Open in Hopen. destruct (client host); [done|].
    rewrite Ha in Hopen. by destruct (sshDial (address a) (config host)).
Qed.

(** ** Validation *)

Lemma quiet_refl w : quiet w w.
Proof. by repeat split. Qed.

Lemma quiet_say line w : quiet w (say line w).
Proof. by repeat split. Qed.

Lemma quiet_trans w1 w2 w3 : quiet w1 w2 -> quiet w2 w3 -> quiet w1 w3.
Proof.
  intros (?&?&?&?&?) (?&?&?&?&?). repeat split; congruence.
Qed.

Create HintDb quiet.
#[local] Hint Resolve quiet_refl quiet_say : quiet.

(** The pair that the code binds next. *)
Ltac next_pair w v E :=
  match goal with
  | |- (let '(_, _) := ?e in _) = _ -> _ => destruct e as [w v] eqn:E
  | |- (let '(_, _) := ?e in _) = _ => destruct e as [w v] eqn:E
  | |- context [match ?e with (_, _) => _ end] => destruct e as [w v] eqn:E
  end.

Section ValidationProperties.

Variable verboseFlag : bool.
Variable osStat : string -> StatResult.
Variable knownhostsNew : string -> Loaded HostKeyCallback.
Variable osReadFile : string -> Loaded (list byte).
Variable ParsePrivateKey : list byte -> option string -> Signer + string.
Variable Address_Validate :
  string -> string -> string -> bool -> bool -> Address ->
  Address * bool * list string.

Local Abbreviation Host_Validate' :=
  (Host_Validate verboseFlag osStat knownhostsNew osReadFile ParsePrivateKey
     Address_Validate).

Lemma load_known_hosts_inv h w valid w' valid' :
  load_known_hosts osStat knownhostsNew h w valid = Ok (w', valid') ->
  store w' = store w /\ Hosts w' = Hosts w /\ Tunnels w' = Tunnels w /\
  (∀ k f, hostKeysMap w !! k = Some f -> hostKeysMap w' !! k = Some f).
Proof.
  unfold load_known_hosts.
  destruct (hostKeysMap w !! KnownHosts h) eqn:Hk; [by intros [= <- <-]|].
  destruct (osStat (KnownHosts h)); [| done | |];
    [by intros [= <- <-]|by intros [= <- <-]|].
  destruct (knownhostsNew (KnownHosts h)); intros [= <- <-];
    repeat split; try done.
  intros k f Hf. cbn. rewrite lookup_insert_ne; [done|congruence].
Qed.


Lemma load_identity_inv h w valid w' h' valid' :
  load_identity osStat osReadFile ParsePrivateKey h w valid = Ok (w', h', valid') ->
  store w' = store w /\ Hosts w' = Hosts w /\ Tunnels w' = Tunnels w /\
  hostKeysMap w' = hostKeysMap w /\
  Host_Name h' = Host_Name h /\ JumpHost h' = JumpHost h /\
  KnownHosts h' = KnownHosts h /\ Host_Address h' = Host_Address h /\
  isHost h' = isHost h.
Proof.
  unfold load_identity.
  destruct (identityMap w !! Identity h); [by intros [= <- <- <-]|].
  destruct (osStat (Identity h)); [| done | |];
    [by intros [= <- <- <-]|by intros [= <- <- <-]|].
  destruct (osReadFile (Identity h)); try by intros [= <- <- <-].
  destruct (if bool_decide _ then _ else _); by intros [= <- <- <-].
Qed.


Lemma validate_at_inv group name attr remote flag l w w' ok :
  validate_at Address_Validate group name attr remote flag l w = (w', ok) ->
  Hosts w' = Hosts w /\ Tunnels w' = Tunnels w /\
  hostKeysMap w' = hostKeysMap w /\ identityMap w' = identityMap w /\
  length (store w') = length (store w) /\
  (∀ l', l' ≠ l -> store w' !! l' = store w !! l').
Proof.
  unfold validate_at. destruct (store w !! l) as [a|]; [|by intros [= <- <-]].
  destruct (Address_Validate _ _ _ _ _ a) as [[a' ok'] out].
  intros [= <- <-]. cbn. rewrite length_insert. repeat split; try done.
  intros l' Hl. by rewrite list_lookup_insert_ne.
Qed.

(** What a call of [Host.Validate] that returns has done. *)
Lemma Host_Validate_inv defaultUsername h w w' h' valid :
  Host_Validate' defaultUsername h w = Ok (w', h', valid) ->
  Host_Name h' = TrimSpace (Host_Name h) /\
  JumpHost h' = JumpHost h /\
  Hosts w' = <[Host_Name h' := h']> (Hosts w) /\
  Tunnels w' = Tunnels w /\
  (JumpHost h ≠ "" -> JumpHost h = TrimSpace (Host_Name h) -> valid = false) /\
  (∀ k f, hostKeysMap w !! k = Some f -> hostKeysMap w' !! k = Some f) /\
  (JumpHost h ≠ "" -> JumpHost h ≠ TrimSpace (Host_Name h) ->
     KnownHosts h' = "" /\
     ∃ cfg, config h' = Some cfg /\
            HostKeyCallback_of cfg = hostKeysMap w' !! "").
Proof.
  unfold Host_Validate. cbv zeta.
  destruct (if bool_decide (Host_Name _ = "") then _ else _) as [w1 v1] eqn:E1.
  assert (Q1 : quiet w w1)
    by (case_bool_decide; injection E1 as <- <-; auto with quiet).
  clear E1.
  destruct (match Hosts w1 !! _ with Some _ => _ | None => _ end)
    as [w2 v2] eqn:E2.
  assert (Q2 : quiet w w2).
  { eapply quiet_trans; [exact Q1|].
    destruct (Hosts w1 !! _); injection E2 as <- <-; auto with quiet. }
  clear E2 Q1.
  destruct (if bool_decide _ && verboseFlag then _ else _) as [w3 h3] eqn:E3.
  assert (Q3 : quiet w w3 /\ Host_Name h3 = TrimSpace (Host_Name h) /\
               JumpHost h3 = JumpHost h).
  { destruct (bool_decide _ && verboseFlag); injection E3 as <- <-;
      (split; [eapply quiet_trans; [exact Q2|]; auto with quiet|done]). }
  clear E3 Q2. destruct Q3 as (Q3 & Hn3 & Hj3).
  destruct (load_known_hosts _ _ _ w3 v2) as [[w4 v4]|] eqn:E4; [|done].
  apply load_known_hosts_inv in E4 as (Hs4 & Hh4 & Ht4 & Hk4).
  cbn [mbind Result_bind].
  destruct (if bool_decide (Identity _ = "") then _ else _) as [w5 v5] eqn:E5.
  assert (Q5 : quiet w4 w5)
    by (case_bool_decide; injection E5 as <- <-; auto with quiet).
  clear E5.
  destruct (load_identity _ _ _ _ w5 v5) as [[[w6 h6] v6]|] eqn:E6; [|done].
  apply load_identity_inv in E6 as (Hs6 & Hh6 & Ht6 & Hk6 & Hn6 & Hj6 & _).
  cbn [Host_Name JumpHost set_Identity set_KnownHosts] in Hn6, Hj6.
  cbn [mbind Result_bind].
  next_pair w7 v7 E7.
  assert (Q7 : Hosts w7 = Hosts w6 /\ Tunnels w7 = Tunnels w6 /\
               hostKeysMap w7 = hostKeysMap w6).
  { destruct (Host_Address h6) as [l|]; [|by injection E7 as <- <-].
    destruct (nil_or_blank w6 (Some l)); [by injection E7 as <- <-|].
    destruct (validate_at _ _ _ _ _ _ _ _) as [w7' ok] eqn:Ev.
    injection E7 as <- <-. apply validate_at_inv in Ev. tauto. }
  clear E7. destruct Q7 as (Hh7 & Ht7 & Hk7).
  destruct Q3 as (_ & Hh3 & Ht3 & Hk3 & _).
  destruct Q5 as (_ & Hh5 & Ht5 & Hk5 & _).
  assert (Hkeys : ∀ k f, hostKeysMap w !! k = Some f ->
                         hostKeysMap w7 !! k = Some f).
  { intros k f Hf. rewrite Hk7, Hk6, Hk5. apply Hk4. by rewrite Hk3. }
  assert (Hhosts : Hosts w7 = Hosts w) by congruence.
  assert (Htun : Tunnels w7 = Tunnels w) by congruence.
  clear Hh3 Ht3 Hk3 Hh4 Ht4 Hk4 Hs4 Hh5 Ht5 Hk5 Hs6 Hh6 Ht6 Hk6 Hh7 Ht7 Hk7.
  lazymatch goal with
  | |- match ?e with (_, _) => _ end = _ -> _ =>
      destruct e as [[w8 h8] v8] eqn:E8
  end.
  assert (Q8 : quiet w7 w8 /\ Host_Name h8 = Host_Name h6 /\
               JumpHost h8 = JumpHost h6 /\
               (JumpHost h6 ≠ "" -> JumpHost h6 = Host_Name h6 -> v8 = false) /\
               (JumpHost h6 ≠ "" -> JumpHost h6 ≠ Host_Name h6 ->
                  KnownHosts h8 = "")).
  { repeat case_bool_decide; injection E8 as <- <- <-;
      repeat split; auto with quiet; done. }
  clear E8. destruct Q8 as ((_ & Hh8 & Ht8 & Hk8 & _) & Hn8 & Hj8 & Hself & Hclear).
  rewrite Hj6, Hj3, Hn6, Hn3 in Hself, Hclear.
  intros [= <- <- <-].
  destruct (verboseFlag && v8);
    cbn [Host_Name JumpHost KnownHosts config set_config Hosts Tunnels
         hostKeysMap set_Hosts say HostKeyCallback_of];
    rewrite ?Hn8, ?Hj8, ?Hn6, ?Hn3, ?Hj6, ?Hj3, ?Hh8, ?Ht8, ?Hk8, ?Hhosts, ?Htun;
    split_and!; try done;
    intros Hne Hns; (split; [by apply Hclear|]);
    (eexists; split; [done|]); cbn [HostKeyCallback_of];
    by rewrite (Hclear Hne Hns).
Qed.



(** The callback under the empty path outlives the validation of hosts. *)
Lemma validate_hosts_keeps_keys defaultUsername hosts : ∀ w valid w' valid' k f,
  validate_hosts verboseFlag osStat knownhostsNew osReadFile ParsePrivateKey
    Address_Validate defaultUsername hosts w valid = Ok (w', valid') ->
  hostKeysMap w !! k = Some f -> hostKeysMap w' !! k = Some f.
Proof.
  induction hosts as [|h hosts IH]; intros w valid w' valid' k f.
  - by intros [= <- <-].
  - cbn [validate_hosts].
    destruct (Host_Validate' defaultUsername h w) as [[[w1 h1] ok]|] eqn:E; [|done].
    cbn [mbind Result_bind]. intros Hrest Hf.
    apply Host_Validate_inv in E as (_ & _ & _ & _ & _ & Hkeys & _).
    eapply IH; [exact Hrest|]. by apply Hkeys.
Qed.


Lemma calm_refl w : calm w w.
Proof. repeat split. exists []. by rewrite app_nil_r. Qed.

Lemma calm_say line w : calm w (say line w).
Proof. repeat split. by exists [line]. Qed.

Lemma calm_trans w1 w2 w3 : calm w1 w2 -> calm w2 w3 -> calm w1 w3.
Proof.
  intros (?&?&?&?&m1&Hm1) (?&?&?&?&m2&Hm2). repeat split; try congruence.
  exists (m1 ++ m2). by rewrite Hm2, Hm1, app_assoc.
Qed.

Lemma calm_validate_at group name attr remote flag l w w' ok :
  validate_at Address_Validate group name attr remote flag l w = (w', ok) ->
  calm w w'.
Proof.
  unfold validate_at. destruct (store w !! l) as [a|];
    [|intros [= <- <-]; apply calm_refl].
  destruct (Address_Validate _ _ _ _ _ a) as [[a' ok'] out].
  intros [= <- <-]. repeat split. by exists out.
Qed.

Lemma calm_new_address text w : calm w (new_address text w).1.
Proof. repeat split. exists []. cbn. by rewrite app_nil_r. Qed.

#[local] Hint Resolve calm_refl calm_say calm_new_address : quiet.

Local Abbreviation Tunnel_Validate' :=
  (Tunnel_Validate verboseFlag Address_Validate).

(** What [Tunnel.Validate] does to the registries, whatever the addresses. *)
Lemma Tunnel_Validate_inv t w w' t' valid :
  Tunnel_Validate' t w = (w', t', valid) ->
  Tunnel_Name t' = TrimSpace (Tunnel_Name t) /\
  Tunnel_Host t' = TrimSpace (Tunnel_Host t) /\
  Forward t' = Forward t /\
  Tunnels w' = <[Tunnel_Name t' := t']> (Tunnels w) /\
  hostKeysMap w' = hostKeysMap w /\
  (Hosts w' = Hosts w \/
   ∃ host, Hosts w !! Tunnel_Host t' = Some host /\
           Hosts w' = <[Tunnel_Host t' := set_isHost true host]> (Hosts w)) /\
  (∃ more, printed w' = printed w ++ more).
Proof.
  unfold Tunnel_Validate. cbv zeta.
  next_pair w1 v1 E1.
  assert (Q1 : calm w w1)
    by (case_bool_decide; injection E1 as <- <-; auto with quiet).
  clear E1. next_pair w2 v2 E2.
  assert (Q2 : calm w w2).
  { eapply calm_trans; [exact Q1|].
    destruct (Tunnels w1 !! _); injection E2 as <- <-; auto with quiet. }
  clear E2 Q1. next_pair w3 v3 E3.
  assert (Q3 : calm w w3).
  { eapply calm_trans; [exact Q2|].
    destruct (Forward _) as [l|]; [|injection E3 as <- <-; auto with quiet].
    destruct (nil_or_blank w2 (Some l)); [injection E3 as <- <-; auto with quiet|].
    destruct (validate_at _ _ _ _ _ _ _ _) as [w3' ok] eqn:Ev.
    injection E3 as <- <-. by eapply calm_validate_at. }
  clear E3 Q2. next_pair w4 t4 E4.
  assert (Q4 : calm w w4 /\ Tunnel_Name t4 = TrimSpace (Tunnel_Name t) /\
               Tunnel_Host t4 = Tunnel_Host t /\ Forward t4 = Forward t).
  { destruct (forward_valid w3 _) as [p|]; [|by injection E4 as <- <-].
    destruct (nil_or_blank w3 _); [|by injection E4 as <- <-].
    injection E4 as <- <-. split; [|done].
    eapply calm_trans; [exact Q3|].
    eapply calm_trans; [apply calm_say|apply (calm_new_address _ (say _ w3))]. }
  clear E4 Q3. destruct Q4 as (Q4 & Hn4 & Hh4 & Hf4). next_pair w5 v5 E5.
  assert (Q5 : calm w w5).
  { eapply calm_trans; [exact Q4|].
    destruct (Local t4) as [l|]; [|injection E5 as <- <-; auto with quiet].
    destruct (nil_or_blank w4 (Some l)); [injection E5 as <- <-; auto with quiet|].
    destruct (validate_at _ _ _ _ _ _ _ _) as [w5' ok] eqn:Ev.
    injection E5 as <- <-. by eapply calm_validate_at. }
  clear E5 Q4. next_pair w6 v6 E6.
  intros [= <- <- <-].
  cbn [Tunnel_Name Tunnel_Host Forward set_Tunnel_Host set_Tunnels Tunnels
       hostKeysMap Hosts printed] in *.
  destruct Q5 as (Hh5 & Ht5 & Hk5 & _ & more & Hp5).
  assert (Q6 : hostKeysMap w6 = hostKeysMap w5 /\ Tunnels w6 = Tunnels w5 /\
               (∃ more, printed w6 = printed w5 ++ more) /\
               (Hosts w6 = Hosts w5 \/
                ∃ host, Hosts w5 !! TrimSpace (Tunnel_Host t4) = Some host /\
                  Hosts w6 = <[TrimSpace (Tunnel_Host t4) := set_isHost true host]>
                               (Hosts w5))).
  { case_bool_decide.
    - injection E6 as <- <-. split_and!; try done; [by eexists [_]|by left].
    - destruct (Hosts w5 !! _) as [host|] eqn:Hhost; injection E6 as <- <-.
      + split_and!; try done; [exists []; by rewrite app_nil_r|].
        right. by exists host.
      + split_and!; try done; [by eexists [_]|by left]. }
  clear E6. destruct Q6 as (Hk6 & Ht6 & (more6 & Hp6) & Hh6).
  assert (Hfinal : ∀ wv, calm w6 wv ->
     Tunnels (set_Tunnels (<[Tunnel_Name t4 := set_Tunnel_Host (TrimSpace (Tunnel_Host t4)) t4]> (Tunnels wv)) wv)
     = <[Tunnel_Name t4 := set_Tunnel_Host (TrimSpace (Tunnel_Host t4)) t4]> (Tunnels w) /\
     hostKeysMap wv = hostKeysMap w /\
     (Hosts wv = Hosts w \/
      ∃ host, Hosts w !! TrimSpace (Tunnel_Host t4) = Some host /\
              Hosts wv = <[TrimSpace (Tunnel_Host t4) := set_isHost true host]> (Hosts w)) /\
     (∃ more, printed wv = printed w ++ more)).
  { intros wv (Hhv & Htv & Hkv & _ & morev & Hpv). split_and!.
    - cbn. congruence.
    - congruence.
    - rewrite Hhv, <- Hh5. exact Hh6.
    - exists (more ++ more6 ++ morev). rewrite Hpv, Hp6, Hp5.
      by rewrite !app_assoc. }
  rewrite Hn4, Hh4, Hf4 in *.
  destruct (verboseFlag && v6).
  - match goal with
    | |- context [say ?line w6] =>
        destruct (Hfinal _ (calm_say line w6)) as (? & ? & ? & ?)
    end.
    split_and!; done.
  - destruct (Hfinal _ (calm_refl w6)) as (? & ? & ? & ?).
    split_and!; done.
Qed.

Lemma validate_at_found group name attr remote flag l w a :
  store w !! l = Some a ->
  ∃ w', validate_at Address_Validate group name attr remote flag l w
        = (w', (Address_Validate group name attr remote flag a).1.2) /\
    store w' !! l = Some (Address_Validate group name attr remote flag a).1.1 /\
    length (store w') = length (store w) /\
    (∀ l', l' ≠ l -> store w' !! l' = store w !! l') /\
    calm w w'.
Proof.
  intros Ha. unfold validate_at. rewrite Ha.
  destruct (Address_Validate _ _ _ _ _ a) as [[a' ok] out] eqn:E.
  eexists. split; [done|]. cbn.
  assert (l < length (store w))%nat by (by eapply lookup_lt_Some).
  split_and!.
  - by rewrite list_lookup_insert_eq.
  - by rewrite length_insert.
  - intros l' Hl. by rewrite list_lookup_insert_ne.
  - repeat split. by exists out.
Qed.

Lemma nil_or_blank_filled w l a :
  store w !! l = Some a -> address a ≠ "" -> nil_or_blank w (Some l) = false.
Proof.
  intros Ha Hne. unfold nil_or_blank, IsBlank. rewrite Ha.
  by apply bool_decide_eq_false_2.
Qed.

(** [Tunnel.Validate] on a tunnel that has a local address, an object of its
    own: the tunnel keeps it, and it is validated in place. *)
Lemma Tunnel_Validate_local_given t w l a :
  Local t = Some l -> store w !! l = Some a -> address a ≠ "" ->
  Forward t ≠ Some l ->
  ∃ w' t' valid, Tunnel_Validate' t w = (w', t', valid) /\
    Local t' = Some l /\
    store w' !! l
    = Some (Address_Validate "tunnel" (TrimSpace (Tunnel_Name t))
              "local address" true false a).1.1 /\
    length (store w') = length (store w).
Proof.
  intros Hloc Ha Hne Hfwd. unfold Tunnel_Validate. cbv zeta.
  next_pair w1 v1 E1.
  assert (Q1 : quiet w w1)
    by (case_bool_decide; injection E1 as <- <-; auto with quiet).
  clear E1. next_pair w2 v2 E2.
  assert (Q2 : quiet w w2).
  { eapply quiet_trans; [exact Q1|].
    destruct (Tunnels w1 !! _); injection E2 as <- <-; auto with quiet. }
  clear E2 Q1. destruct Q2 as (Hs2 & _).
  next_pair w3 v3 E3.
  assert (Q3 : store w3 !! l = Some a /\ length (store w3) = length (store w)).
  { cbn [Forward set_Tunnel_Name] in E3.
    destruct (Forward t) as [lf|]; [|injection E3 as <- <-; cbn; by rewrite Hs2].
    destruct (nil_or_blank w2 (Some lf));
      [injection E3 as <- <-; cbn; by rewrite Hs2|].
    destruct (validate_at _ _ _ _ _ _ _ _) as [w3' ok] eqn:Ev.
    injection E3 as <- <-. apply validate_at_inv in Ev as (_&_&_&_&Hl&Hs).
    rewrite Hl, Hs, Hs2; [done|congruence]. }
  clear E3 Hs2. destruct Q3 as (Ha3 & Hl3).
  assert (Hnb : nil_or_blank w3 (Some l) = false)
    by (by eapply nil_or_blank_filled).
  next_pair w4 t4 E4.
  assert (Q4 : w4 = w3 /\ Local t4 = Some l /\
               Tunnel_Name t4 = TrimSpace (Tunnel_Name t)).
  { destruct (forward_valid w3 _) as [p|]; [|by injection E4 as <- <-].
    cbn [Local set_Tunnel_Name] in E4. rewrite Hloc, Hnb in E4.
    by injection E4 as <- <-. }
  clear E4. destruct Q4 as (-> & Hloc4 & Hn4).
  next_pair w5 v5 E5. rewrite Hloc4, Hnb, Hn4 in E5.
  destruct (validate_at_found "tunnel" (TrimSpace (Tunnel_Name t))
              "local address" true false l w3 a Ha3)
    as (w5' & Ev & Ha5 & Hl5 & _).
  rewrite Ev in E5. injection E5 as <- <-.
  next_pair w6 v6 E6.
  assert (Q6 : store w6 = store w5').
  { case_bool_decide; [by injection E6 as <- <-|].
    destruct (Hosts w5' !! _); by injection E6 as <- <-. }
  clear E6. eexists _, _, _. split; [done|].
  cbn [Local set_Tunnel_Host]. split; [done|].
  destruct (verboseFlag && v6); cbn [store set_Tunnels say];
    rewrite Q6, Ha5, Hl5, Hl3; done.
Qed.

(** C7 (amended): [Tunnel.Validate] on a tunnel whose local address is nil
    or blank and whose forward address comes out of its validation valid:
    the local address of the tunnel is a new address, made of 127.0.0.1 and
    the port of the forward address and then validated, and the tunnel is
    registered with it. *)
Theorem Tunnel_Validate_default_local t w lf a :
  nil_or_blank w (Local t) = true ->
  Forward t = Some lf -> store w !! lf = Some a -> address a ≠ "" ->
  let forward :=
    (Address_Validate "tunnel" (TrimSpace (Tunnel_Name t)) "forward address"
       true false a).1.1 in
  valid forward = true ->
  ∃ w' t' ok, Tunnel_Validate' t w = (w', t', ok) /\
    Local t' = Some (length (store w)) /\
    store w' !! length (store w)
    = Some (Address_Validate "tunnel" (TrimSpace (Tunnel_Name t))
              "local address" true false
              (NewAddress ("127.0.0.1:" +:+ itoa (port forward)))).1.1 /\
    store w' !! lf = Some forward /\
    Tunnels w' !! TrimSpace (Tunnel_Name t) = Some t'.
Proof.
  intros Hblank Hfwd Ha Hne forward Hvalid. unfold Tunnel_Validate. cbv zeta.
  next_pair w1 v1 E1.
  assert (Q1 : quiet w w1)
    by (case_bool_decide; injection E1 as <- <-; auto with quiet).
  clear E1. next_pair w2 v2 E2.
  assert (Q2 : quiet w w2).
  { eapply quiet_trans; [exact Q1|].
    destruct (Tunnels w1 !! _); injection E2 as <- <-; auto with quiet. }
  clear E2 Q1. destruct Q2 as (Hs2 & _).
  next_pair w3 v3 E3.
  cbn [Forward set_Tunnel_Name Tunnel_Name] in E3. rewrite Hfwd in E3.
  rewrite (nil_or_blank_filled w2 lf a) in E3 by (by rewrite ?Hs2).
  destruct (validate_at_found "tunnel" (TrimSpace (Tunnel_Name t))
              "forward address" true false lf w2 a)
    as (w3' & Ev & Ha3 & Hl3 & Hs3 & _); [by rewrite Hs2|].
  rewrite Ev in E3. injection E3 as <- _. fold forward in Ha3.
  rewrite Hs2 in Hl3, Hs3.
  assert (Hblank3 : nil_or_blank w3' (Local t) = true).
  { unfold nil_or_blank in *. destruct (Local t) as [l|]; [|done].
    destruct (decide (l = lf)) as [->|Hl].
    - rewrite Ha in Hblank. unfold IsBlank in Hblank.
      by apply bool_decide_eq_true in Hblank.
    - by rewrite Hs3. }
  next_pair w4 t4 E4.
  unfold forward_valid in E4. cbn [Forward set_Tunnel_Name Local] in E4.
  rewrite Hfwd in E4. cbn [mbind option_bind] in E4. rewrite Ha3 in E4.
  cbn [mbind option_bind] in E4. unfold IsValid, Port in E4.
  rewrite Hvalid, Hblank3 in E4. cbn [new_address] in E4.
  injection E4 as <- <-.
  next_pair w5 v5 E5. cbn [Local set_Local store set_store say] in E5.
  set (fresh := NewAddress ("127.0.0.1:" +:+ itoa (port forward))) in *.
  set (w4 := set_store _ _) in *.
  assert (Hfresh : store w4 !! length (store w3') = Some fresh).
  { unfold w4. cbn. by rewrite lookup_app_r, Nat.sub_diag. }
  assert (Hlf4 : store w4 !! lf = Some forward).
  { unfold w4. cbn. rewrite lookup_app_l; [done|]. by eapply lookup_lt_Some. }
  rewrite (nil_or_blank_filled w4 _ fresh) in E5 by done.
  destruct (validate_at_found "tunnel" (TrimSpace (Tunnel_Name t))
              "local address" true false (length (store w3')) w4 fresh Hfresh)
    as (w5' & Ev5 & Ha5 & Hl5 & Hs5 & _).
  cbn [Tunnel_Name set_Local set_Tunnel_Name] in E5. rewrite Ev5 in E5.
  injection E5 as <- <-.
  assert (Hlf5 : store w5' !! lf = Some forward).
  { rewrite Hs5; [done|]. apply lookup_lt_Some in Ha3. lia. }
  next_pair w6 v6 E6.
  assert (Q6 : store w6 = store w5').
  { case_bool_decide; [by injection E6 as <- <-|].
    destruct (Hosts w5' !! _); by injection E6 as <- <-. }
  clear E6. eexists _, _, _. split; [done|].
  cbn [Local set_Tunnel_Host set_Local]. rewrite <- Hl3. split; [done|].
  destruct (verboseFlag && v6);
    cbn [store set_Tunnels say Tunnels Tunnel_Name set_Tunnel_Host set_Local
         set_Tunnel_Name];
    rewrite Q6; (split_and!; [done|done|by rewrite lookup_insert_eq]).
Qed.

(** *** Trimmed names *)

Section TrimRunesProperties.

Variable two : ascii -> ascii -> bool.
Variable three : ascii -> ascii -> ascii -> bool.

Lemma trim_runes_spec n : ∀ l, (length l <= n)%nat ->
  starts_space two three (trim_runes two three l) = false /\
  ∃ p, l = p ++ trim_runes two three l.
Proof.
  induction n as [|n IH]; intros l Hl.
  - destruct l; [|cbn in Hl; lia]. split; [done|by exists []].
  - destruct l as [|a r1]; [split; [done|by exists []]|].
    cbn [trim_runes]. cbn [length] in Hl.
    destruct (is_space a) eqn:Ea.
    { destruct (IH r1) as [H1 [p Hp]]; [lia|]. split; [done|].
      exists (a :: p). by rewrite <- app_comm_cons, <- Hp. }
    destruct r1 as [|b r2].
    { split; [cbn; by rewrite Ea|by exists []]. }
    cbn [length] in Hl. destruct (two a b) eqn:Eb.
    { destruct (IH r2) as [H1 [p Hp]]; [lia|]. split; [done|].
      exists (a :: b :: p). by rewrite <- !app_comm_cons, <- Hp. }
    destruct r2 as [|c r3].
    { split; [cbn; by rewrite Ea, Eb|by exists []]. }
    cbn [length] in Hl. destruct (three a b c) eqn:Ec.
    { destruct (IH r3) as [H1 [p Hp]]; [lia|]. split; [done|].
      exists (a :: b :: c :: p). by rewrite <- !app_comm_cons, <- Hp. }
    split; [cbn; by rewrite Ea, Eb, Ec|by exists []].
Qed.

Lemma trim_runes_trimmed l :
  starts_space two three (trim_runes two three l) = false.
Proof. by apply (trim_runes_spec (length l)). Qed.

Lemma trim_runes_suffix l : ∃ p, l = p ++ trim_runes two three l.
Proof. by apply (trim_runes_spec (length l)). Qed.

Lemma trim_runes_id l :
  starts_space two three l = false -> trim_runes two three l = l.
Proof.
  destruct l as [|a [|b [|c r]]]; cbn; [done|..].
  - by destruct (is_space a).
  - destruct (is_space a); [done|]. by destruct (two a b).
  - destruct (is_space a); [done|]. destruct (two a b); [done|].
    by destruct (three a b c).
Qed.

Lemma trim_runes_idemp l :
  trim_runes two three (trim_runes two three l) = trim_runes two three l.
Proof. apply trim_runes_id, trim_runes_trimmed. Qed.

Lemma starts_space_app l x :
  starts_space two three l = true -> starts_space two three (l ++ x) = true.
Proof.
  destruct l as [|a [|b [|c r]]]; cbn; [done|..].
  - destruct (is_space a); [done|]. done.
  - destruct (is_space a); [done|]. destruct (two a b); [done|]. done.
  - done.
Qed.

Lemma starts_space_prefix l x :
  starts_space two three (l ++ x) = false -> starts_space two three l = false.
Proof.
  intros H. destruct (starts_space two three l) eqn:E; [|done].
  by rewrite (starts_space_app l x E) in H.
Qed.

End TrimRunesProperties.

Lemma list_ascii_of_string_app a b :
  list_ascii_of_string (a +:+ b)
  = list_ascii_of_string a ++ list_ascii_of_string b.
Proof.
  induction a as [|c a IH]; [done|].
  change (String c a +:+ b) with (String c (a +:+ b)). cbn. by rewrite IH.
Qed.

Lemma TrimSpace_trimmed s :
  starts_space is_space2 is_space3 (list_ascii_of_string (TrimSpace s)) = false.
Proof.
  unfold TrimSpace, trim_right, trim_left.
  rewrite !list_ascii_of_string_of_list_ascii.
  set (A := trim_runes is_space2 is_space3 (list_ascii_of_string s)).
  destruct (trim_runes_suffix (λ b a, is_space2 a b) (λ c b a, is_space3 a b c)
              (rev A)) as [p Hp].
  apply (starts_space_prefix _ _ _ (rev p)).
  rewrite <- rev_app_distr, <- Hp, rev_involutive. apply trim_runes_trimmed.
Qed.

(** [strings.TrimSpace] of a trimmed text gives the text. *)
Lemma TrimSpace_idemp s : TrimSpace (TrimSpace s) = TrimSpace s.
Proof.
  pose proof (TrimSpace_trimmed s) as Hl.
  unfold TrimSpace at 1. unfold trim_left at 1.
  rewrite (trim_runes_id _ _ _ Hl), string_of_list_ascii_of_string.
  unfold TrimSpace, trim_right.
  rewrite list_ascii_of_string_of_list_ascii, rev_involutive.
  by rewrite trim_runes_idemp.
Qed.

Lemma TrimSpace_jumphost s :
  TrimSpace s = s -> s ≠ "" ->
  TrimSpace (s +:+ " jumphost") = s +:+ " jumphost".
Proof.
  intros Ht Hne. pose proof (TrimSpace_trimmed s) as Hl. rewrite Ht in Hl.
  unfold TrimSpace, trim_left. rewrite list_ascii_of_string_app.
  assert (Hs : starts_space is_space2 is_space3
                 (list_ascii_of_string s ++ list_ascii_of_string " jumphost")
               = false).
  { destruct s as [|a [|b [|c r]]]; [done|..]; cbn in Hl |- *.
    - apply orb_false_iff in Hl as [-> _]. cbn.
      unfold is_space2, is_space3.
      by destruct (byte_is a 194), (byte_is a 225), (byte_is a 226),
        (byte_is a 227).
    - apply orb_false_iff in Hl as [-> Hl].
      apply orb_false_iff in Hl as [-> _]. cbn.
      unfold is_space3.
      by destruct (byte_is a 225), (byte_is a 226), (byte_is a 227),
        (byte_is b 154), (byte_is b 128), (byte_is b 129).
    - done. }
  rewrite (trim_runes_id _ _ _ Hs). unfold trim_right.
  rewrite list_ascii_of_string_of_list_ascii, rev_app_distr.
  rewrite trim_runes_id by done.
  rewrite <- rev_app_distr, rev_involutive, <- list_ascii_of_string_app.
  apply string_of_list_ascii_of_string.
Qed.

(** *** The registries *)

Lemma hosts_kept_refl w : hosts_kept w w.
Proof. intros k h Hk. by exists h. Qed.

Lemma hosts_kept_trans w1 w2 w3 :
  hosts_kept w1 w2 -> hosts_kept w2 w3 -> hosts_kept w1 w3.
Proof.
  intros H12 H23 k h Hk.
  destruct (H12 k h Hk) as (h2 & Hk2 & Hn2 & Hj2 & Hi2).
  destruct (H23 k h2 Hk2) as (h3 & Hk3 & Hn3 & Hj3 & Hi3).
  exists h3. split_and!; [done|congruence|congruence|auto].
Qed.

Lemma hosts_kept_same w w' : Hosts w' = Hosts w -> hosts_kept w w'.
Proof. intros E k h Hk. exists h. by rewrite E. Qed.

Lemma hosts_kept_Tunnel_Validate t w w' t' valid :
  Tunnel_Validate' t w = (w', t', valid) -> hosts_kept w w'.
Proof.
  intros E. apply Tunnel_Validate_inv in E as (_&_&_&_&_&[Hh|(host&Hhost&Hh)]&_).
  - by apply hosts_kept_same.
  - intros k h Hk. rewrite Hh. destruct (decide (Tunnel_Host t' = k)) as [<-|Hne].
    + rewrite lookup_insert_eq. eexists. split; [done|].
      rewrite Hhost in Hk. by injection Hk as <-.
    + rewrite lookup_insert_ne by done. by exists h.
Qed.

Lemma hosts_kept_point_host_at k p w : hosts_kept w (point_host_at k p w).
Proof.
  intros k' h Hk'. unfold point_host_at. cbn.
  destruct (decide (k = k')) as [<-|Hne].
  - rewrite lookup_alter_eq, Hk'. by eexists.
  - rewrite lookup_alter_ne by done. by exists h.
Qed.

Lemma registry_ok_start addresses : registry_ok (world_start addresses).
Proof. intros k h Hk. cbn in Hk. by rewrite lookup_empty in Hk. Qed.

Lemma registry_ok_same w w' : Hosts w' = Hosts w -> registry_ok w -> registry_ok w'.
Proof. intros E H k h Hk. apply H. by rewrite <- E. Qed.

Lemma registry_ok_Host_Validate defaultUsername h w w' h' valid :
  Host_Validate' defaultUsername h w = Ok (w', h', valid) ->
  registry_ok w -> registry_ok w'.
Proof.
  intros E Hok. apply Host_Validate_inv in E as (Hn & _ & Hh & _).
  intros k hk. rewrite Hh. destruct (decide (Host_Name h' = k)) as [<-|Hne].
  - rewrite lookup_insert_eq. intros [= <-]. split; [done|].
    rewrite Hn. apply TrimSpace_idemp.
  - rewrite lookup_insert_ne by done. apply Hok.
Qed.

Lemma registry_ok_Tunnel_Validate t w w' t' valid :
  Tunnel_Validate' t w = (w', t', valid) -> registry_ok w -> registry_ok w'.
Proof.
  intros E Hok. apply Tunnel_Validate_inv in E as (_&_&_&_&_&[Hh|(host&Hhost&Hh)]&_).
  - by eapply registry_ok_same.
  - intros k h. rewrite Hh. destruct (decide (Tunnel_Host t' = k)) as [<-|Hne].
    + rewrite lookup_insert_eq. intros [= <-]. by apply Hok in Hhost.
    + rewrite lookup_insert_ne by done. apply Hok.
Qed.

Lemma registry_ok_point_host_at k p w :
  registry_ok w -> registry_ok (point_host_at k p w).
Proof.
  intros Hok k' h. unfold point_host_at. cbn.
  destruct (decide (k = k')) as [<-|Hne].
  - rewrite lookup_alter_eq. destruct (Hosts w !! k) as [h0|] eqn:E; [|done].
    intros [= <-]. by apply Hok in E.
  - rewrite lookup_alter_ne by done. apply Hok.
Qed.

Variable freePort : nat -> option Z.

Local Abbreviation jump_host_step' :=
  (jump_host_step verboseFlag Address_Validate freePort).
Local Abbreviation jump_hosts_loop' :=
  (jump_hosts_loop verboseFlag Address_Validate freePort).
Local Abbreviation validateJumpHosts' :=
  (validateJumpHosts verboseFlag Address_Validate freePort).

Lemma set_isHost_id h : isHost h = true -> set_isHost true h = h.
Proof. destruct h. cbn. by intros ->. Qed.

(** One turn of the loop of the resolver, for a host [h] that is the host
    of a tunnel, with a jump host that is registered and has no jump host
    itself, a free port found: the turn registers a tunnel named after the
    jump host, "<name> jumphost", through the jump host, whose forward
    address is the address of [h] and whose local address is a new one,
    made of 127.0.0.1 and the free port and validated; the address of [h]
    is then this local address, and it is what [Host.Open] dials. *)
Lemma jump_host_step_fronts k w listeners valid h jumpHost port :
  registry_ok w ->
  Hosts w !! k = Some h ->
  JumpHost h ≠ "" ->
  isHost h = true ->
  Hosts w !! JumpHost h = Some jumpHost ->
  JumpHost jumpHost = "" ->
  freePort listeners = Some port ->
  (∀ l, Host_Address h = Some l -> is_Some (store w !! l)) ->
  let name := Host_Name jumpHost +:+ " jumphost" in
  let place := length (store w) in
  let loopback :=
    (Address_Validate "tunnel" name "local address" true false
       (NewAddress ("127.0.0.1:" +:+ itoa port))).1.1 in
  ∃ w' t,
    jump_host_step' k w listeners valid = JumpNext w' (S listeners) valid /\
    Tunnels w' !! name = Some t /\
    Tunnel_Name t = name /\
    Tunnel_Host t = JumpHost h /\
    Forward t = Host_Address h /\
    Local t = Some place /\
    store w' !! place = Some loopback /\
    Hosts w' !! k = Some (set_Host_Address (Local t) h) /\
    ∀ sshDial,
      client h = None ->
      Host_Open sshDial w' (set_Host_Address (Local t) h)
      = match sshDial (address loopback) (config h) with
        | inl c => Ok (set_client (Some c) (set_Host_Address (Local t) h), true, [])
        | inr err =>
            Ok (set_client None (set_Host_Address (Local t) h), false,
                ["  Error - failed to connect to remote address: " +:+ err])
        end.
Proof.
  intros Hreg Hk Hjump Hhost Hjh Hnochain Hport Halloc name place loopback.
  destruct (Hreg _ _ Hjh) as [Hjname Hjtrim].
  assert (Hname : TrimSpace name = name).
  { unfold name. rewrite Hjname. by apply TrimSpace_jumphost. }
  unfold jump_host_step. rewrite Hk.
  rewrite bool_decide_eq_true_2 by done. rewrite Hhost. cbn [andb].
  rewrite Hjh. rewrite bool_decide_eq_false_2 by (intros Hn; apply Hn, Hnochain).
  rewrite Hport. cbn [new_address].
  set (text := "127.0.0.1:" +:+ itoa port). fold place.
  set (w1 := set_store (store w ++ [NewAddress text]) w).
  destruct (Tunnel_Validate_local_given (jumpTunnel_for h jumpHost place) w1
              place (NewAddress text))
    as (w2 & t2 & v2 & E & Hloc & Hst & Hlen).
  { done. }
  { unfold w1, place. cbn. by rewrite lookup_app_r, Nat.sub_diag. }
  { done. }
  { cbn. intros Hf. destruct (Halloc _ Hf) as [a Ha].
    apply lookup_lt_Some in Ha. unfold place in Ha. lia. }
  rewrite E.
  pose proof (Tunnel_Validate_inv _ _ _ _ _ E)
    as (Hn2 & Hh2 & Hf2 & Ht2 & _ & Hhosts2 & _).
  cbn [jumpTunnel_for Tunnel_Name Tunnel_Host Forward] in Hn2, Hh2, Hf2, Hst.
  fold name in Hn2, Hst. rewrite Hname in Hn2, Hst.
  rewrite Hjtrim in Hh2.
  assert (Hk2 : Hosts w2 !! k = Some h).
  { destruct Hhosts2 as [->|(host & Hhost2 & ->)]; [done|].
    rewrite Hh2 in *. cbn [Hosts w1 set_store] in Hhost2.
    destruct (decide (JumpHost h = k)) as [Heq|Hne].
    - rewrite Heq in *. rewrite lookup_insert_eq.
      rewrite Hk in Hhost2. injection Hhost2 as <-. by rewrite set_isHost_id.
    - by rewrite lookup_insert_ne. }
  exists (point_host_at k (Local t2) w2), t2.
  split_and!; try done.
  - cbn. by rewrite Ht2, Hn2, lookup_insert_eq.
  - cbn. by rewrite lookup_alter_eq, Hk2.
  - intros sshDial Hclient. unfold Host_Open.
    cbn [client set_Host_Address Host_Address]. rewrite Hclient, Hloc.
    cbn [mbind option_bind point_host_at store set_Hosts]. rewrite Hst.
    cbn [mbind option_bind config]. by destruct (sshDial _ _).
Qed.

(** *** The loop of [validateJumpHosts] *)

Lemma jump_host_step_next k w listeners valid w1 listeners1 valid1 :
  jump_host_step' k w listeners valid = JumpNext w1 listeners1 valid1 ->
  hosts_kept w w1 /\ (∃ more, printed w1 = printed w ++ more) /\
  (valid = false -> valid1 = false).
Proof.
  unfold jump_host_step.
  destruct (Hosts w !! k) as [h|];
    [|intros [= <- <- <-]; split_and!;
      [apply hosts_kept_refl|exists []; by rewrite app_nil_r|done]].
  destruct (bool_decide (JumpHost h ≠ "") && isHost h);
    [|intros [= <- <- <-]; split_and!;
      [apply hosts_kept_refl|exists []; by rewrite app_nil_r|done]].
  destruct (Hosts w !! JumpHost h) as [jumpHost|];
    [|intros [= <- <- <-]; split_and!;
      [by apply hosts_kept_same|by eexists [_]|done]].
  case_bool_decide;
    [intros [= <- <- <-]; split_and!;
      [by apply hosts_kept_same|by eexists [_]|done]|].
  destruct (freePort listeners) as [port|]; [|done].
  cbn [new_address].
  destruct (Tunnel_Validate' _ _) as [[w2 t2] v2] eqn:E.
  intros [= <- <- <-].
  pose proof (hosts_kept_Tunnel_Validate _ _ _ _ _ E) as Hkept.
  apply Tunnel_Validate_inv in E as (_&_&_&_&_&_&more&Hmore).
  split_and!; [|by exists more|done].
  eapply hosts_kept_trans; [|apply hosts_kept_point_host_at].
  eapply hosts_kept_trans; [|exact Hkept]. by apply hosts_kept_same.
Qed.

Lemma jump_host_step_break k w listeners valid w1 valid1 :
  jump_host_step' k w listeners valid = JumpBreak w1 valid1 ->
  valid1 = false /\ freePort listeners = None.
Proof.
  unfold jump_host_step.
  destruct (Hosts w !! k) as [h|]; [|done].
  destruct (bool_decide (JumpHost h ≠ "") && isHost h); [|done].
  destruct (Hosts w !! JumpHost h) as [jumpHost|]; [|done].
  case_bool_decide; [done|].
  destruct (freePort listeners) as [port|]; [|by intros [= <- <-]].
  cbn [new_address]. by destruct (Tunnel_Validate' _ _) as [[w2 t2] v2].
Qed.



Lemma jump_hosts_loop_false order : ∀ w listeners,
  (jump_hosts_loop' order w listeners false).2 = false.
Proof.
  induction order as [|k order IH]; intros w listeners; [done|].
  cbn [jump_hosts_loop].
  destruct (jump_host_step' k w listeners false) as [w1 n1 v1|w1 v1] eqn:E.
  - apply jump_host_step_next in E as (_ & _ & Hv). by rewrite Hv.
  - by apply jump_host_step_break in E as [-> _].
Qed.


(** *** The resolver, from the first host to the last *)

(** [Tunnel.Validate] on a tunnel that has a local address, an object of
    its own: in the store, only the forward and the local address can
    change. *)
Lemma Tunnel_Validate_local_frame t w l a w' t' valid :
  Local t = Some l -> store w !! l = Some a -> address a ≠ "" ->
  Forward t ≠ Some l ->
  Tunnel_Validate' t w = (w', t', valid) ->
  ∀ l', l' ≠ l -> Forward t ≠ Some l' -> store w' !! l' = store w !! l'.
Proof.
  intros Hloc Ha Hne Hfwd. unfold Tunnel_Validate. cbv zeta.
  next_pair w1 v1 E1.
  assert (Q1 : quiet w w1)
    by (case_bool_decide; injection E1 as <- <-; auto with quiet).
  clear E1. next_pair w2 v2 E2.
  assert (Q2 : quiet w w2).
  { eapply quiet_trans; [exact Q1|].
    destruct (Tunnels w1 !! _); injection E2 as <- <-; auto with quiet. }
  clear E2 Q1. destruct Q2 as (Hs2 & _).
  next_pair w3 v3 E3.
  assert (Q3 : store w3 !! l = Some a /\
               ∀ l', Forward t ≠ Some l' -> store w3 !! l' = store w !! l').
  { cbn [Forward set_Tunnel_Name] in E3.
    destruct (Forward t) as [lf|];
      [|injection E3 as <- <-; cbn; by rewrite Hs2].
    destruct (nil_or_blank w2 (Some lf));
      [injection E3 as <- <-; cbn; by rewrite Hs2|].
    destruct (validate_at _ _ _ _ _ _ _ _) as [w3' ok] eqn:Ev.
    injection E3 as <- <-. apply validate_at_inv in Ev as (_&_&_&_&_&Hs).
    split.
    - rewrite Hs, Hs2; [done|congruence].
    - intros l' Hl'. rewrite Hs, Hs2; [done|congruence]. }
  clear E3 Hs2. destruct Q3 as (Ha3 & Hf3).
  assert (Hnb : nil_or_blank w3 (Some l) = false)
    by (by eapply nil_or_blank_filled).
  next_pair w4 t4 E4.
  assert (Q4 : w4 = w3 /\ Local t4 = Some l /\
               Tunnel_Name t4 = TrimSpace (Tunnel_Name t)).
  { destruct (forward_valid w3 _) as [p|]; [|by injection E4 as <- <-].
    cbn [Local set_Tunnel_Name] in E4. rewrite Hloc, Hnb in E4.
    by injection E4 as <- <-. }
  clear E4. destruct Q4 as (-> & Hloc4 & Hn4).
  next_pair w5 v5 E5. rewrite Hloc4, Hnb, Hn4 in E5.
  destruct (validate_at_found "tunnel" (TrimSpace (Tunnel_Name t))
              "local address" true false l w3 a Ha3)
    as (w5' & Ev & _ & _ & Hs5 & _).
  rewrite Ev in E5. injection E5 as <- <-.
  next_pair w6 v6 E6.
  assert (Q6 : store w6 = store w5').
  { case_bool_decide; [by injection E6 as <- <-|].
    destruct (Hosts w5' !! _); by injection E6 as <- <-. }
  clear E6. intros [= <- _ _] l' Hl' Hf'.
  destruct (verboseFlag && v6); cbn [store set_Tunnels say];
    rewrite Q6, Hs5, Hf3; done.
Qed.

Lemma list_ascii_of_string_inj a b :
  list_ascii_of_string a = list_ascii_of_string b -> a = b.
Proof.
  intros H. rewrite <- (string_of_list_ascii_of_string a),
    <- (string_of_list_ascii_of_string b). by rewrite H.
Qed.

(** Two names with the same ending are the same text before it. *)
Lemma append_inj_r a b c : a +:+ c = b +:+ c -> a = b.
Proof.
  intros H. apply list_ascii_of_string_inj.
  apply (f_equal list_ascii_of_string) in H.
  rewrite !list_ascii_of_string_app in H. by apply app_inv_tail in H.
Qed.

Lemma jump_host_step_break_same k w listeners valid w1 valid1 :
  jump_host_step' k w listeners valid = JumpBreak w1 valid1 -> w1 = w.
Proof.
  unfold jump_host_step.
  destruct (Hosts w !! k) as [h|]; [|done].
  destruct (bool_decide (JumpHost h ≠ "") && isHost h); [|done].
  destruct (Hosts w !! JumpHost h) as [jumpHost|]; [|done].
  case_bool_decide; [done|].
  destruct (freePort listeners) as [port|]; [|by intros [= <- <-]].
  cbn [new_address]. by destruct (Tunnel_Validate' _ _) as [[w2 t2] v2].
Qed.

(** A turn of the loop that goes on: it has changed neither registry nor
    store, and it has made [valid] false if the host under the key is one
    that the resolver takes up; or it has made the tunnel for this host. *)
Lemma jump_host_step_effect k0 w n v w1 n1 v1 :
  registry_ok w -> addresses_allocated w ->
  jump_host_step' k0 w n v = JumpNext w1 n1 v1 ->
  (Hosts w1 = Hosts w /\ Tunnels w1 = Tunnels w /\ store w1 = store w /\
   ∀ h0, Hosts w !! k0 = Some h0 -> JumpHost h0 ≠ "" -> isHost h0 = true ->
     v1 = false) \/
  ∃ h0 jh0 port t0,
    Hosts w !! k0 = Some h0 /\ JumpHost h0 ≠ "" /\ isHost h0 = true /\
    Hosts w !! JumpHost h0 = Some jh0 /\ JumpHost jh0 = "" /\
    freePort n = Some port /\ v1 = v /\
    Tunnels w1 = <[JumpHost h0 +:+ " jumphost" := t0]> (Tunnels w) /\
    Tunnel_Name t0 = JumpHost h0 +:+ " jumphost" /\
    Tunnel_Host t0 = JumpHost h0 /\
    Forward t0 = Host_Address h0 /\
    Local t0 = Some (length (store w)) /\
    Hosts w1 !! k0 = Some (set_Host_Address (Some (length (store w))) h0) /\
    (∀ k3, k3 ≠ k0 ->
       Hosts w1 !! k3 = Hosts w !! k3 \/
       ∃ host, Hosts w !! k3 = Some host /\ JumpHost host = "" /\
               Hosts w1 !! k3 = Some (set_isHost true host)) /\
    length (store w1) = S (length (store w)) /\
    store w1 !! length (store w)
    = Some (Address_Validate "tunnel" (JumpHost h0 +:+ " jumphost")
              "local address" true false
              (NewAddress ("127.0.0.1:" +:+ itoa port))).1.1 /\
    ∀ l, (l < length (store w))%nat -> Host_Address h0 ≠ Some l ->
      store w1 !! l = store w !! l.
Proof.
  intros Hreg Halloc. unfold jump_host_step.
  destruct (Hosts w !! k0) as [h0|] eqn:Hk0;
    [|intros [= <- <- <-]; left; by split_and!].
  destruct (bool_decide (JumpHost h0 ≠ "") && isHost h0) eqn:Hguard.
  2:{ intros [= <- <- <-]. left. split_and!; try done.
      intros h0' [= <-] Hj Hi. rewrite Hi, bool_decide_eq_true_2 in Hguard; done. }
  apply andb_true_iff in Hguard as [Hjump Hhost].
  apply bool_decide_eq_true_1 in Hjump.
  destruct (Hosts w !! JumpHost h0) as [jh0|] eqn:Hjh;
    [|intros [= <- <- <-]; left; by split_and!].
  case_bool_decide as Hchain; [intros [= <- <- <-]; left; by split_and!|].
  assert (Hnochain : JumpHost jh0 = "")
    by (destruct (decide (JumpHost jh0 = "")); [done|by destruct Hchain]).
  destruct (freePort n) as [port|] eqn:Hport; [|done].
  cbn [new_address].
  set (text := "127.0.0.1:" +:+ itoa port).
  set (place := length (store w)).
  set (w0 := set_store (store w ++ [NewAddress text]) w).
  destruct (Hreg _ _ Hjh) as [Hjname Hjtrim].
  assert (Hname : TrimSpace (JumpHost h0 +:+ " jumphost")
                  = JumpHost h0 +:+ " jumphost")
    by (by apply TrimSpace_jumphost).
  assert (Hplace : store w0 !! place = Some (NewAddress text))
    by (unfold w0, place; cbn; by rewrite lookup_app_r, Nat.sub_diag).
  assert (Hfresh : Host_Address h0 ≠ Some place).
  { intros Hf. apply (Halloc _ _ _ Hk0) in Hf. unfold place in Hf. lia. }
  destruct (Tunnel_Validate_local_given (jumpTunnel_for h0 jh0 place) w0
              place (NewAddress text))
    as (w2 & t2 & v2 & E & Hloc & Hst & Hlen); [done|done|done|done|].
  rewrite E.
  pose proof (Tunnel_Validate_local_frame (jumpTunnel_for h0 jh0 place) w0
                place (NewAddress text) w2 t2 v2 eq_refl Hplace
                ltac:(done) Hfresh E) as Hframe.
  pose proof (Tunnel_Validate_inv _ _ _ _ _ E)
    as (Hn2 & Hh2 & Hf2 & Ht2 & _ & Hhosts2 & _).
  cbn [jumpTunnel_for Tunnel_Name Tunnel_Host Forward] in Hn2, Hh2, Hf2, Hst, Hframe.
  rewrite Hjname, Hname in Hn2. rewrite Hjname, Hname in Hst.
  rewrite Hjtrim in Hh2.
  intros [= <- <- <-]. right. exists h0, jh0, port, t2.
  assert (Hpoint : ∀ k3, k3 ≠ JumpHost h0 -> Hosts w2 !! k3 = Hosts w !! k3).
  { intros k3 Hk3. destruct Hhosts2 as [->|(host & _ & ->)]; [done|].
    rewrite Hh2. by rewrite lookup_insert_ne. }
  assert (Hk0j : k0 ≠ JumpHost h0).
  { intros Heq. rewrite <- Heq in Hjh. rewrite Hk0 in Hjh.
    injection Hjh as <-. done. }
  split_and!; try done.
  - cbn [point_host_at Tunnels set_Hosts]. by rewrite Ht2, Hn2.
  - cbn [point_host_at Hosts set_Hosts]. rewrite lookup_alter_eq.
    rewrite Hpoint, Hk0 by done. cbn. by rewrite Hloc.
  - intros k3 Hk3. cbn [point_host_at Hosts set_Hosts].
    rewrite lookup_alter_ne by done.
    destruct Hhosts2 as [->|(host & Hhost2 & ->)]; [by left|].
    rewrite Hh2 in *. cbn [Hosts w0 set_store] in Hhost2.
    destruct (decide (JumpHost h0 = k3)) as [<-|Hne].
    + right. exists host. rewrite lookup_insert_eq. split_and!; [done| |done].
      rewrite Hjh in Hhost2. by injection Hhost2 as <-.
    + left. by rewrite lookup_insert_ne.
  - cbn [point_host_at store set_Hosts]. rewrite Hlen. unfold w0. cbn.
    rewrite length_app. cbn. lia.
  - intros l Hl Hfl. cbn [point_host_at store set_Hosts].
    rewrite Hframe; [|unfold place; lia|done].
    unfold w0. cbn. by rewrite lookup_app_l.
Qed.

(** What holds of the registry of hosts before a turn of the loop that
    goes on holds after it. *)
Lemma jump_host_step_keeps k j k0 w n v w1 n1 v1 :
  j ≠ "" ->
  registry_ok w -> addresses_allocated w -> alone_behind k j w ->
  jump_host_step' k0 w n v = JumpNext w1 n1 v1 ->
  registry_ok w1 /\ addresses_allocated w1 /\ alone_behind k j w1 /\
  (length (store w) <= length (store w1))%nat /\
  (∀ k3 h3', Hosts w1 !! k3 = Some h3' ->
     ∃ h3, Hosts w !! k3 = Some h3 /\ JumpHost h3' = JumpHost h3 /\
           Host_Name h3' = Host_Name h3).
Proof.
  intros Hj Hreg Halloc Halone E.
  destruct (jump_host_step_effect k0 w n v w1 n1 v1 Hreg Halloc E)
    as [(Hh & _ & Hs & _)|
        (h0 & jh0 & port & t0 & Hk0 & Hjump & Hhost & Hjh & Hnochain & _ & _ & _
         & _ & _ & _ & _ & Hk0' & Hrest & Hlen & _ & _)].
  - split_and!.
    + by eapply registry_ok_same.
    + intros k3 h3 l. rewrite Hh, Hs. apply Halloc.
    + intros k2 h2. rewrite Hh. apply Halone.
    + by rewrite Hs.
    + intros k3 h3'. rewrite Hh. by exists h3'.
  - assert (Hback : ∀ k3 h3', Hosts w1 !! k3 = Some h3' ->
              ∃ h3, Hosts w !! k3 = Some h3 /\ JumpHost h3' = JumpHost h3 /\
                    Host_Name h3' = Host_Name h3 /\
                    (k3 ≠ k0 -> Host_Address h3' = Host_Address h3) /\
                    (isHost h3' = true -> isHost h3 = true \/ JumpHost h3 = "")).
    { intros k3 h3' Hk3. destruct (decide (k3 = k0)) as [->|Hne].
      - rewrite Hk0' in Hk3. injection Hk3 as <-. exists h0.
        split_and!; try done. by left.
      - destruct (Hrest k3 Hne) as [Heq|(host & Hhost3 & Hjhost & Heq)].
        + rewrite Heq in Hk3. exists h3'. split_and!; try done. by left.
        + rewrite Heq in Hk3. injection Hk3 as <-. exists host.
          split_and!; try done. by right. }
    split_and!.
    + intros k3 h3' Hk3.
      destruct (Hback k3 h3' Hk3) as (h3 & Hk3w & _ & Hn & _).
      destruct (Hreg _ _ Hk3w) as [Hname Htrim]. split; [congruence|done].
    + intros k3 h3' l Hk3 Hl. rewrite Hlen.
      destruct (decide (k3 = k0)) as [->|Hne].
      * rewrite Hk0' in Hk3. injection Hk3 as <-. cbn in Hl.
        injection Hl as <-. lia.
      * destruct (Hback k3 h3' Hk3) as (h3 & Hk3w & _ & _ & Ha & _).
        rewrite (Ha Hne) in Hl. pose proof (Halloc _ _ _ Hk3w Hl). lia.
    + intros k2 h2' Hk2 Hk2w Hi.
      destruct (Hback k2 h2' Hk2w) as (h2 & Hk2w' & Hjh2 & _ & _ & Hi2).
      rewrite Hjh2. destruct (Hi2 Hi) as [Hi'|Hempty].
      * by apply (Halone k2 h2).
      * rewrite Hempty. by intros <-.
    + lia.
    + intros k3 h3' Hk3.
      destruct (Hback k3 h3' Hk3) as (h3 & ? & ? & ? & _). by exists h3.
Qed.

(** Once the tunnel of the host under [k] is made, the turns for the other
    hosts leave it as it is: the tunnel stays in the registry under its
    name, its local address stays in the store, and the host keeps
    pointing to it. *)
Lemma jump_hosts_loop_keeps_front k j t place a hk order : ∀ w n v,
  k ∉ order -> j ≠ "" -> JumpHost hk = j -> isHost hk = true ->
  registry_ok w -> addresses_allocated w -> alone_behind k j w ->
  (place < length (store w))%nat ->
  fronted k (j +:+ " jumphost") t place a hk w ->
  fronted k (j +:+ " jumphost") t place a hk (jump_hosts_loop' order w n v).1.
Proof.
  induction order as [|k0 order IH];
    intros w n v Hnotin Hj Hjk Hik Hreg Halloc Halone Hplace Hfront; [done|].
  apply not_elem_of_cons in Hnotin as [Hne Hnotin].
  cbn [jump_hosts_loop].
  destruct (jump_host_step' k0 w n v) as [w1 n1 v1|w1 v1] eqn:E;
    [|by rewrite (jump_host_step_break_same _ _ _ _ _ _ E)].
  destruct (jump_host_step_keeps k j k0 w n v w1 n1 v1 Hj Hreg Halloc Halone E)
    as (Hreg1 & Halloc1 & Halone1 & Hlen1 & _).
  apply IH; try done; [lia|].
  destruct Hfront as (Ht & Hs & Hk & Hothers).
  destruct (jump_host_step_effect k0 w n v w1 n1 v1 Hreg Halloc E)
    as [(Hh & Htun & Hst & _)|
        (h0 & jh0 & port & t0 & Hk0 & Hjump & Hhost & Hjh & Hnochain & _ & _
         & Htun & _ & _ & _ & _ & Hk0' & Hrest & Hlen & _ & Hframe)].
  - unfold fronted. by rewrite Hh, Htun, Hst.
  - assert (Hjne : JumpHost h0 ≠ j) by (by apply (Halone k0 h0)).
    split_and!.
    + rewrite Htun, lookup_insert_ne; [done|].
      intros Heq. by apply append_inj_r in Heq.
    + rewrite Hframe; [done|done|]. by apply (Hothers k0 h0).
    + destruct (Hrest k ltac:(done)) as [->|(host & Hhostk & Hjhost & ->)];
        [done|].
      rewrite Hk in Hhostk. injection Hhostk as <-.
      by rewrite set_isHost_id.
    + intros k2 h2' Hk2 Hk2w.
      destruct (decide (k2 = k0)) as [->|Hne2].
      * rewrite Hk0' in Hk2w. injection Hk2w as <-. cbn. intros [= Heq]. lia.
      * destruct (Hrest k2 Hne2) as [Heq|(host & Hhost2 & _ & Heq)];
          rewrite Heq in Hk2w.
        -- by apply (Hothers k2).
        -- injection Hk2w as <-. cbn. by apply (Hothers k2 host).
Qed.

(** The loop that ends with [valid] true has made the tunnel of every host
    it had to take up. *)
Lemma jump_hosts_loop_fronts k h order : ∀ w n v w',
  NoDup order -> k ∈ order ->
  JumpHost h ≠ "" -> isHost h = true ->
  registry_ok w -> addresses_allocated w -> alone_behind k (JumpHost h) w ->
  Hosts w !! k = Some h ->
  jump_hosts_loop' order w n v = (w', true) ->
  ∃ jumpHost n' port t place,
    Hosts w !! JumpHost h = Some jumpHost /\ JumpHost jumpHost = "" /\
    freePort n' = Some port /\
    (length (store w) <= place)%nat /\
    Tunnel_Name t = JumpHost h +:+ " jumphost" /\
    Tunnel_Host t = JumpHost h /\
    Forward t = Host_Address h /\
    Local t = Some place /\
    fronted k (JumpHost h +:+ " jumphost") t place
      (Address_Validate "tunnel" (JumpHost h +:+ " jumphost") "local address"
         true false (NewAddress ("127.0.0.1:" +:+ itoa port))).1.1
      (set_Host_Address (Some place) h) w'.
Proof.
  induction order as [|k0 order IH];
    intros w n v w' Hnodup Hin Hjump Hhost Hreg Halloc Halone Hk Hloop.
  - by apply elem_of_nil in Hin.
  - apply NoDup_cons in Hnodup as [Hnotin Hnodup].
    cbn [jump_hosts_loop] in Hloop.
    destruct (jump_host_step' k0 w n v) as [w1 n1 v1|w1 v1] eqn:E.
    2:{ apply jump_host_step_break in E as [-> _]. by injection Hloop. }
    destruct (jump_host_step_keeps k (JumpHost h) k0 w n v w1 n1 v1
                Hjump Hreg Halloc Halone E)
      as (Hreg1 & Halloc1 & Halone1 & Hlen1 & Hback).
    pose proof (jump_host_step_effect k0 w n v w1 n1 v1 Hreg Halloc E) as Heff.
    destruct (decide (k0 = k)) as [->|Hne].
    + destruct Heff
        as [(_ & _ & _ & Hfalse)|
            (h0 & jh0 & port & t0 & Hk0 & _ & _ & Hjh & Hnochain & Hport & _
             & Htun & Hn0 & Hh0 & Hf0 & Hl0 & Hk0' & Hrest & Hlen & Hst & _)].
      { rewrite (Hfalse h Hk Hjump Hhost) in Hloop.
        pose proof (jump_hosts_loop_false order w1 n1) as Hf.
        rewrite Hloop in Hf. done. }
      rewrite Hk in Hk0. injection Hk0 as <-.
      exists jh0, n, port, t0, (length (store w)).
      split_and!; try done.
      replace w' with (jump_hosts_loop' order w1 n1 v1).1 by (by rewrite Hloop).
      apply jump_hosts_loop_keeps_front; try done; [lia|].
      split_and!; [by rewrite Htun, lookup_insert_eq|done|done|].
      intros k2 h2' Hk2 Hk2w.
      destruct (Hrest k2 Hk2) as [Heq|(host & Hhost2 & _ & Heq)];
        rewrite Heq in Hk2w.
      * intros Ha. pose proof (Halloc _ _ _ Hk2w Ha). lia.
      * injection Hk2w as <-. cbn. intros Ha.
        pose proof (Halloc _ _ _ Hhost2 Ha). lia.
    + apply elem_of_cons in Hin as [->|Hin]; [done|].
      assert (Hk1 : Hosts w1 !! k = Some h).
      { destruct Heff
          as [(-> & _)|
              (h0 & jh0 & port & t0 & _ & _ & _ & _ & _ & _ & _ & _ & _ & _ & _
               & _ & _ & Hrest & _)]; [done|].
        destruct (Hrest k ltac:(done)) as [->|(host & Hhostk & _ & ->)];
          [done|].
        rewrite Hk in Hhostk. injection Hhostk as <-. by rewrite set_isHost_id. }
      destruct (IH w1 n1 v1 w' Hnodup Hin Hjump Hhost Hreg1 Halloc1 Halone1
                  Hk1 Hloop)
        as (jumpHost & n' & port & t & place & Hjh & Hnochain & Hport & Hplace
            & Hn & Hh & Hf & Hl & Hfront).
      destruct (Hback _ _ Hjh) as (jh & Hjhw & Hjj & _).
      exists jh, n', port, t, place. split_and!; try done; [congruence|lia].
Qed.

(** C1 (amended): a host [h] that is the host of a tunnel and has a jump
    host, the only such host that names this jump host, in a resolution
    that passes ([validateJumpHosts] returns true). Then the jump host is
    registered and has no jump host itself, a free port was found, and
    when the resolver is through: the tunnel registered under the name of
    the jump host, "<name> jumphost", goes through the jump host, its
    forward address is the address that [h] had, its local address is a
    new one, made of 127.0.0.1 and the free port and then validated; the
    address of [h] is this local address, no other host has it, and it is
    what [Host.Open] dials. *)
Theorem jump_host_fronted_by_tunnel order w w' k h :
  NoDup order -> k ∈ order ->
  registry_ok w -> addresses_allocated w ->
  Hosts w !! k = Some h -> JumpHost h ≠ "" -> isHost h = true ->
  alone_behind k (JumpHost h) w ->
  validateJumpHosts' order w = (w', true) ->
  ∃ jumpHost n port t place,
    Hosts w !! JumpHost h = Some jumpHost /\ JumpHost jumpHost = "" /\
    freePort n = Some port /\
    let name := Host_Name jumpHost +:+ " jumphost" in
    let loopback :=
      (Address_Validate "tunnel" name "local address" true false
         (NewAddress ("127.0.0.1:" +:+ itoa port))).1.1 in
    Tunnels w' !! name = Some t /\
    Tunnel_Name t = name /\
    Tunnel_Host t = JumpHost h /\
    Forward t = Host_Address h /\
    Local t = Some place /\
    (length (store w) <= place)%nat /\
    store w' !! place = Some loopback /\
    Hosts w' !! k = Some (set_Host_Address (Some place) h) /\
    (∀ k2 h2, k2 ≠ k -> Hosts w' !! k2 = Some h2 ->
       Host_Address h2 ≠ Some place) /\
    ∀ sshDial,
      client h = None ->
      Host_Open sshDial w' (set_Host_Address (Some place) h)
      = match sshDial (address loopback) (config h) with
        | inl c =>
            Ok (set_client (Some c) (set_Host_Address (Some place) h), true, [])
        | inr err =>
            Ok (set_client None (set_Host_Address (Some place) h), false,
                ["  Error - failed to connect to remote address: " +:+ err])
        end.
Proof.
  intros Hnodup Hin Hreg Halloc Hk Hjump Hhost Halone Hloop.
  destruct (jump_hosts_loop_fronts k h order w 0%nat true w' Hnodup Hin Hjump
              Hhost Hreg Halloc Halone Hk Hloop)
    as (jumpHost & n & port & t & place & Hjh & Hnochain & Hport & Hplace
        & Hn & Hh & Hf & Hl & Ht & Hs & Hk' & Hothers).
  destruct (Hreg _ _ Hjh) as [Hjname _].
  exists jumpHost, n, port, t, place. rewrite Hjname.
  split_and!; [done|done|done|]. intros name loopback.
  split_and!; try done.
  intros sshDial Hclient. unfold Host_Open.
  cbn [client set_Host_Address Host_Address]. rewrite Hclient.
  cbn [mbind option_bind]. rewrite Hs.
  cbn [config]. by destruct (sshDial _ _).
Qed.

(** *** [Configuration.Validate] *)

Local Abbreviation validate_hosts' :=
  (validate_hosts verboseFlag osStat knownhostsNew osReadFile ParsePrivateKey
     Address_Validate).
Local Abbreviation validate_tunnels' :=
  (validate_tunnels verboseFlag Address_Validate).
Local Abbreviation Configuration_Validate' :=
  (Configuration_Validate verboseFlag osStat knownhostsNew osReadFile
     ParsePrivateKey Address_Validate freePort).







Lemma registry_ok_validate_hosts defaultUsername hosts : ∀ w valid w' valid',
  validate_hosts' defaultUsername hosts w valid = Ok (w', valid') ->
  registry_ok w -> registry_ok w'.
Proof.
  induction hosts as [|h hosts IH]; intros w valid w' valid'.
  - by intros [= <- <-].
  - cbn [validate_hosts].
    destruct (Host_Validate' defaultUsername h w) as [[[w1 h1] ok]|] eqn:E; [|done].
    cbn [mbind Result_bind]. intros Hrest Hok.
    eapply IH; [exact Hrest|]. by eapply registry_ok_Host_Validate.
Qed.

Lemma registry_ok_validate_tunnels tunnels : ∀ w valid,
  registry_ok w -> registry_ok (validate_tunnels' tunnels w valid).1.
Proof.
  induction tunnels as [|t tunnels IH]; intros w valid Hok; [done|].
  cbn [validate_tunnels].
  destruct (Tunnel_Validate' t w) as [[w1 t1] ok] eqn:E.
  apply IH. by eapply registry_ok_Tunnel_Validate.
Qed.

(** *** The state that the resolver starts from *)

(** [Host.Validate] leaves the host its address, and the store its
    length. *)
Lemma Host_Validate_store defaultUsername h w w' h' valid :
  Host_Validate' defaultUsername h w = Ok (w', h', valid) ->
  Host_Address h' = Host_Address h /\ length (store w') = length (store w).
Proof.
  unfold Host_Validate. cbv zeta.
  destruct (if bool_decide (Host_Name _ = "") then _ else _) as [w1 v1] eqn:E1.
  assert (Q1 : quiet w w1)
    by (case_bool_decide; injection E1 as <- <-; auto with quiet).
  clear E1.
  destruct (match Hosts w1 !! _ with Some _ => _ | None => _ end)
    as [w2 v2] eqn:E2.
  assert (Q2 : quiet w w2).
  { eapply quiet_trans; [exact Q1|].
    destruct (Hosts w1 !! _); injection E2 as <- <-; auto with quiet. }
  clear E2 Q1.
  destruct (if bool_decide _ && verboseFlag then _ else _) as [w3 h3] eqn:E3.
  assert (Q3 : quiet w w3 /\ Host_Address h3 = Host_Address h).
  { destruct (bool_decide _ && verboseFlag); injection E3 as <- <-;
      (split; [eapply quiet_trans; [exact Q2|]; auto with quiet|done]). }
  clear E3 Q2. destruct Q3 as ((Hs3 & _) & Ha3).
  destruct (load_known_hosts _ _ _ w3 v2) as [[w4 v4]|] eqn:E4; [|done].
  apply load_known_hosts_inv in E4 as (Hs4 & _).
  cbn [mbind Result_bind].
  destruct (if bool_decide (Identity _ = "") then _ else _) as [w5 v5] eqn:E5.
  assert (Q5 : quiet w4 w5)
    by (case_bool_decide; injection E5 as <- <-; auto with quiet).
  clear E5. destruct Q5 as (Hs5 & _).
  destruct (load_identity _ _ _ _ w5 v5) as [[[w6 h6] v6]|] eqn:E6; [|done].
  apply load_identity_inv in E6 as (Hs6 & _ & _ & _ & _ & _ & _ & Ha6 & _).
  cbn [Host_Address set_Identity set_KnownHosts] in Ha6.
  cbn [mbind Result_bind].
  next_pair w7 v7 E7.
  assert (Q7 : length (store w7) = length (store w6)).
  { destruct (Host_Address h6) as [l|]; [|by injection E7 as <- <-].
    destruct (nil_or_blank w6 (Some l)); [by injection E7 as <- <-|].
    destruct (validate_at _ _ _ _ _ _ _ _) as [w7' ok] eqn:Ev.
    injection E7 as <- <-. apply validate_at_inv in Ev. tauto. }
  clear E7.
  lazymatch goal with
  | |- match ?e with (_, _) => _ end = _ -> _ =>
      destruct e as [[w8 h8] v8] eqn:E8
  end.
  assert (Q8 : store w8 = store w7 /\ Host_Address h8 = Host_Address h6).
  { repeat case_bool_decide; injection E8 as <- <- <-; by split. }
  clear E8. destruct Q8 as [Hs8 Ha8].
  intros [= <- <- <-].
  destruct (verboseFlag && v8);
    cbn [Host_Address set_config store set_Hosts say];
    (split; [congruence|]); rewrite Hs8, Q7; congruence.
Qed.

(** [Tunnel.Validate] takes no object out of the store. *)
Lemma Tunnel_Validate_store t w w' t' valid :
  Tunnel_Validate' t w = (w', t', valid) ->
  (length (store w) <= length (store w'))%nat.
Proof.
  unfold Tunnel_Validate. cbv zeta.
  next_pair w1 v1 E1.
  assert (Q1 : quiet w w1)
    by (case_bool_decide; injection E1 as <- <-; auto with quiet).
  clear E1. next_pair w2 v2 E2.
  assert (Q2 : quiet w w2).
  { eapply quiet_trans; [exact Q1|].
    destruct (Tunnels w1 !! _); injection E2 as <- <-; auto with quiet. }
  clear E2 Q1. destruct Q2 as (Hs2 & _).
  next_pair w3 v3 E3.
  assert (Q3 : length (store w3) = length (store w)).
  { destruct (Forward _) as [lf|];
      [|injection E3 as <- <-; cbn; by rewrite Hs2].
    destruct (nil_or_blank w2 (Some lf));
      [injection E3 as <- <-; cbn; by rewrite Hs2|].
    destruct (validate_at _ _ _ _ _ _ _ _) as [w3' ok] eqn:Ev.
    injection E3 as <- <-. apply validate_at_inv in Ev as (_&_&_&_&Hl&_).
    by rewrite Hl, Hs2. }
  clear E3 Hs2. next_pair w4 t4 E4.
  assert (Q4 : (length (store w3) <= length (store w4))%nat).
  { destruct (forward_valid w3 _) as [p|]; [|by injection E4 as <- <-].
    destruct (nil_or_blank w3 _); [|by injection E4 as <- <-].
    injection E4 as <- <-. cbn. rewrite length_app. lia. }
  clear E4. next_pair w5 v5 E5.
  assert (Q5 : length (store w5) = length (store w4)).
  { destruct (Local t4) as [l|]; [|by injection E5 as <- <-].
    destruct (nil_or_blank w4 (Some l)); [by injection E5 as <- <-|].
    destruct (validate_at _ _ _ _ _ _ _ _) as [w5' ok] eqn:Ev.
    injection E5 as <- <-. by apply validate_at_inv in Ev as (_&_&_&_&Hl&_). }
  clear E5. next_pair w6 v6 E6.
  assert (Q6 : store w6 = store w5).
  { case_bool_decide; [by injection E6 as <- <-|].
    destruct (Hosts w5 !! _); by injection E6 as <- <-. }
  clear E6. intros [= <- _ _].
  destruct (verboseFlag && v6); cbn [store set_Tunnels say]; rewrite Q6; lia.
Qed.

Lemma addresses_allocated_start addresses :
  addresses_allocated (world_start addresses).
Proof. intros k h l Hk. cbn in Hk. by rewrite lookup_empty in Hk. Qed.

Lemma addresses_allocated_validate_hosts defaultUsername hosts :
  ∀ w valid w' valid',
  (∀ h l, h ∈ hosts -> Host_Address h = Some l -> (l < length (store w))%nat) ->
  validate_hosts verboseFlag osStat knownhostsNew osReadFile ParsePrivateKey
    Address_Validate defaultUsername hosts w valid = Ok (w', valid') ->
  addresses_allocated w ->
  addresses_allocated w' /\ length (store w') = length (store w).
Proof.
  induction hosts as [|h hosts IH]; intros w valid w' valid' Hcfg.
  - by intros [= <- <-].
  - cbn [validate_hosts].
    destruct (Host_Validate' defaultUsername h w) as [[[w1 h1] ok]|] eqn:E; [|done].
    cbn [mbind Result_bind]. intros Hrest Halloc.
    pose proof (Host_Validate_store _ _ _ _ _ _ E) as [Ha Hl].
    apply Host_Validate_inv in E as (_ & _ & Hh & _).
    destruct (IH w1 (if ok then valid else false) w' valid')
      as [Halloc' Hl']; [| exact Hrest | |].
    + intros h' l Hin Hal. rewrite Hl. apply (Hcfg h'); [by right|done].
    + intros k hk l. rewrite Hh, Hl.
      destruct (decide (Host_Name h1 = k)) as [<-|Hne].
      * rewrite lookup_insert_eq. intros [= <-]. rewrite Ha.
        apply Hcfg. left.
      * rewrite lookup_insert_ne by done. apply Halloc.
    + split; [done|congruence].
Qed.

Lemma addresses_allocated_validate_tunnels tunnels : ∀ w valid,
  addresses_allocated w ->
  addresses_allocated (validate_tunnels verboseFlag Address_Validate tunnels w valid).1.
Proof.
  induction tunnels as [|t tunnels IH]; intros w valid Halloc; [done|].
  cbn [validate_tunnels].
  destruct (Tunnel_Validate' t w) as [[w1 t1] ok] eqn:E.
  apply IH. pose proof (Tunnel_Validate_store _ _ _ _ _ E) as Hl.
  apply Tunnel_Validate_inv in E as (_&_&_&_&_&Hhosts&_).
  intros k h l Hk Ha.
  assert (Hold : ∃ h0, Hosts w !! k = Some h0 /\ Host_Address h0 = Some l).
  { destruct Hhosts as [Heq|(host & Hhost & Heq)]; rewrite Heq in Hk.
    - by exists h.
    - destruct (decide (Tunnel_Host t1 = k)) as [<-|Hne].
      + rewrite lookup_insert_eq in Hk. injection Hk as <-. by exists host.
      + rewrite lookup_insert_ne in Hk by done. by exists h. }
  destruct Hold as (h0 & Hk0 & Ha0). pose proof (Halloc _ _ _ Hk0 Ha0). lia.
Qed.

(** The hosts and the tunnels of a configuration validated one by one, from
    the empty registries: the resolver finds every host under its trimmed
    name, with an address that is nil or an object of the store. *)
Lemma validated_registry defaultUsername c addresses w1 v1 :
  (∀ h l, h ∈ cfg_Hosts c -> Host_Address h = Some l ->
     (l < length addresses)%nat) ->
  validate_hosts verboseFlag osStat knownhostsNew osReadFile ParsePrivateKey
    Address_Validate defaultUsername (cfg_Hosts c) (world_start addresses) true
  = Ok (w1, v1) ->
  let w2 := (validate_tunnels verboseFlag Address_Validate (cfg_Tunnels c) w1 v1).1 in
  registry_ok w2 /\ addresses_allocated w2.
Proof.
  intros Hcfg E w2. split.
  - apply registry_ok_validate_tunnels.
    eapply registry_ok_validate_hosts; [exact E|apply registry_ok_start].
  - apply addresses_allocated_validate_tunnels.
    apply (addresses_allocated_validate_hosts defaultUsername (cfg_Hosts c)
             (world_start addresses) true w1 v1 Hcfg E).
    apply addresses_allocated_start.
Qed.

End ValidationProperties.

(** ** The examples, run *)


Lemma ex_registered_ok c addresses :
  registry_ok (ex_registered c (world_start addresses)).
Proof.
  unfold ex_registered.
  destruct (validate_hosts _ _ _ _ _ _ _ _ _ _) as [[w valid]|] eqn:E.
  - apply registry_ok_validate_tunnels.
    eapply registry_ok_validate_hosts; [exact E|]. apply registry_ok_start.
  - apply registry_ok_start.
Qed.

(** White space that is not ASCII: the no-break space is trimmed like a
    blank, at both ends; a byte A0 alone is no rune, and stays. *)
Example TrimSpace_unicode :
  TrimSpace (" " +:+ nbsp +:+ "A b" +:+ nbsp +:+ " ") = "A b" /\
  TrimSpace nbsp = "" /\
  TrimSpace ("B" +:+ nbsp) = "B" /\
  TrimSpace (String (ascii_of_nat 160) "") = String (ascii_of_nat 160) "".
Proof. split_and!; reflexivity. Qed.

(** A host whose name is a no-break space has a blank name. *)
Example Host_Validate_nbsp_name :
  ∃ w' h',
    Host_Validate false ex_osStat ex_knownhostsNew ex_osReadFile
      ex_ParsePrivateKey ex_Address_Validate "u" (ex_host nbsp (Some 0%nat) "")
      ex_world
    = Ok (w', h', false) /\
    Host_Name h' = "" /\
    printed w' = ["  Error - host name cannot be blank"].
Proof. eexists _, _. split; [vm_compute; reflexivity|]. by split_and!. Qed.



(** And a path that [os.Stat] cannot examine makes [Host.Validate] panic:
    the [FileInfo] is nil then, and [fi.IsDir()] is called on it. *)
Example Host_Validate_stat_error_panics :
  Host_Validate false (λ _, StatError) ex_knownhostsNew ex_osReadFile
    ex_ParsePrivateKey ex_Address_Validate "u"
    (set_KnownHosts "/kh" (ex_host "B" (Some 1%nat) "A")) ex_world
  = Panic.
Proof. reflexivity. Qed.

(** The jump host is compared as it is written with the name as it is
    trimmed: the host written as " S" with the jump host " S" is not found
    to name itself. *)
Example padded_self_reference_accepted :
  ∃ w' h',
    Host_Validate false ex_osStat ex_knownhostsNew ex_osReadFile
      ex_ParsePrivateKey ex_Address_Validate "u" ex_host_self ex_world
    = Ok (w', h', true) /\
    Host_Name h' = "S" /\ JumpHost h' = " S" /\ printed w' = [].
Proof. eexists _, _. split; [vm_compute; reflexivity|]. by split_and!. Qed.

Lemma Tunnel_Validate_default_local_witness :
  ∃ w' t' ok,
    Tunnel_Validate false ex_Address_Validate ex_T1 ex_world = (w', t', ok) /\
    Local t' = Some 3%nat /\
    store w' !! 3%nat
    = Some {| valid := true; address := "127.0.0.1:80"; port := 80 |} /\
    store w' !! 2%nat
    = Some {| valid := true; address := "10.0.0.5:80"; port := 80 |} /\
    Tunnels w' !! "T1" = Some t'.
Proof.
  apply (Tunnel_Validate_default_local false ex_Address_Validate ex_T1 ex_world
           2%nat (NewAddress "10.0.0.5:80")).
  - reflexivity.
  - reflexivity.
  - reflexivity.
  - discriminate.
  - reflexivity.
Defined.

(** C7, as it is stated, fails: the tunnel [T1] has no local address and the
    forward address 10.0.0.5:80, and its local address after the validation
    is 127.0.0.1:80, not 0.0.0.0:80. *)
Lemma Tunnel_Validate_default_not_wildcard :
  let '(w', t', _) := Tunnel_Validate false ex_Address_Validate ex_T1 ex_world in
  ∃ a, Local t' ≫= (store w' !!.) = Some a /\
       address a = "127.0.0.1:80" /\ address a ≠ "0.0.0.0:80".
Proof. vm_compute. eexists. split; [reflexivity|]. split; [reflexivity|discriminate]. Qed.

Example jump_host_step_fronts_example :
  ∃ w' t,
    jump_host_step false ex_Address_Validate ex_freePort "B"
      (ex_registered ex_config ex_world) 0%nat true = JumpNext w' 1%nat true /\
    Tunnels w' !! "A jumphost" = Some t /\
    Tunnel_Host t = "A" /\
    Forward t = Some 1%nat /\
    Local t = Some 4%nat /\
    store w' !! 4%nat
    = Some {| valid := true; address := "127.0.0.1:40000"; port := 40000 |} /\
    Host_Address <$> Hosts w' !! "B" = Some (Some 4%nat).
Proof.
  destruct (jump_host_step_fronts false ex_Address_Validate ex_freePort
              "B" (ex_registered ex_config ex_world) 0%nat true
              ex_registered_B ex_registered_A 40000)
    as (w' & t & Hstep & Ht & _ & Hhost & Hfwd & Hloc & Hstore & Hk & _).
  - apply ex_registered_ok.
  - vm_compute. reflexivity.
  - discriminate.
  - reflexivity.
  - vm_compute. reflexivity.
  - reflexivity.
  - reflexivity.
  - intros l [= <-]. vm_compute. eauto.
  - exists w', t. rewrite Hk, Hloc. split_and!; done.
Qed.

Lemma ex_registered_allocated :
  addresses_allocated (ex_registered ex_config ex_world).
Proof.
  assert (HF : bool_decide
                 (map_Forall (λ _ h, (default 0 (Host_Address h) < 4)%nat)
                    (Hosts (ex_registered ex_config ex_world))) = true)
    by (vm_compute; reflexivity).
  apply bool_decide_eq_true_1 in HF. intros k h l Hk Hl.
  apply (map_Forall_lookup_1 _ _ _ _ HF) in Hk. by rewrite Hl in Hk.
Qed.

Lemma ex_registered_alone :
  alone_behind "B" "A" (ex_registered ex_config ex_world).
Proof.
  assert (HF : bool_decide
                 (map_Forall (λ k h, k = "B" \/ isHost h = false \/ JumpHost h ≠ "A")
                    (Hosts (ex_registered ex_config ex_world))) = true)
    by (vm_compute; reflexivity).
  apply bool_decide_eq_true_1 in HF. intros k h Hne Hk Hi.
  apply (map_Forall_lookup_1 _ _ _ _ HF) in Hk.
  destruct Hk as [?|[Hf|?]]; [done| |done]. by rewrite Hi in Hf.
Qed.

Lemma jump_host_fronted_by_tunnel_witness :
  let w := ex_registered ex_config ex_world in
  let w' :=
    (validateJumpHosts false ex_Address_Validate ex_freePort ["A"; "B"] w).1 in
  ∃ t place,
    Tunnels w' !! "A jumphost" = Some t /\
    Tunnel_Name t = "A jumphost" /\
    Tunnel_Host t = "A" /\
    Forward t = Some 1%nat /\
    Local t = Some place /\
    (4 <= place)%nat /\
    Host_Address <$> Hosts w' !! "B" = Some (Some place) /\
    ∀ k2 h2, k2 ≠ "B" -> Hosts w' !! k2 = Some h2 ->
      Host_Address h2 ≠ Some place.
Proof.
  intros w w'.
  destruct (jump_host_fronted_by_tunnel false ex_Address_Validate ex_freePort
              ["A"; "B"] w w' "B" ex_registered_B)
    as (jumpHost & n & port & t & place & Hjh & _ & _ & Hrest).
  - apply NoDup_cons. split; [|apply NoDup_singleton].
    intros Hin. apply list_elem_of_singleton in Hin. discriminate Hin.
  - right. left.
  - apply ex_registered_ok.
  - apply ex_registered_allocated.
  - vm_compute. reflexivity.
  - discriminate.
  - reflexivity.
  - apply ex_registered_alone.
  - vm_compute. reflexivity.
  - assert (Hj : jumpHost = ex_registered_A).
    { vm_compute in Hjh. injection Hjh as <-. reflexivity. }
    rewrite Hj in Hrest. cbv zeta in Hrest.
    destruct Hrest as (Ht & Hn & Hh & Hf & Hl & Hp & _ & Hk & Hothers & _).
    exists t, place. rewrite Hk. split_and!; done.
Defined.

(** C1, as it is stated, fails: the host [B] has the jump host [A], which is
    registered and has no jump host, and the resolver returns true; but no
    tunnel has the host [B], so no tunnel "A jumphost" is registered and the
    address of [B] is the one it was configured with. *)
Lemma jump_host_without_tunnel_left_alone :
  let '(w', ok) :=
    validateJumpHosts false ex_Address_Validate ex_freePort ["A"; "B"]
      (ex_registered ex_config_idle ex_world) in
  ok = true /\
  JumpHost <$> Hosts w' !! "B" = Some "A" /\
  JumpHost <$> Hosts w' !! "A" = Some "" /\
  Host_Address <$> Hosts w' !! "B" = Some (Some 1%nat) /\
  Tunnels w' !! "A jumphost" = None.
Proof. vm_compute. split_and!; reflexivity. Qed.



(** Two hosts behind one jump host get tunnels of the same name: the second
    takes the place of the first in the registry, and the address of the
    first host points to a local address that no registered tunnel has. *)
Example shared_jump_host_one_tunnel :
  let '(w', ok) :=
    validateJumpHosts false ex_Address_Validate ex_freePort ["A"; "B"; "D"]
      (ex_registered ex_config_shared ex_world_chain) in
  ok = true /\
  Host_Address <$> Hosts w' !! "B" = Some (Some 6%nat) /\
  Host_Address <$> Hosts w' !! "D" = Some (Some 7%nat) /\
  Local <$> Tunnels w' !! "A jumphost" = Some (Some 7%nat) /\
  Forward <$> Tunnels w' !! "A jumphost" = Some (Some 3%nat) /\
  (fst <$> map_to_list (Tunnels w')) ≡ₚ ["A jumphost"; "T1"; "T2"].
Proof. vm_compute. split_and!; reflexivity. Qed.

(** * Further properties of the code *)

(** ** Addresses: the text of a port *)

Ltac eval_digit :=
  lazymatch goal with
  | |- context [digit_of ?c] =>
      let v := eval vm_compute in (digit_of c) in
      change (digit_of c) with v; cbv beta iota
  end.

Lemma digit_of_uint_acc d : ∀ acc,
  digits_value (Z.pos acc) (NilEmpty.string_of_uint d)
  = Some (Z.pos (Pos.of_uint_acc d acc)).
Proof.
  induction d; intros acc;
    cbn [NilEmpty.string_of_uint digits_value Pos.of_uint_acc];
    [done|..]; eval_digit; rewrite <- IHd; f_equal; lia.
Qed.

Lemma digits_value_of_uint d :
  digits_value 0 (NilEmpty.string_of_uint d) = Some (Z.of_N (Pos.of_uint d)).
Proof.
  induction d; cbn [NilEmpty.string_of_uint digits_value Pos.of_uint]; [done|..];
    eval_digit; [exact IHd|..]; apply digit_of_uint_acc.
Qed.

(** [strconv.Atoi] reads back what [%d] writes of a positive number. *)
Lemma Atoi_itoa p : 0 < p <= max_int64 -> Atoi (itoa p) = inl p.
Proof.
  intros Hp. destruct p as [|p|p]; [lia| |lia].
  unfold itoa, Atoi. cbn [Z.to_int NilZero.string_of_int].
  assert (Hnil : Pos.to_uint p ≠ Decimal.Nil) by apply DecimalPos.Unsigned.to_uint_nonnil.
  assert (Hs : NilZero.string_of_uint (Pos.to_uint p)
               = NilEmpty.string_of_uint (Pos.to_uint p))
    by (by destruct (Pos.to_uint p)).
  rewrite Hs.
  pose proof (digits_value_of_uint (Pos.to_uint p)) as Hv.
  rewrite DecimalPos.Unsigned.of_to in Hv. cbn [Z.of_N] in Hv.
  destruct (Pos.to_uint p) as [|d|d|d|d|d|d|d|d|d|d]; [done|..];
    cbn [NilEmpty.string_of_uint] in *; rewrite Hv; cbv beta iota zeta;
    (rewrite (proj2 (andb_true_iff _ _)); [done|]);
    (split; [apply Z.leb_le; unfold min_int64; lia|apply Z.leb_le; lia]).
Qed.

(** The text that [%d] gives of a positive number has no colon. *)
Lemma Split_uint d : d ≠ Decimal.Nil ->
  Split (NilEmpty.string_of_uint d) = [NilEmpty.string_of_uint d].
Proof.
  induction d; intros Hd; [done|..];
    cbn [NilEmpty.string_of_uint Split];
    (destruct d; [reflexivity|..]); by rewrite IHd.
Qed.

Lemma Split_itoa p : 0 < p -> Split (itoa p) = [itoa p].
Proof.
  intros Hp. destruct p as [|p|p]; [lia| |lia].
  unfold itoa. cbn [Z.to_int NilZero.string_of_int].
  assert (Hnil : Pos.to_uint p ≠ Decimal.Nil) by apply DecimalPos.Unsigned.to_uint_nonnil.
  replace (NilZero.string_of_uint (Pos.to_uint p))
    with (NilEmpty.string_of_uint (Pos.to_uint p))
    by (by destruct (Pos.to_uint p)).
  by apply Split_uint.
Qed.

(** A text without colon, a colon and another text without colon: the two
    fields. *)
Lemma Split_join host portText :
  Split host = [host] -> Split portText = [portText] ->
  Split (host +:+ ":" +:+ portText) = [host; portText].
Proof.
  intros Hh Hp. induction host as [|c host IH].
  - change ("" +:+ ":" +:+ portText) with (String ":" portText).
    cbn [Split]. change (Ascii.eqb ":" colon) with true. cbv iota. by rewrite Hp.
  - change (String c host +:+ ":" +:+ portText)
      with (String c (host +:+ ":" +:+ portText)).
    cbn [Split] in Hh |- *. destruct (Ascii.eqb c colon); [discriminate Hh|].
    destruct (Split host) as [|h1 rest] eqn:E.
    + injection Hh as <-. discriminate E.
    + injection Hh as -> ->. by rewrite IH.
Qed.

Lemma append_assoc' (s t u : string) : (s +:+ t) +:+ u = s +:+ (t +:+ u).
Proof.
  induction s as [|c s IH]; [done|].
  change (String c ((s +:+ t) +:+ u) = String c (s +:+ (t +:+ u))).
  by rewrite IH.
Qed.

Lemma Split_field host rest :
  Split host = [host] -> Split (host +:+ ":" +:+ rest) = host :: Split rest.
Proof.
  intros Hh. induction host as [|c host IH].
  - change ("" +:+ ":" +:+ rest) with (String ":" rest).
    cbn [Split]. by change (Ascii.eqb ":" colon) with true.
  - change (String c host +:+ ":" +:+ rest)
      with (String c (host +:+ ":" +:+ rest)).
    cbn [Split] in Hh |- *. destruct (Ascii.eqb c colon); [discriminate Hh|].
    destruct (Split host) as [|h1 tail] eqn:E.
    + injection Hh as <-. discriminate E.
    + injection Hh as -> ->. by rewrite IH.
Qed.

Section AddressProperties.

Variable LookupIP : string -> option (list IP).

(** X1: the value that [ValidateAddress] returns is the [valid] flag it
    leaves, and an address left valid came with exactly two fields, the
    second a number between 1 and 65536 that is now its port. *)
Theorem ValidateAddress_valid_means group name attr remote a :
  let r := ValidateAddress LookupIP group name attr remote a in
  r.1.2 = valid r.1.1 /\
  (valid r.1.1 = true ->
   ∃ host portText,
     Split (address a) = [host; portText] /\
     Atoi portText = inl (port r.1.1) /\
     1 <= port r.1.1 <= 65536).
Proof.
  unfold ValidateAddress. cbn [address set_valid].
  destruct (Split (address a)) as [|host [|portText [|? ?]]]; try by split.
  destruct (resolve_host _ _ _ _ _ _ _) as [a1 out1].
  unfold check_port. destruct (Atoi portText) as [i|e] eqn:Hi; [|by split].
  destruct ((i <? 1) || (i >? 65536)) eqn:Hrange; [by split|].
  cbn. split; [done|]. intros _. exists host, portText.
  apply orb_false_iff in Hrange as [H1 H2]. split_and!; [done|done|lia|lia].
Qed.

(** X2: an address text that does not have exactly one colon is marked
    invalid with one line of error; the text and the port stay as they
    were. *)
Theorem ValidateAddress_bad_syntax group name attr remote a :
  length (Split (address a)) ≠ 2%nat ->
  ∃ line,
    ValidateAddress LookupIP group name attr remote a
    = ({| valid := false; address := address a; port := port a |}, false, [line]).
Proof.
  intros Hlen. unfold ValidateAddress. cbn [address set_valid].
  destruct (Split (address a)) as [|host [|portText [|? ?]]];
    first [by exfalso; apply Hlen | by eexists].
Qed.

(** X3: a remote address "host:port" whose host resolves to an IPv4 address
    and whose port lies between 1 and 65536 is a fixed point: it comes out
    valid with the same text and that port, and nothing is printed. *)
Theorem ValidateAddress_remote_fixpoint group name attr host p ip ips a :
  Split host = [host] ->
  LookupIP host = Some (ip :: ips) -> is_Some (To4 ip) ->
  1 <= p <= 65536 ->
  address a = host +:+ ":" +:+ itoa p ->
  ValidateAddress LookupIP group name attr true a
  = ({| valid := true; address := address a; port := p |}, true, []).
Proof.
  intros Hhost Hlookup [ipv4 Hip] Hp Ha. unfold ValidateAddress.
  cbn [address set_valid]. rewrite Ha.
  rewrite (Split_join host (itoa p)) by (try done; apply Split_itoa; lia).
  unfold resolve_host. rewrite Hlookup, Hip. cbn [negb].
  unfold check_port. rewrite Atoi_itoa by (unfold max_int64; lia).
  rewrite (proj2 (orb_false_iff _ _)); [done|].
  split; [apply Z.ltb_ge|rewrite Z.gtb_ltb; apply Z.ltb_ge]; lia.
Qed.

(** X4: a remote address "host:port" whose host does not resolve is left
    valid, but its text is now "host:port:port"; validated once more it is
    rejected for its syntax. *)
Theorem ValidateAddress_remote_unresolved group name attr host p a :
  Split host = [host] ->
  LookupIP host = None ->
  1 <= p <= 65536 ->
  address a = host +:+ ":" +:+ itoa p ->
  let a1 := (ValidateAddress LookupIP group name attr true a).1.1 in
  a1 = {| valid := true; address := address a +:+ ":" +:+ itoa p; port := p |} /\
  valid (ValidateAddress LookupIP group name attr true a1).1.1 = false.
Proof.
  intros Hhost Hlookup Hp Ha.
  assert (H1 : (ValidateAddress LookupIP group name attr true a).1.1
               = {| valid := true; address := address a +:+ ":" +:+ itoa p;
                    port := p |}).
  { unfold ValidateAddress. cbn [address set_valid]. rewrite Ha.
    rewrite (Split_join host (itoa p)) by (try done; apply Split_itoa; lia).
    unfold resolve_host. rewrite Hlookup. cbn [negb].
    unfold check_port. rewrite Atoi_itoa by (unfold max_int64; lia).
    rewrite (proj2 (orb_false_iff _ _));
      [cbn [fst snd set_port set_address set_valid address valid port];
       by rewrite Ha|].
    split; [apply Z.ltb_ge|rewrite Z.gtb_ltb; apply Z.ltb_ge]; lia. }
  cbv zeta. rewrite H1. split; [done|].
  unfold ValidateAddress. cbn [address set_valid]. rewrite Ha.
  replace ((host +:+ ":" +:+ itoa p) +:+ ":" +:+ itoa p)
    with (host +:+ ":" +:+ (itoa p +:+ ":" +:+ itoa p)).
  - rewrite (Split_field host) by done.
    rewrite (Split_join (itoa p) (itoa p)) by (apply Split_itoa; lia). done.
  - by rewrite !append_assoc'.
Qed.

End AddressProperties.

Lemma ValidateAddress_valid_means_witness :
  let r := ValidateAddress literalResolver "host" "A" "address" false
             (NewAddress "localhost:22") in
  r.1.2 = valid r.1.1 /\
  ∃ host portText,
    Split "localhost:22" = [host; portText] /\
    Atoi portText = inl (port r.1.1) /\ 1 <= port r.1.1 <= 65536.
Proof.
  destruct (ValidateAddress_valid_means literalResolver "host" "A" "address"
              false (NewAddress "localhost:22")) as [Hret Hvalid].
  split; [exact Hret|]. apply Hvalid. reflexivity.
Defined.

Lemma ValidateAddress_bad_syntax_witness :
  ∃ line,
    ValidateAddress literalResolver "host" "A" "address" true (NewAddress "a:b:c")
    = ({| valid := false; address := "a:b:c"; port := 0 |}, false, [line]).
Proof.
  apply (ValidateAddress_bad_syntax literalResolver "host" "A" "address" true
           (NewAddress "a:b:c")).
  vm_compute. lia.
Defined.

Lemma ValidateAddress_remote_fixpoint_witness :
  ValidateAddress literalResolver "tunnel" "T1" "forward address" true
    {| valid := true; address := "10.0.0.5:80"; port := 80 |}
  = ({| valid := true; address := "10.0.0.5:80"; port := 80 |}, true, []).
Proof.
  apply (ValidateAddress_remote_fixpoint literalResolver "tunnel" "T1"
           "forward address" "10.0.0.5" 80 (IP4 "10.0.0.5") []).
  - reflexivity.
  - reflexivity.
  - by eexists.
  - lia.
  - reflexivity.
Defined.

Lemma ValidateAddress_remote_unresolved_witness :
  let a1 := (ValidateAddress literalResolver "host" "B" "address" true
               (NewAddress "example.org:22")).1.1 in
  a1 = {| valid := true; address := "example.org:22" +:+ ":" +:+ itoa 22;
          port := 22 |} /\
  valid (ValidateAddress literalResolver "host" "B" "address" true a1).1.1 = false.
Proof.
  apply (ValidateAddress_remote_unresolved literalResolver "host" "B" "address"
           "example.org" 22 (NewAddress "example.org:22")).
  - reflexivity.
  - reflexivity.
  - lia.
  - reflexivity.
Defined.

(** ** The publisher: who is written to, and what *)

Section PublisherProperties.

Variable connWrite : Conn -> list byte -> bool.

(** The loop over the subscribers, in one piece: the connections kept are
    those whose [Write] succeeds, each of them is sent the frame, and one
    line is printed for each of the others. *)
Lemma write_all_filter frame conns :
  write_all connWrite frame conns
  = (filter (λ c, connWrite c frame = true) conns,
     (λ c, (c, frame)) <$> filter (λ c, connWrite c frame = true) conns,
     replicate
       (length conns - length (filter (λ c, connWrite c frame = true) conns))
       "  Info  - Disconnected stats client").
Proof.
  induction conns as [|c conns IH]; [done|].
  cbn [write_all]. rewrite IH.
  pose proof (length_filter (λ c, connWrite c frame = true) conns) as Hle.
  destruct (connWrite c frame) eqn:E.
  - rewrite filter_cons_True by done. done.
  - rewrite filter_cons_False by (by rewrite E).
    cbn [length].
    replace (S (length conns) - length (filter (λ c, connWrite c frame = true) conns))%nat
      with (S (length conns - length (filter (λ c, connWrite c frame = true) conns)))
      by lia.
    done.
Qed.

Lemma filter_all_length {A} (P : A -> Prop) `{!∀ x, Decision (P x)} (l : list A) :
  length (filter P l) = length l -> filter P l = l.
Proof.
  induction l as [|x l IH]; [done|].
  pose proof (length_filter P l) as Hle.
  destruct (decide (P x)) as [HP|HP].
  - rewrite filter_cons_True by done. cbn [length]. intros [= Hl]. by rewrite IH.
  - rewrite filter_cons_False by done. cbn [length]. lia.
Qed.

(** What [writeUpdate] writes with the lock free: the frame, to each
    subscriber whose [Write] succeeds. *)
Lemma writeUpdate_sent s update :
  locked s = false ->
  let frame := update ++ replicate (256 - length update mod 256) x00 in
  (writeUpdate connWrite s update).1.2
  = (λ c, (c, frame)) <$> filter (λ c, connWrite c frame = true) (connections s).
Proof.
  intros Hlock frame. unfold writeUpdate. rewrite Hlock.
  assert (Hm : (length update mod 256 < 256)%nat)
    by (apply Nat.mod_upper_bound; lia).
  replace (256 - (256 - length update mod 256))%nat
    with (length update mod 256)%nat by lia.
  unfold zeros. rewrite drop_replicate. fold frame.
  cbn [lastUpdate connections set_lastUpdate].
  rewrite write_all_filter. by case_bool_decide.
Qed.

(** X5: [writeUpdate] with the lock free keeps as subscribers exactly the
    connections whose [Write] of the frame succeeds, in their order, writes
    the frame once to each of them, prints one line for each subscriber
    dropped, and remembers the frame as the last update. *)
Theorem writeUpdate_drops_dead_subscribers s update :
  locked s = false ->
  let frame := update ++ replicate (256 - length update mod 256) x00 in
  let live := filter (λ c, connWrite c frame = true) (connections s) in
  writeUpdate connWrite s update
  = (set_connections live (set_lastUpdate frame s),
     (λ c, (c, frame)) <$> live,
     replicate (length (connections s) - length live)
       "  Info  - Disconnected stats client").
Proof.
  intros Hlock frame live. unfold writeUpdate. rewrite Hlock.
  assert (Hm : (length update mod 256 < 256)%nat)
    by (apply Nat.mod_upper_bound; lia).
  replace (256 - (256 - length update mod 256))%nat
    with (length update mod 256)%nat by lia.
  unfold zeros. rewrite drop_replicate. fold frame.
  cbn [lastUpdate connections set_lastUpdate].
  rewrite write_all_filter. fold live.
  case_bool_decide as Hlen; [done|].
  apply filter_all_length in Hlen.
  fold live in Hlen. rewrite Hlen. unfold set_connections, set_lastUpdate.
  by cbn.
Qed.

(** X6: the frame that [writeUpdate] remembers and sends starts with the
    update, its length is a multiple of 256 larger than the length of the
    update by 1 to 256 bytes, and its last byte is zero: also an update of
    256 bytes, or an empty one, gets its closing zero byte. *)
Theorem writeUpdate_frame_shape s update :
  locked s = false ->
  let frame := lastUpdate (writeUpdate connWrite s update).1.1 in
  take (length update) frame = update /\
  (length frame mod 256 = 0)%nat /\
  (length update < length frame <= length update + 256)%nat /\
  last frame = Some x00.
Proof.
  intros Hlock frame. subst frame. rewrite writeUpdate_frame by done.
  assert (Hm : (length update mod 256 < 256)%nat)
    by (apply Nat.mod_upper_bound; lia).
  pose proof (Nat.div_mod_eq (length update) 256) as Hdm.
  rewrite length_app, length_replicate. split_and!.
  - by rewrite take_app_length.
  - replace (length update + (256 - length update mod 256))%nat
      with ((1 + length update / 256) * 256)%nat by lia.
    apply Nat.Div0.mod_mul.
  - lia.
  - lia.
  - replace (256 - length update mod 256)%nat
      with (S (255 - length update mod 256)) by lia.
    rewrite replicate_S_end, app_assoc. apply last_snoc.
Qed.

(** X7: a subscriber that connects after an update was written is sent the
    frame of that update at once, and it alone; it is appended to the
    subscribers. A subscriber that connects before any update is sent
    nothing. *)
Theorem late_subscriber_gets_last_frame s update conn :
  locked s = false ->
  let s1 := (writeUpdate connWrite s update).1.1 in
  addConnection s1 conn
  = (set_connections (connections s1 ++ [conn]) s1,
     [(conn, update ++ replicate (256 - length update mod 256) x00)]) /\
  (lastUpdate s = [] -> (addConnection s conn).2 = []).
Proof.
  intros Hlock s1. split.
  - unfold addConnection.
    pose proof (writeUpdate_frame connWrite s update Hlock) as Hf.
    fold s1 in Hf. rewrite Hf.
    rewrite bool_decide_eq_true_2; [done|].
    rewrite length_app, length_replicate.
    assert (length update mod 256 < 256)%nat
      by (apply Nat.mod_upper_bound; lia).
    lia.
  - intros Hnone. unfold addConnection. by rewrite Hnone.
Qed.

End PublisherProperties.

Lemma writeUpdate_drops_dead_subscribers_witness :
  writeUpdate (λ c _, bool_decide (c ≠ 2%nat))
    (set_connections [1; 2; 3]%nat (NewStats 2663)) ex_json
  = (set_connections [1; 3]%nat
       (set_lastUpdate
          (ex_json ++ replicate (256 - length ex_json mod 256) x00)
          (set_connections [1; 2; 3]%nat (NewStats 2663))),
     (λ c, (c, ex_json ++ replicate (256 - length ex_json mod 256) x00))
       <$> [1; 3]%nat,
     ["  Info  - Disconnected stats client"]).
Proof.
  exact (writeUpdate_drops_dead_subscribers (λ c _, bool_decide (c ≠ 2%nat))
           (set_connections [1; 2; 3]%nat (NewStats 2663)) ex_json eq_refl).
Defined.

Lemma writeUpdate_frame_shape_witness :
  let frame :=
    lastUpdate (writeUpdate (λ _ _, true) (NewStats 2663) (replicate 256 x41)).1.1 in
  take 256 frame = replicate 256 x41 /\
  (length frame mod 256 = 0)%nat /\
  (256 < length frame <= 256 + 256)%nat /\
  last frame = Some x00.
Proof.
  exact (writeUpdate_frame_shape (λ _ _, true) (NewStats 2663)
           (replicate 256 x41) eq_refl).
Defined.

Lemma late_subscriber_gets_last_frame_witness :
  let s1 := (writeUpdate (λ _ _, true) (NewStats 2663) ex_json).1.1 in
  addConnection s1 5%nat
  = (set_connections (connections s1 ++ [5%nat]) s1,
     [(5%nat, ex_json ++ replicate (256 - length ex_json mod 256) x00)]) /\
  (lastUpdate (NewStats 2663) = [] ->
   (addConnection (NewStats 2663) 5%nat).2 = []).
Proof.
  exact (late_subscriber_gets_last_frame (λ _ _, true) (NewStats 2663) ex_json
           5%nat eq_refl).
Defined.

(** ** The subscriber: when it panics, and what it prints *)

Lemma full_reads_app k : ∀ m a b,
  length a = (256 * k)%nat ->
  full_reads (k + m) (a ++ b) = full_reads k a ++ full_reads m b.
Proof.
  induction k as [|k IH]; intros m a b Hlen.
  - destruct a; [done|]. simpl in Hlen. lia.
  - cbn [Nat.add full_reads app].
    rewrite take_app_le, drop_app_le by lia.
    rewrite IH; [done|]. rewrite length_drop. lia.
Qed.

Lemma frame_length (update : list byte) :
  length (update ++ replicate (256 - length update mod 256) x00)
  = (256 * S (length update / 256))%nat.
Proof.
  rewrite length_app, length_replicate.
  assert (length update mod 256 < 256)%nat by (apply Nat.mod_upper_bound; lia).
  pose proof (Nat.div_mod_eq (length update) 256). lia.
Qed.

Lemma frame_quotient (update : list byte) :
  (256 * (length update / 256) <= length update
   < 256 * (length update / 256) + 256)%nat.
Proof.
  pose proof (Nat.div_mod_eq (length update) 256).
  assert (length update mod 256 < 256)%nat by (apply Nat.mod_upper_bound; lia).
  lia.
Qed.

Section SubscriberProperties.

Variable Unmarshal : list byte -> option (list (option TunnelStats)).

Lemma print_rows_ok (ts : list (option TunnelStats)) :
  Forall is_Some ts -> (print_rows ts).2 = true.
Proof.
  induction 1 as [|t ts [t' ->] _ IH]; [done|].
  cbn [print_rows]. by destruct (print_rows ts).
Qed.

Lemma print_rows_null (ts1 : list TunnelStats) ts2 :
  print_rows ((Some <$> ts1) ++ None :: ts2) = (row_of <$> ts1, false).
Proof.
  induction ts1 as [|t ts1 IH]; [done|].
  rewrite fmap_cons. cbn [app print_rows]. by rewrite IH.
Qed.

(** A read of 1 to 256 bytes, with no null among the records parsed, ends
    no turn of the loop with a panic. *)
Lemma receive_step_safe r data :
  length (bs r) = 256%nat ->
  (0 < length data <= 256)%nat ->
  (∀ text ts, Unmarshal text = Some ts -> Forall is_Some ts) ->
  ∃ r' out, receive_step Unmarshal r (ReadOk data) = Continue r' out /\
    length (bs r') = 256%nat.
Proof.
  intros Hbs Hlen Hnull. unfold receive_step.
  set (bs' := data ++ drop (length data) (bs r)).
  assert (Hbs' : length bs' = 256%nat).
  { unfold bs'. rewrite length_app, length_drop. lia. }
  destruct (length data) as [|m] eqn:Hn; [lia|].
  destruct (bs' !! m) as [last|] eqn:Hlast;
    [|apply lookup_ge_None in Hlast; lia].
  rewrite bool_decide_eq_true_2 by lia.
  destruct (Byte.eqb last x00) eqn:E; [|by eexists _, _].
  apply Byte.byte_dec_bl in E. subst last.
  assert (Hin : x00 ∈ str r ++ bs').
  { apply elem_of_app. right. by eapply list_elem_of_lookup_2. }
  destruct (IndexByte_elem _ _ Hin) as [index ->].
  destruct (Unmarshal (take index (str r ++ bs'))) as [ts|] eqn:Hu;
    [|by eexists _, _].
  pose proof (print_rows_ok ts (Hnull _ _ Hu)) as Hok.
  destruct (print_rows ts) as [rows ok]. cbn in Hok. subst ok.
  by eexists _, _.
Qed.

Lemma receive_loop_safe reads : ∀ r,
  length (bs r) = 256%nat ->
  Forall (λ rd, match rd with
                | ReadOk data => (0 < length data <= 256)%nat
                | ReadErr => True
                end) reads ->
  (∀ text ts, Unmarshal text = Some ts -> Forall is_Some ts) ->
  match (receive_loop Unmarshal r reads).2 with
  | Panicked => False
  | Returned => ReadErr ∈ reads
  | Waiting _ => ReadErr ∉ reads
  end.
Proof.
  induction reads as [|rd reads IH]; intros r Hbs Hreads Hnull.
  - cbn. by intros ?%elem_of_nil.
  - apply Forall_cons in Hreads as [Hrd Hreads]. cbn [receive_loop].
    destruct rd as [|data].
    + cbn. left.
    + destruct (receive_step_safe r data Hbs Hrd Hnull) as (r' & out & -> & Hbs').
      specialize (IH r' Hbs' Hreads Hnull).
      destruct (receive_loop Unmarshal r' reads) as [out' e]. cbn in *.
      destruct e; [by right|done|].
      intros [?|?]%elem_of_cons; [done|by apply IH].
Qed.

(** X8: [receiveStats] on reads that each bring 1 to 256 bytes or an
    error, with a parser that yields no null record: it never panics; it
    returns when a read fails, and else waits for the next read. *)
Theorem receiveStats_does_not_panic reads :
  Forall (λ rd, match rd with
                | ReadOk data => (0 < length data <= 256)%nat
                | ReadErr => True
                end) reads ->
  (∀ text ts, Unmarshal text = Some ts -> Forall is_Some ts) ->
  match (receiveStats Unmarshal reads).2 with
  | Panicked => False
  | Returned => ReadErr ∈ reads
  | Waiting _ => ReadErr ∉ reads
  end.
Proof.
  intros Hreads Hnull. unfold receiveStats.
  pose proof (receive_loop_safe reads receiver_start eq_refl Hreads Hnull) as H.
  by destruct (receive_loop Unmarshal receiver_start reads).
Qed.

(** X9: the two ways [receiveStats] panics. A read that brings no byte and
    no error: the byte before the first one of the buffer is looked at. A
    frame whose document has a null among its records: the header and the
    rows of the records before the null are printed, then the nil record
    is dereferenced. In both cases the reads that follow are never made. *)
Theorem receiveStats_panics r rest :
  receive_loop Unmarshal r (ReadOk [] :: rest) = ([], Panicked) /\
  ∀ data ts1 ts2,
    last data = Some x00 ->
    Unmarshal (frame_payload (str r ++ data ++ drop (length data) (bs r)))
    = Some ((Some <$> ts1) ++ None :: ts2) ->
    receive_loop Unmarshal r (ReadOk data :: rest)
    = (table_header :: (row_of <$> ts1), Panicked).
Proof.
  split; [done|]. intros data ts1 ts2 Hlast Hu. cbn [receive_loop].
  rewrite receive_step_close by done. cbv zeta. rewrite Hu.
  by rewrite print_rows_null.
Qed.

(** X10: two frames that arrive back to back on the connection are printed
    one after the other, each under its own header, and nothing of the
    first is left over in the second. *)
Theorem two_frames_printed_in_order update1 update2 ts1 ts2 :
  Forall (λ b, b ≠ x00) update1 ->
  Forall (λ b, b ≠ x00) update2 ->
  Unmarshal update1 = Some (Some <$> ts1) ->
  Unmarshal update2 = Some (Some <$> ts2) ->
  let frame update := update ++ replicate (256 - length update mod 256) x00 in
  ∃ r, str r = [] /\
    receiveStats Unmarshal (deliver (frame update1 ++ frame update2))
    = (Text "ferret already running"
         :: table_header :: (row_of <$> ts1)
         ++ table_header :: (row_of <$> ts2),
       Waiting r).
Proof.
  intros Hnz1 Hnz2 Hu1 Hu2 frame. subst frame. cbv beta.
  set (f1 := update1 ++ replicate (256 - length update1 mod 256) x00).
  set (f2 := update2 ++ replicate (256 - length update2 mod 256) x00).
  assert (Hd : deliver (f1 ++ f2)
               = full_reads (S (length update1 / 256)) f1
                 ++ full_reads (S (length update2 / 256)) f2 ++ []).
  { unfold deliver. rewrite app_nil_r, length_app. unfold f1, f2.
    rewrite !frame_length.
    replace ((256 * S (length update1 / 256) + 256 * S (length update2 / 256)) / 256)%nat
      with (S (length update1 / 256) + S (length update2 / 256))%nat.
    - apply full_reads_app, frame_length.
    - replace (256 * S (length update1 / 256) + 256 * S (length update2 / 256))%nat
        with ((S (length update1 / 256) + S (length update2 / 256)) * 256)%nat
        by lia.
      by rewrite Nat.div_mul. }
  rewrite Hd. unfold receiveStats.
  destruct (receive_loop_frame Unmarshal (length update1 / 256) receiver_start
              update1
              (full_reads (S (length update2 / 256)) f2 ++ [])
              eq_refl (Forall_nil_2 _) Hnz1 (frame_quotient update1))
    as (buf1 & Hbuf1 & Heq1).
  fold f1 in Heq1. rewrite Heq1. clear Heq1.
  cbn [str receiver_start app]. rewrite Hu1, print_rows_Some.
  destruct (receive_loop_frame Unmarshal (length update2 / 256)
              {| bs := buf1; str := [] |} update2 [] Hbuf1 (Forall_nil_2 _)
              Hnz2 (frame_quotient update2))
    as (buf2 & Hbuf2 & Heq2).
  fold f2 in Heq2. rewrite Heq2. clear Heq2.
  cbn [str app]. rewrite Hu2, print_rows_Some.
  cbn [receive_loop]. rewrite app_nil_r.
  by exists {| bs := buf2; str := [] |}.
Qed.

End SubscriberProperties.

Lemma receiveStats_does_not_panic_witness :
  match (receiveStats ex_Unmarshal
           [ReadOk (replicate 256 x41); ReadOk [x00]; ReadErr]).2 with
  | Panicked => False
  | Returned =>
      ReadErr ∈ [ReadOk (replicate 256 x41); ReadOk [x00]; ReadErr]
  | Waiting _ =>
      ReadErr ∉ [ReadOk (replicate 256 x41); ReadOk [x00]; ReadErr]
  end.
Proof.
  apply (receiveStats_does_not_panic ex_Unmarshal
           [ReadOk (replicate 256 x41); ReadOk [x00]; ReadErr]).
  - repeat constructor; cbn; lia.
  - intros text ts. unfold ex_Unmarshal. case_bool_decide; [|done].
    intros [= <-]. repeat constructor. by eexists.
Defined.

Lemma receiveStats_panics_witness :
  receive_loop (λ _, Some [Some ex_stats; None]) receiver_start
    [ReadOk (replicate 256 x00); ReadErr]
  = (table_header :: (row_of <$> [ex_stats]), Panicked).
Proof.
  apply (proj2 (receiveStats_panics (λ _, Some [Some ex_stats; None])
                  receiver_start [ReadErr])
           (replicate 256 x00) [ex_stats] []); reflexivity.
Defined.

Lemma two_frames_printed_in_order_witness :
  ∃ r, str r = [] /\
    receiveStats ex_Unmarshal
      (deliver ((ex_json ++ replicate (256 - length ex_json mod 256) x00)
                ++ (ex_json ++ replicate (256 - length ex_json mod 256) x00)))
    = (Text "ferret already running"
         :: table_header :: (row_of <$> [ex_stats])
         ++ table_header :: (row_of <$> [ex_stats]),
       Waiting r).
Proof.
  apply (two_frames_printed_in_order ex_Unmarshal ex_json ex_json
           [ex_stats] [ex_stats]).
  - vm_compute. repeat constructor; discriminate.
  - vm_compute. repeat constructor; discriminate.
  - reflexivity.
  - reflexivity.
Defined.

(** ** The broadcaster: when a signal is answered *)

Section BroadcasterTiming.

Variable connWrite : Conn -> list byte -> bool.
Variable Marshal : list TunnelStats -> option (list byte).
Variable tunnelStats : Z -> list TunnelStats.

(** The broadcaster after a signal that starts a task. *)
Lemma on_signal_starts now b :
  updated (mgr b) = false -> connections (mgr b) ≠ [] ->
  on_signal now b
  = {| mgr := set_updated true (mgr b); lastBroadcast := lastBroadcast b;
       sleeper := Some (wake_time now b); finished := finished b |}.
Proof.
  intros Hup Hconn. unfold on_signal. rewrite Hup. cbn [negb].
  rewrite bool_decide_eq_true_2
    by (cbn [set_updated connections]; destruct (connections (mgr b));
        [done|simpl; lia]).
  unfold wake_time. cbv zeta.
  destruct (0 <? lastBroadcast b + interval - now); [|done].
  by replace (now + (lastBroadcast b + interval - now))
    with (lastBroadcast b + interval) by lia.
Qed.

Lemma wake_time_later now b : now < wake_time now b.
Proof.
  unfold wake_time. destruct (0 <? lastBroadcast b + interval - now) eqn:E.
  - apply Z.ltb_lt in E. lia.
  - unfold Second. lia.
Qed.

(** Signals that arrive while the task sleeps change nothing. *)
Lemma signals_asleep more : ∀ b wake,
  finished b = false -> updated (mgr b) = true -> sleeper b = Some wake ->
  Forall (λ te, te.2 = Signal /\ te.1 < wake) more ->
  run_events connWrite Marshal tunnelStats b more = (b, []).
Proof.
  induction more as [|[t e] more IH]; intros b wake Hfin Hup Hsl Hmore; [done|].
  apply Forall_cons in Hmore as [[He Ht] Hmore]. cbn in He, Ht. subst e.
  cbn [run_events]. unfold advance. rewrite Hsl.
  rewrite (proj2 (Z.leb_gt _ _)) by done.
  cbn [handle]. rewrite Hfin. unfold on_signal. rewrite Hup. cbn [negb].
  by rewrite (IH b wake).
Qed.

(** X11: whatever the events and their times, the first broadcast of
    [statsBroadcaster] is no sooner than its start, and each next one comes
    at least [interval] (5 s) after the one before. *)
Theorem broadcasts_keep_interval s t0 evs till :
  spaced_from (t0 - interval)
    (broadcasts_until connWrite Marshal tunnelStats till
       (broadcaster_start s t0) evs).
Proof.
  apply (broadcasts_spaced connWrite Marshal tunnelStats evs
           (broadcaster_start s t0) till).
  by intros wake [=].
Qed.

(** X12: a signal taken by an idle broadcaster with a subscriber is
    answered by one broadcast: [interval] after the last broadcast if that
    moment is still to come (be it less than a second away), else one
    second after the signal. Nothing goes out before; the broadcast is the
    frame of the statistics as they stand at that moment, written to the
    subscribers whose [Write] succeeds. *)
Theorem signal_answered_once b now update :
  finished b = false -> updated (mgr b) = false -> sleeper b = None ->
  connections (mgr b) ≠ [] -> locked (mgr b) = false ->
  let wake := wake_time now b in
  Marshal (tunnelStats wake) = Some update ->
  let frame := update ++ replicate (256 - length update mod 256) x00 in
  (∀ till, till < wake ->
     broadcasts_until connWrite Marshal tunnelStats till b [(now, Signal)] = []) /\
  broadcasts_until connWrite Marshal tunnelStats wake b [(now, Signal)]
  = [(wake,
      (λ c, (c, frame))
        <$> filter (λ c, connWrite c frame = true) (connections (mgr b)))].
Proof.
  intros Hfin Hup Hsl Hconn Hlock wake Hm frame.
  assert (Hrun : run_events connWrite Marshal tunnelStats b [(now, Signal)]
                 = (on_signal now b, [])).
  { cbn [run_events]. unfold advance. rewrite Hsl. cbn [handle].
    by rewrite Hfin. }
  unfold broadcasts_until. rewrite Hrun, on_signal_starts by done. split.
  - intros till Htill. unfold advance. cbn [sleeper].
    by rewrite (proj2 (Z.leb_gt _ _)) by done.
  - unfold advance. cbn [sleeper]. fold wake. rewrite Z.leb_refl.
    unfold sender_wakes. rewrite Hm. cbn [mgr].
    pose proof (writeUpdate_sent connWrite (set_updated true (mgr b)) update
                  Hlock) as Hsent.
    destruct (writeUpdate connWrite (set_updated true (mgr b)) update)
      as [[m sent] out].
    cbn in Hsent. by rewrite Hsent.
Qed.

(** X13: signals that arrive while the task of an earlier signal sleeps
    are dropped: the broadcasts are those of the first signal alone. *)
Theorem signals_coalesce b now more till :
  finished b = false -> updated (mgr b) = false -> sleeper b = None ->
  connections (mgr b) ≠ [] ->
  Forall (λ te, te.2 = Signal /\ te.1 < wake_time now b) more ->
  broadcasts_until connWrite Marshal tunnelStats till b ((now, Signal) :: more)
  = broadcasts_until connWrite Marshal tunnelStats till b [(now, Signal)].
Proof.
  intros Hfin Hup Hsl Hconn Hmore. unfold broadcasts_until.
  cbn [run_events]. unfold advance at 1 3. rewrite Hsl. cbn [handle].
  rewrite Hfin, on_signal_starts by done.
  by rewrite (signals_asleep more _ (wake_time now b)).
Qed.

End BroadcasterTiming.

Lemma signal_answered_once_witness :
  let b := broadcaster_start (set_connections [1%nat] (NewStats 2663)) 0 in
  (∀ till, till < 3 * Second ->
     broadcasts_until (λ _ _, true) ex_Marshal (λ _, [ex_stats]) till b
       [(2 * Second, Signal)] = []) /\
  broadcasts_until (λ _ _, true) ex_Marshal (λ _, [ex_stats]) (3 * Second) b
    [(2 * Second, Signal)]
  = [(3 * Second,
      [(1%nat, ex_json ++ replicate (256 - length ex_json mod 256) x00)])].
Proof.
  apply (signal_answered_once (λ _ _, true) ex_Marshal (λ _, [ex_stats])
           (broadcaster_start (set_connections [1%nat] (NewStats 2663)) 0)
           (2 * Second) ex_json); reflexivity || done.
Defined.

Lemma signals_coalesce_witness :
  let b := broadcaster_start (set_connections [1%nat] (NewStats 2663)) 0 in
  broadcasts_until (λ _ _, true) ex_Marshal (λ _, [ex_stats]) (60 * Second) b
    [(2 * Second, Signal); (2 * Second + 1, Signal); (2 * Second + 2, Signal)]
  = broadcasts_until (λ _ _, true) ex_Marshal (λ _, [ex_stats]) (60 * Second) b
      [(2 * Second, Signal)].
Proof.
  apply (signals_coalesce (λ _ _, true) ex_Marshal (λ _, [ex_stats])
           (broadcaster_start (set_connections [1%nat] (NewStats 2663)) 0)
           (2 * Second)
           [(2 * Second + 1, Signal); (2 * Second + 2, Signal)]
           (60 * Second)); try reflexivity; try done.
  repeat constructor.
Defined.

(** ** The relay loop: a whole transfer, and where its error comes from *)

Lemma wrap64_range z : min_int64 <= wrap64 z <= max_int64.
Proof.
  unfold wrap64, min_int64, max_int64.
  pose proof (Z.mod_pos_bound (z + 2 ^ 63) (2 ^ 64)). lia.
Qed.

Lemma wrap64_add_l x y : wrap64 (wrap64 x + y) = wrap64 (x + y).
Proof.
  unfold wrap64. f_equal.
  replace ((x + 2 ^ 63) mod 2 ^ 64 - 2 ^ 63 + y + 2 ^ 63)
    with ((x + 2 ^ 63) mod 2 ^ 64 + y) by lia.
  rewrite Zplus_mod_idemp_l. f_equal. lia.
Qed.

(** A clean turn: the counter of the direction takes the bytes, one signal
    is sent, and the loop goes on. *)
Lemma copy_turn_clean read s io :
  clean io ->
  ∃ s', copy_turn (Some s) read io = (Some s', 1%nat, Next) /\
    counter read s' = wrap64 (counter read s + nr io) /\
    other_counter read s' = other_counter read s.
Proof.
  intros (Hnr & Hnw & Hew & Her). unfold copy_turn.
  rewrite (proj2 (Z.ltb_lt _ _)) by done. rewrite Hnw, Hew, Her.
  rewrite (proj2 (Z.ltb_ge _ _)) by lia. rewrite Z.ltb_irrefl. cbn [orb].
  rewrite bool_decide_eq_false_2 by (by intros []).
  eexists. split; [done|]. by destruct read.
Qed.

(** X14: a transfer in which every turn is clean and the reader then
    reports the end of the stream: [copy] returns nil, it has sent one
    signal for each turn, the counter of its direction has grown by the
    bytes read (as a 64-bit number) and the other one is as it was. *)
Theorem copy_clean_transfer read ios : ∀ s eof,
  Forall clean ios ->
  nr eof = 0 -> er eof = Some EOF ->
  min_int64 <= counter read s <= max_int64 ->
  ∃ s', copy (Some s) read (ios ++ [eof])
        = (Some s', length ios, CopyReturned None) /\
    counter read s' = wrap64 (counter read s + total_read ios) /\
    other_counter read s' = other_counter read s.
Proof.
  induction ios as [|io ios IH]; intros s eof Hclean Hnr Her Hrange.
  - exists s. cbn [app copy]. unfold copy_turn. rewrite Hnr, Her. cbn.
    split; [done|]. split; [|done].
    rewrite Z.add_0_r. by rewrite wrap64_in_range.
  - apply Forall_cons in Hclean as [Hio Hclean].
    destruct (copy_turn_clean read s io Hio) as (s1 & E1 & Hc1 & Ho1).
    destruct (IH s1 eof Hclean Hnr Her) as (s' & E & Hc & Ho).
    { rewrite Hc1. apply wrap64_range. }
    exists s'. cbn [app copy]. rewrite E1, E. split; [done|].
    split; [|congruence].
    rewrite Hc, Hc1, wrap64_add_l. cbn [total_read foldr]. f_equal.
    fold (total_read ios). lia.
Qed.

(** X15: where an error that [copy] returns comes from: it is the error of
    a [Write], or that of a [Read] and then not [io.EOF], or one of the two
    errors that [copy] makes itself of the count of a [Write]. So [copy]
    returns [io.EOF] only when a [Write] returned it. *)
Theorem copy_error_origin stats read ios stats' k e :
  copy stats read ios = (stats', k, CopyReturned (Some e)) ->
  e = ErrShortWrite \/ e = errInvalidWrite \/
  ∃ io, io ∈ ios /\
    ((0 < nr io /\ ew io = Some e) \/ (er io = Some e /\ e ≠ EOF)).
Proof.
  revert stats stats' k. induction ios as [|io ios IH]; intros stats stats' k;
    [done|].
  cbn [copy]. destruct (copy_turn stats read io) as [[s1 n] f] eqn:E.
  destruct f as [|err].
  - destruct (copy s1 read ios) as [[s2 m] e2] eqn:E2. intros [= <- <- ->].
    destruct (IH _ _ _ E2) as [?|[?|(io' & Hin & H)]]; [by left|by right; left|].
    right; right. exists io'. split; [by right|done].
  - intros [= <- <- ->]. revert E. unfold copy_turn.
    assert (Hread : ∀ s (m : nat),
              (s, m, match er io with
                     | Some e0 => Break (if bool_decide (e0 ≠ EOF)
                                         then Some e0 else None)
                     | None => Next
                     end) = (s1, n, Break (Some e)) ->
              er io = Some e /\ e ≠ EOF).
    { intros s m. destruct (er io) as [e0|]; [|done].
      case_bool_decide; [|done]. by intros [= <- <- <-]. }
    destruct (0 <? nr io) eqn:Hpos.
    + apply Z.ltb_lt in Hpos.
      destruct ((nw io <? 0) || (nr io <? nw io)) eqn:Hc.
      * destruct (ew io) as [e0|] eqn:Hew.
        -- destruct stats; intros [= <- <- <-]; right; right; exists io;
             (split; [left|by left]).
        -- destruct stats; intros [= <- <- <-]; by right; left.
      * destruct (ew io) as [e0|] eqn:Hew.
        -- destruct stats; intros [= <- <- <-]; right; right; exists io;
             (split; [left|by left]).
        -- destruct stats; (case_bool_decide; [intros [= <- <- <-]; by left|]);
             intros Hr%Hread; right; right; exists io; (split; [left|by right]).
    + intros Hr%Hread. right; right. exists io. split; [left|by right].
Qed.

(** X16: the statistics do not steer the relay: with [t.stats] nil, [copy]
    sends no signal, and it ends after the same turns with the same error
    as it does with statistics. *)
Theorem copy_stats_do_not_steer read ios : ∀ s,
  copy None read ios = (None, 0%nat, (copy (Some s) read ios).2).
Proof.
  induction ios as [|io ios IH]; intros s; [done|].
  cbn [copy]. pose proof (copy_turn_flow_stats None (Some s) read io) as Hf.
  assert (Hnone : ∃ f, copy_turn None read io = (None, 0%nat, f)).
  { unfold copy_turn. destruct (0 <? nr io); [|by eexists].
    destruct (if (nw io <? 0) || (nr io <? nw io) then _ else _) as [n e].
    destruct e; [by eexists|]. case_bool_decide; by eexists. }
  destruct Hnone as [f Hnone]. rewrite Hnone in *.
  destruct (copy_turn (Some s) read io) as [[s1 n] f1] eqn:E1.
  cbn in Hf. subst f1.
  assert (Hs1 : ∃ s1', s1 = Some s1').
  { revert E1. unfold copy_turn.
    destruct (0 <? nr io); [|intros [= <- _ _]; by eexists].
    destruct (if (nw io <? 0) || (nr io <? nw io) then _ else _) as [n' e].
    destruct e; [intros [= <- _ _]; by eexists|].
    case_bool_decide; intros [= <- _ _]; by eexists. }
  destruct Hs1 as [s1' ->].
  destruct f; [|done].
  rewrite (IH s1'). by destruct (copy (Some s1') read ios) as [[? ?] ?].
Qed.

Lemma copy_clean_transfer_witness :
  ∃ s', copy (Some ex_stats) true
          ([ {| nr := 10; er := None; nw := 10; ew := None; written := 10 |};
             {| nr := 5; er := None; nw := 5; ew := None; written := 5 |} ]
           ++ [ {| nr := 0; er := Some EOF; nw := 0; ew := None; written := 0 |} ])
        = (Some s', 2%nat, CopyReturned None) /\
    counter true s' = wrap64 (counter true ex_stats + 15) /\
    other_counter true s' = other_counter true ex_stats.
Proof.
  apply (copy_clean_transfer true
           [ {| nr := 10; er := None; nw := 10; ew := None; written := 10 |};
             {| nr := 5; er := None; nw := 5; ew := None; written := 5 |} ]
           ex_stats
           {| nr := 0; er := Some EOF; nw := 0; ew := None; written := 0 |}).
  - repeat constructor.
  - reflexivity.
  - reflexivity.
  - vm_compute. split; discriminate.
Defined.

Lemma copy_error_origin_witness :
  OtherError "reset" = ErrShortWrite \/ OtherError "reset" = errInvalidWrite \/
  ∃ io, io ∈ [ {| nr := 10; er := Some EOF; nw := 10;
                  ew := Some (OtherError "reset"); written := 10 |} ] /\
    ((0 < nr io /\ ew io = Some (OtherError "reset")) \/
     (er io = Some (OtherError "reset") /\ OtherError "reset" ≠ EOF)).
Proof.
  apply (copy_error_origin (Some ex_stats) true
           [ {| nr := 10; er := Some EOF; nw := 10;
                ew := Some (OtherError "reset"); written := 10 |} ]
           (Some (add_Received 10 ex_stats)) 1%nat (OtherError "reset")).
  reflexivity.
Defined.

(** ** Sessions: [Host.Open] keeps what it has *)

(** X17: [Host.Open] dials once. On a host whose [Open] returned true, the
    next [Open] returns true whatever the network and the address of the
    host are by then: it neither dials nor reads the address, prints
    nothing and leaves the host as it is. On a host whose [Open] returned
    false no client is kept, so the next [Open] dials again. *)
Theorem Host_Open_dials_once
    (sshDial : string -> option ClientConfig -> Client + string) w h h' ok out :
  Host_Open sshDial w h = Ok (h', ok, out) ->
  if ok
  then ∀ sshDial' w', Host_Open sshDial' w' h' = Ok (h', true, [])
  else client h' = None /\
       ∀ sshDial' w' a,
         Host_Address h' ≫= (store w' !!.) = Some a ->
         Host_Open sshDial' w' h'
         = match sshDial' (address a) (config h') with
           | inl c => Ok (set_client (Some c) h', true, [])
           | inr err =>
               Ok (set_client None h', false,
                   ["  Error - failed to connect to remote address: " +:+ err])
           end.
Proof.
  unfold Host_Open. destruct (client h) as [c|] eqn:Hc.
  - intros [= <- <- <-]. intros sshDial' w'. by rewrite Hc.
  - destruct (Host_Address h ≫= _) as [a|]; [|done].
    destruct (sshDial (address a) (config h)) as [c|err]; intros [= <- <- <-].
    + by intros sshDial' w'.
    + split; [done|]. intros sshDial' w' a' Ha'.
      cbn [client Host_Address config set_client] in *. by rewrite Ha'.
Qed.

Lemma Host_Open_dials_once_witness :
  Host_Open (λ _ _, inr "unreachable") (world_start [])
    (set_client (Some 1%nat) (ex_host "A" (Some 0%nat) ""))
  = Ok (set_client (Some 1%nat) (ex_host "A" (Some 0%nat) ""), true, []).
Proof.
  exact (Host_Open_dials_once (λ _ _, inl 1%nat) ex_world
           (ex_host "A" (Some 0%nat) "") _ true [] eq_refl
           (λ _ _, inr "unreachable") (world_start [])).
Defined.

(** ** What [Host.Validate] accepts *)

Section HostValidation.

Variable verboseFlag : bool.
Variable osStat : string -> StatResult.
Variable knownhostsNew : string -> Loaded HostKeyCallback.
Variable osReadFile : string -> Loaded (list byte).
Variable ParsePrivateKey : list byte -> option string -> Signer + string.
Variable Address_Validate :
  string -> string -> string -> bool -> bool -> Address ->
  Address * bool * list string.

Lemma load_known_hosts_valid h w valid w' :
  load_known_hosts osStat knownhostsNew h w valid = Ok (w', true) ->
  valid = true /\ is_Some (hostKeysMap w' !! KnownHosts h) /\
  identityMap w' = identityMap w.
Proof.
  unfold load_known_hosts.
  destruct (hostKeysMap w !! KnownHosts h) eqn:Hk;
    [intros [= <- <-]; by rewrite Hk|].
  destruct (osStat (KnownHosts h)); try done.
  destruct (knownhostsNew (KnownHosts h)); try done.
  intros [= <- <-]. cbn. by rewrite lookup_insert_eq.
Qed.

Lemma load_identity_valid h w valid w' h' :
  load_identity osStat osReadFile ParsePrivateKey h w valid = Ok (w', h', true) ->
  valid = true /\ is_Some (identityMap w' !! Identity h) /\
  Identity h' = Identity h /\ Username h' = Username h.
Proof.
  unfold load_identity.
  destruct (identityMap w !! Identity h) eqn:Hi;
    [intros [= <- <- <-]; by rewrite Hi|].
  destruct (osStat (Identity h)); try done.
  destruct (osReadFile (Identity h)); try done.
  destruct (if bool_decide _ then _ else _); try done.
  intros [= <- <- <-]. cbn. by rewrite lookup_insert_eq.
Qed.

Lemma load_identity_fields h w valid w' h' v :
  load_identity osStat osReadFile ParsePrivateKey h w valid = Ok (w', h', v) ->
  Identity h' = Identity h /\ Username h' = Username h.
Proof.
  unfold load_identity.
  destruct (identityMap w !! Identity h); [by intros [= <- <- <-]|].
  destruct (osStat (Identity h)); [| done | |];
    [by intros [= <- <- <-]|by intros [= <- <- <-]|].
  destruct (osReadFile (Identity h)); try by intros [= <- <- <-].
  destruct (if bool_decide _ then _ else _); by intros [= <- <- <-].
Qed.

Local Abbreviation Host_Validate' :=
  (Host_Validate verboseFlag osStat knownhostsNew osReadFile ParsePrivateKey
     Address_Validate).

(** What the host and the registries are after a call of [Host.Validate]
    that returns, and what holds when it returned true. *)
Lemma Host_Validate_valid defaultUsername h w w' h' valid :
  Host_Validate' defaultUsername h w = Ok (w', h', valid) ->
  Username h' = username_after verboseFlag defaultUsername h /\
  Identity h' = TrimSpace (Identity h) /\
  config h' = Some {| User := Username h';
                      Auth := identityMap w' !! Identity h';
                      HostKeyCallback_of := hostKeysMap w' !! KnownHosts h' |} /\
  (valid = true ->
   TrimSpace (Host_Name h) ≠ "" /\
   Hosts w !! TrimSpace (Host_Name h) = None /\
   TrimSpace (Identity h) ≠ "" /\
   is_Some (identityMap w' !! TrimSpace (Identity h)) /\
   (JumpHost h = "" -> KnownHosts h' = TrimSpace (KnownHosts h) /\
      is_Some (hostKeysMap w' !! TrimSpace (KnownHosts h))) /\
   JumpHost h ≠ TrimSpace (Host_Name h) /\
   ∃ l a, Host_Address h = Some l /\ store w !! l = Some a /\
     address a ≠ "" /\
     (Address_Validate "host" (TrimSpace (Host_Name h)) "address"
        (bool_decide (JumpHost h ≠ "")) true a).1.2 = true).
Proof.
  unfold Host_Validate. cbv zeta.
  destruct (if bool_decide (Host_Name _ = "") then _ else _) as [w1 v1] eqn:E1.
  assert (Q1 : quiet w w1 /\ (v1 = true -> TrimSpace (Host_Name h) ≠ "")).
  { case_bool_decide; injection E1 as <- <-; (split; [auto with quiet|done]). }
  clear E1. destruct Q1 as [Q1 V1].
  destruct (match Hosts w1 !! _ with Some _ => _ | None => _ end)
    as [w2 v2] eqn:E2.
  assert (Q2 : quiet w w2 /\
               (v2 = true -> v1 = true /\
                  Hosts w !! TrimSpace (Host_Name h) = None)).
  { pose proof Q1 as (Hs1 & Hh1 & _).
    destruct (Hosts w1 !! _) eqn:Hl; injection E2 as <- <-.
    - split; [|done]. eapply quiet_trans; [exact Q1|]. auto with quiet.
    - split; [done|]. intros Hv. split; [done|by rewrite <- Hh1]. }
  clear E2 Q1. destruct Q2 as [Q2 V2].
  destruct (if bool_decide _ && verboseFlag then _ else _) as [w3 h3] eqn:E3.
  assert (Q3 : quiet w w3 /\ Host_Name h3 = TrimSpace (Host_Name h) /\
               JumpHost h3 = JumpHost h /\ KnownHosts h3 = KnownHosts h /\
               Identity h3 = Identity h /\ Host_Address h3 = Host_Address h /\
               Username h3 = username_after verboseFlag defaultUsername h).
  { unfold username_after. cbn [Username set_Username set_Host_Name] in E3.
    rewrite TrimSpace_idemp in E3.
    destruct (bool_decide _ && verboseFlag); injection E3 as <- <-;
      (split; [eapply quiet_trans; [exact Q2|]; auto with quiet|done]). }
  clear E3 Q2. destruct Q3 as (Q3 & Hn3 & Hj3 & Hk3 & Hi3 & Ha3 & Hu3).
  destruct (load_known_hosts _ _ _ w3 v2) as [[w4 v4]|] eqn:E4; [|done].
  pose proof (load_known_hosts_inv _ _ _ _ _ _ _ E4) as (Hs4 & Hh4 & Ht4 & Hkk4).
  assert (V4 : v4 = true -> v2 = true /\
                 is_Some (hostKeysMap w4 !! TrimSpace (KnownHosts h))).
  { intros ->. apply load_known_hosts_valid in E4 as (? & Hin & _).
    cbn [KnownHosts set_KnownHosts] in Hin. by rewrite Hk3 in Hin. }
  clear E4. cbn [mbind Result_bind].
  destruct (if bool_decide (Identity _ = "") then _ else _) as [w5 v5] eqn:E5.
  assert (Q5 : quiet w4 w5 /\
               (v5 = true -> v4 = true /\ TrimSpace (Identity h) ≠ "")).
  { cbn [Identity set_Identity set_KnownHosts] in E5. rewrite Hi3 in E5.
    case_bool_decide; injection E5 as <- <-; (split; [auto with quiet|done]). }
  clear E5. destruct Q5 as [Q5 V5].
  destruct (load_identity _ _ _ _ w5 v5) as [[[w6 h6] v6]|] eqn:E6; [|done].
  pose proof (load_identity_inv _ _ _ _ _ _ _ _ _ E6)
    as (Hs6 & Hh6 & Ht6 & Hk6 & Hn6 & Hj6 & Hkh6 & Ha6 & _).
  pose proof (load_identity_fields _ _ _ _ _ _ E6) as [Hi6 Hu6].
  cbn [Host_Name JumpHost KnownHosts Host_Address Identity Username
       set_Identity set_KnownHosts] in Hn6, Hj6, Hkh6, Ha6, Hi6, Hu6.
  rewrite Hi3 in Hi6.
  assert (V6 : v6 = true -> v5 = true /\
                 is_Some (identityMap w6 !! TrimSpace (Identity h))).
  { intros ->. apply load_identity_valid in E6 as (? & Hin & _).
    cbn [Identity set_Identity set_KnownHosts] in Hin. by rewrite Hi3 in Hin. }
  clear E6. cbn [mbind Result_bind].
  next_pair w7 v7 E7.
  assert (Hstore : store w6 = store w).
  { pose proof Q3 as (Hs3 & _). pose proof Q5 as (Hs5 & _). congruence. }
  assert (Q7 : Hosts w7 = Hosts w6 /\ Tunnels w7 = Tunnels w6 /\
               hostKeysMap w7 = hostKeysMap w6 /\
               identityMap w7 = identityMap w6 /\
               (v7 = true -> v6 = true /\
                  ∃ l a, Host_Address h = Some l /\ store w !! l = Some a /\
                    address a ≠ "" /\
                    (Address_Validate "host" (TrimSpace (Host_Name h)) "address"
                       (bool_decide (JumpHost h ≠ "")) true a).1.2 = true)).
  { rewrite Ha6, Ha3, Hn6, Hn3, Hj6, Hj3 in E7.
    destruct (Host_Address h) as [l|]; [|by injection E7 as <- <-].
    unfold nil_or_blank in E7. rewrite Hstore in E7.
    destruct (store w !! l) as [a|] eqn:Hl; [|by injection E7 as <- <-].
    unfold IsBlank in E7. case_bool_decide as Hblank;
      [by injection E7 as <- <-|].
    destruct (validate_at _ _ _ _ _ _ _ _) as [w7' ok] eqn:Ev.
    injection E7 as <- <-.
    pose proof (validate_at_inv _ _ _ _ _ _ _ _ _ _ Ev) as (? & ? & ? & ? & _).
    split_and!; try done. intros Hv. destruct ok; [|done].
    split; [done|]. exists l, a. split_and!; try done.
    revert Ev. unfold validate_at. rewrite Hstore, Hl.
    destruct (Address_Validate _ _ _ _ _ a) as [[a' ok'] out].
    by intros [= _ ->]. }
  clear E7. destruct Q7 as (Hh7 & Ht7 & Hk7 & Hi7 & V7).
  lazymatch goal with
  | |- match ?e with (_, _) => _ end = _ -> _ =>
      destruct e as [[w8 h8] v8] eqn:E8
  end.
  assert (Q8 : quiet w7 w8 /\ Identity h8 = Identity h6 /\
               Username h8 = Username h6 /\
               (JumpHost h = "" -> KnownHosts h8 = KnownHosts h6) /\
               (v8 = true -> v7 = true /\
                  JumpHost h ≠ TrimSpace (Host_Name h))).
  { rewrite Hj6, Hj3, Hn6, Hn3 in E8.
    repeat case_bool_decide; injection E8 as <- <- <-;
      (split_and!; auto with quiet; try done).
    intros ->. split; [done|]. destruct (V7 eq_refl) as [-> _].
    destruct (V6 eq_refl) as [-> _]. destruct (V5 eq_refl) as [-> _].
    destruct (V4 eq_refl) as [-> _]. destruct (V2 eq_refl) as [-> _].
    specialize (V1 eq_refl). congruence. }
  clear E8. destruct Q8 as ((_ & _ & _ & Hk8 & Hi8) & Hid8 & Hu8 & Hkh8 & V8).
  intros [= <- <- <-].
  assert (Hfin : ∀ line,
            identityMap (if verboseFlag && v8 then say line w8 else w8)
            = identityMap w8 /\
            hostKeysMap (if verboseFlag && v8 then say line w8 else w8)
            = hostKeysMap w8 /\
            Hosts (if verboseFlag && v8 then say line w8 else w8) = Hosts w8)
    by (intros line; by destruct (verboseFlag && v8)).
  cbn [Username Identity KnownHosts config set_config identityMap hostKeysMap
       set_Hosts].
  destruct (Hfin ("  Info - host (" +:+ Host_Name h8 +:+ ") validated"))
    as (-> & -> & _).
  split_and!.
  - congruence.
  - congruence.
  - done.
  - intros ->. destruct (V8 eq_refl) as [-> Hself].
    destruct (V7 eq_refl) as [-> Haddr]. destruct (V6 eq_refl) as [-> Hsigner].
    destruct (V5 eq_refl) as [-> Hident]. destruct (V4 eq_refl) as [-> Hkeys].
    destruct (V2 eq_refl) as [-> Hnew]. specialize (V1 eq_refl).
    split_and!; try done.
    + by rewrite Hi8, Hi7.
    + intros Hnj. rewrite (Hkh8 Hnj), Hkh6. cbn [KnownHosts set_KnownHosts].
      rewrite Hk3. split; [done|]. destruct Q5 as (_ & _ & _ & Hk5 & _).
      by rewrite Hk8, Hk7, Hk6, Hk5.
Qed.

(** X18: what [Host.Validate] accepts. When it returns true, the trimmed
    name of the host is not blank and was not registered before, the
    trimmed identity path is not blank and has a signer in [identityMap],
    which the client configuration of the host carries, a host without
    jump host has a callback for its [known_hosts] path, the host is not
    its own jump host, and the host has an address that is not blank and
    that [Address.Validate] accepted. *)
Theorem Host_Validate_accepts_only defaultUsername h w w' h' :
  Host_Validate' defaultUsername h w = Ok (w', h', true) ->
  TrimSpace (Host_Name h) ≠ "" /\
  Hosts w !! TrimSpace (Host_Name h) = None /\
  TrimSpace (Identity h) ≠ "" /\
  (∃ cfg signer, config h' = Some cfg /\ Auth cfg = Some signer /\
     identityMap w' !! TrimSpace (Identity h) = Some signer) /\
  (JumpHost h = "" -> is_Some (hostKeysMap w' !! TrimSpace (KnownHosts h))) /\
  JumpHost h ≠ TrimSpace (Host_Name h) /\
  ∃ l a, Host_Address h = Some l /\ store w !! l = Some a /\
    address a ≠ "" /\
    (Address_Validate "host" (TrimSpace (Host_Name h)) "address"
       (bool_decide (JumpHost h ≠ "")) true a).1.2 = true.
Proof.
  intros E. apply Host_Validate_valid in E as (_ & Hi & Hcfg & Hvalid).
  destruct (Hvalid eq_refl) as (? & ? & ? & [signer Hs] & Hk & ? & ?).
  split_and!; try done.
  - eexists _, signer. split; [exact Hcfg|]. cbn [Auth]. by rewrite Hi.
  - intros Hj. by destruct (Hk Hj).
Qed.

(** X19: the user name after [Host.Validate]: the trimmed one; when that is
    blank, the default user name, but only if [verboseFlag] is set: without
    it the host keeps a blank user name. The client configuration carries
    the same name. *)
Theorem Host_Validate_username defaultUsername h w w' h' valid :
  Host_Validate' defaultUsername h w = Ok (w', h', valid) ->
  Username h'
  = (if bool_decide (TrimSpace (Username h) = "")
     then (if verboseFlag then defaultUsername else "")
     else TrimSpace (Username h)) /\
  ∃ cfg, config h' = Some cfg /\ User cfg = Username h'.
Proof.
  intros E. apply Host_Validate_valid in E as (Hu & _ & Hcfg & _). split.
  - rewrite Hu. unfold username_after.
    case_bool_decide as Hb; [|done]. destruct verboseFlag; [done|].
    by rewrite Hb.
  - by eexists.
Qed.

(** X20: a host whose trimmed name is already registered is refused, and
    registered all the same: it takes the place of the earlier host of
    this name in [Hosts]. *)
Theorem Host_Validate_redefinition_replaces defaultUsername h w w' h' valid old :
  Hosts w !! TrimSpace (Host_Name h) = Some old ->
  Host_Validate' defaultUsername h w = Ok (w', h', valid) ->
  valid = false /\ Hosts w' !! TrimSpace (Host_Name h) = Some h'.
Proof.
  intros Hold E. split.
  - destruct valid; [|done].
    apply Host_Validate_valid in E as (_ & _ & _ & Hvalid).
    destruct (Hvalid eq_refl) as (_ & Hnew & _). congruence.
  - apply Host_Validate_inv in E as (Hn & _ & Hh & _).
    by rewrite Hh, Hn, lookup_insert_eq.
Qed.

End HostValidation.

Lemma Host_Validate_accepts_only_witness :
  ∃ w' h',
    Host_Validate false ex_osStat ex_knownhostsNew ex_osReadFile
      ex_ParsePrivateKey ex_Address_Validate "u" (ex_host "A" (Some 0%nat) "")
      ex_world = Ok (w', h', true) /\
    TrimSpace "A" ≠ "" /\
    Hosts ex_world !! TrimSpace "A" = None /\
    TrimSpace "/id" ≠ "" /\
    (∃ cfg signer, config h' = Some cfg /\ Auth cfg = Some signer /\
       identityMap w' !! TrimSpace "/id" = Some signer) /\
    JumpHost (ex_host "A" (Some 0%nat) "") ≠ TrimSpace "A".
Proof.
  destruct (Host_Validate false ex_osStat ex_knownhostsNew ex_osReadFile
              ex_ParsePrivateKey ex_Address_Validate "u"
              (ex_host "A" (Some 0%nat) "") ex_world)
    as [[[w' h'] valid]|] eqn:E.
  - assert (Hv : valid = true).
    { pose proof (f_equal (λ r, match r with
                                | Ok (_, _, v) => v
                                | Panic => false
                                end) E) as Hv.
      vm_compute in Hv. done. }
    subst valid. exists w', h'. split; [done|].
    destruct (Host_Validate_accepts_only false ex_osStat ex_knownhostsNew
                ex_osReadFile ex_ParsePrivateKey ex_Address_Validate "u"
                (ex_host "A" (Some 0%nat) "") ex_world w' h' E)
      as (? & ? & ? & ? & _ & ? & _).
    done.
  - exfalso.
    pose proof (f_equal (λ r, match r with Ok _ => true | Panic => false end) E)
      as Hv.
    vm_compute in Hv. done.
Defined.

Lemma Host_Validate_username_witness :
  ∃ w' h' valid,
    Host_Validate false ex_osStat ex_knownhostsNew ex_osReadFile
      ex_ParsePrivateKey ex_Address_Validate "root"
      (set_Username "  " (ex_host "A" (Some 0%nat) "")) ex_world
    = Ok (w', h', valid) /\
    Username h' = "" /\
    ∃ cfg, config h' = Some cfg /\ User cfg = "".
Proof.
  destruct (Host_Validate false ex_osStat ex_knownhostsNew ex_osReadFile
              ex_ParsePrivateKey ex_Address_Validate "root"
              (set_Username "  " (ex_host "A" (Some 0%nat) "")) ex_world)
    as [[[w' h'] valid]|] eqn:E.
  - exists w', h', valid. split; [done|].
    destruct (Host_Validate_username false ex_osStat ex_knownhostsNew
                ex_osReadFile ex_ParsePrivateKey ex_Address_Validate "root"
                (set_Username "  " (ex_host "A" (Some 0%nat) "")) ex_world
                w' h' valid E) as (Hu & cfg & Hcfg & Huser).
    split; [exact Hu|]. exists cfg. split; [done|]. by rewrite Huser.
  - exfalso.
    pose proof (f_equal (λ r, match r with Ok _ => true | Panic => false end) E)
      as Hv.
    vm_compute in Hv. done.
Defined.

Lemma Host_Validate_redefinition_replaces_witness :
  ∃ w' h',
    Host_Validate false ex_osStat ex_knownhostsNew ex_osReadFile
      ex_ParsePrivateKey ex_Address_Validate "u" (ex_host " A" (Some 1%nat) "")
      (ex_registered ex_config ex_world) = Ok (w', h', false) /\
    Hosts w' !! "A" = Some h'.
Proof.
  destruct (Host_Validate false ex_osStat ex_knownhostsNew ex_osReadFile
              ex_ParsePrivateKey ex_Address_Validate "u"
              (ex_host " A" (Some 1%nat) "") (ex_registered ex_config ex_world))
    as [[[w' h'] valid]|] eqn:E.
  - exists w', h'.
    destruct (Host_Validate_redefinition_replaces false ex_osStat
                ex_knownhostsNew ex_osReadFile ex_ParsePrivateKey
                ex_Address_Validate "u" (ex_host " A" (Some 1%nat) "")
                (ex_registered ex_config ex_world) w' h' valid ex_registered_A)
      as [-> Hh]; [by vm_compute|done|]. done.
  - exfalso.
    pose proof (f_equal (λ r, match r with Ok _ => true | Panic => false end) E)
      as Hv.
    vm_compute in Hv. done.
Defined.

(** ** What [Tunnel.Validate] accepts *)

Section TunnelValidation.

Variable verboseFlag : bool.
Variable Address_Validate :
  string -> string -> string -> bool -> bool -> Address ->
  Address * bool * list string.

Local Abbreviation Tunnel_Validate' :=
  (Tunnel_Validate verboseFlag Address_Validate).

(** What holds when [Tunnel.Validate] returned true. *)
Lemma Tunnel_Validate_valid t w w' t' :
  Tunnel_Validate' t w = (w', t', true) ->
  TrimSpace (Tunnel_Name t) ≠ "" /\
  Tunnels w !! TrimSpace (Tunnel_Name t) = None /\
  (∃ l a, Forward t = Some l /\ store w !! l = Some a /\ address a ≠ "" /\
     (Address_Validate "tunnel" (TrimSpace (Tunnel_Name t)) "forward address"
        true false a).1.2 = true) /\
  TrimSpace (Tunnel_Host t) ≠ "" /\
  ∃ host, Hosts w !! TrimSpace (Tunnel_Host t) = Some host /\
    Hosts w' = <[TrimSpace (Tunnel_Host t) := set_isHost true host]> (Hosts w).
Proof.
  unfold Tunnel_Validate. cbv zeta.
  next_pair w1 v1 E1.
  assert (Q1 : quiet w w1 /\ (v1 = true -> TrimSpace (Tunnel_Name t) ≠ "")).
  { case_bool_decide; injection E1 as <- <-; (split; [auto with quiet|done]). }
  clear E1. destruct Q1 as [Q1 V1]. next_pair w2 v2 E2.
  assert (Q2 : quiet w w2 /\
               (v2 = true -> v1 = true /\
                  Tunnels w !! TrimSpace (Tunnel_Name t) = None)).
  { pose proof Q1 as (_ & _ & Ht1 & _).
    destruct (Tunnels w1 !! _) eqn:Hl; injection E2 as <- <-.
    - split; [|done]. eapply quiet_trans; [exact Q1|]. auto with quiet.
    - split; [done|]. intros Hv. split; [done|by rewrite <- Ht1]. }
  clear E2 Q1. destruct Q2 as [Q2 V2]. next_pair w3 v3 E3.
  assert (Q3 : Hosts w3 = Hosts w /\
               (v3 = true -> v2 = true /\
                  ∃ l a, Forward t = Some l /\ store w !! l = Some a /\
                    address a ≠ "" /\
                    (Address_Validate "tunnel" (TrimSpace (Tunnel_Name t))
                       "forward address" true false a).1.2 = true)).
  { pose proof Q2 as (Hs2 & Hh2 & _).
    cbn [Forward Tunnel_Name set_Tunnel_Name] in E3.
    destruct (Forward t) as [l|]; [|by injection E3 as <- <-].
    unfold nil_or_blank in E3. rewrite Hs2 in E3.
    destruct (store w !! l) as [a|] eqn:Hl; [|by injection E3 as <- <-].
    unfold IsBlank in E3. case_bool_decide as Hblank;
      [by injection E3 as <- <-|].
    destruct (validate_at _ _ _ _ _ _ _ _) as [w3' ok] eqn:Ev.
    injection E3 as <- <-.
    pose proof (validate_at_inv _ _ _ _ _ _ _ _ _ _ Ev) as (Hh3 & _).
    split; [congruence|]. intros Hv. destruct ok; [|done].
    split; [done|]. exists l, a. split_and!; try done.
    revert Ev. unfold validate_at. rewrite Hs2, Hl.
    destruct (Address_Validate _ _ _ _ _ a) as [[a' ok'] out].
    by intros [= _ ->]. }
  clear E3 Q2. destruct Q3 as [Hh3 V3]. next_pair w4 t4 E4.
  assert (Q4 : Hosts w4 = Hosts w /\
               Tunnel_Name t4 = TrimSpace (Tunnel_Name t) /\
               Tunnel_Host t4 = Tunnel_Host t).
  { destruct (forward_valid w3 _) as [p|]; [|by injection E4 as <- <-].
    destruct (nil_or_blank w3 _); by injection E4 as <- <-. }
  clear E4. destruct Q4 as (Hh4 & Hn4 & Hth4). next_pair w5 v5 E5.
  assert (Q5 : Hosts w5 = Hosts w /\ (v5 = true -> v3 = true)).
  { destruct (Local t4) as [l|]; [|by injection E5 as <- <-].
    destruct (nil_or_blank w4 (Some l)); [by injection E5 as <- <-|].
    destruct (validate_at _ _ _ _ _ _ _ _) as [w5' ok] eqn:Ev.
    injection E5 as <- <-.
    pose proof (validate_at_inv _ _ _ _ _ _ _ _ _ _ Ev) as (Hh5 & _).
    split; [congruence|]. by destruct ok. }
  clear E5. destruct Q5 as [Hh5 V5]. next_pair w6 v6 E6.
  cbn [Tunnel_Host Tunnel_Name set_Tunnel_Host] in E6. rewrite Hth4 in E6.
  assert (Q6 : v6 = true -> v5 = true /\ TrimSpace (Tunnel_Host t) ≠ "" /\
                 ∃ host, Hosts w !! TrimSpace (Tunnel_Host t) = Some host /\
                   Hosts w6
                   = <[TrimSpace (Tunnel_Host t) := set_isHost true host]> (Hosts w)).
  { case_bool_decide; [by injection E6 as <- <-|].
    rewrite Hh5 in E6.
    destruct (Hosts w !! _) as [host|] eqn:Hhost; injection E6 as <- <-; [|done].
    intros ->. split_and!; try done. by exists host. }
  clear E6. intros [= <- <- Hv].
  assert (Hv6 : v6 = true) by (by destruct v6).
  destruct (Q6 Hv6) as (-> & Hhost & host & Hfound & Hh6).
  rewrite (V5 eq_refl) in V3. destruct (V3 eq_refl) as [-> Haddr].
  destruct (V2 eq_refl) as [-> Hnew].
  specialize (V1 eq_refl). split_and!; try done.
  exists host. split; [done|].
  by destruct (verboseFlag && v6).
Qed.

(** X21: what [Tunnel.Validate] accepts. When it returns true, the trimmed
    name of the tunnel is not blank and was not registered before, the
    tunnel has a forward address that is not blank and that
    [Address.Validate] accepted, and the trimmed name of its host is that
    of a registered host, which is marked as the host of a tunnel and is
    else as it was; no other host is touched. *)
Theorem Tunnel_Validate_accepts_only t w w' t' :
  Tunnel_Validate' t w = (w', t', true) ->
  TrimSpace (Tunnel_Name t) ≠ "" /\
  Tunnels w !! TrimSpace (Tunnel_Name t) = None /\
  (∃ l a, Forward t = Some l /\ store w !! l = Some a /\ address a ≠ "" /\
     (Address_Validate "tunnel" (TrimSpace (Tunnel_Name t)) "forward address"
        true false a).1.2 = true) /\
  ∃ host, Hosts w !! TrimSpace (Tunnel_Host t) = Some host /\
    Hosts w' = <[TrimSpace (Tunnel_Host t) := set_isHost true host]> (Hosts w).
Proof.
  intros E. apply Tunnel_Validate_valid in E as (? & ? & ? & _ & ?). done.
Qed.

(** X22: a tunnel whose trimmed name is already registered is refused, and
    registered all the same: it takes the place of the earlier tunnel of
    this name in [Tunnels]. A tunnel is registered under its trimmed name
    whatever [Tunnel.Validate] returns. *)
Theorem Tunnel_Validate_registers_anyway t w w' t' valid :
  Tunnel_Validate' t w = (w', t', valid) ->
  Tunnels w' !! TrimSpace (Tunnel_Name t) = Some t' /\
  (is_Some (Tunnels w !! TrimSpace (Tunnel_Name t)) -> valid = false).
Proof.
  intros E. split.
  - apply Tunnel_Validate_inv in E as (Hn & _ & _ & Ht & _).
    by rewrite Ht, Hn, lookup_insert_eq.
  - intros [old Hold]. destruct valid; [|done].
    apply Tunnel_Validate_valid in E as (_ & Hnew & _). congruence.
Qed.

End TunnelValidation.

Lemma Tunnel_Validate_accepts_only_witness :
  ∃ w' t',
    Tunnel_Validate false ex_Address_Validate ex_T1
      (ex_registered
         {| cfg_Hosts := cfg_Hosts ex_config; cfg_Tunnels := [] |} ex_world)
    = (w', t', true) /\
    TrimSpace "T1" ≠ "" /\
    ∃ host,
      Hosts (ex_registered
               {| cfg_Hosts := cfg_Hosts ex_config; cfg_Tunnels := [] |} ex_world)
        !! TrimSpace "B" = Some host /\
      Hosts w' !! "B" = Some (set_isHost true host).
Proof.
  destruct (Tunnel_Validate false ex_Address_Validate ex_T1
              (ex_registered
                 {| cfg_Hosts := cfg_Hosts ex_config; cfg_Tunnels := [] |}
                 ex_world)) as [[w' t'] valid] eqn:E.
  assert (Hv : valid = true).
  { pose proof (f_equal snd E) as Hv. vm_compute in Hv. done. }
  subst valid. exists w', t'. split; [done|].
  destruct (Tunnel_Validate_accepts_only false ex_Address_Validate ex_T1 _
              w' t' E) as (Hname & _ & _ & host & Hhost & Hhosts).
  split; [exact Hname|]. exists host. split; [exact Hhost|].
  rewrite Hhosts. apply lookup_insert_eq.
Defined.

Lemma Tunnel_Validate_registers_anyway_witness :
  ∃ w' t',
    Tunnel_Validate false ex_Address_Validate ex_T1
      (ex_registered ex_config ex_world) = (w', t', false) /\
    Tunnels w' !! TrimSpace "T1" = Some t'.
Proof.
  destruct (Tunnel_Validate false ex_Address_Validate ex_T1
              (ex_registered ex_config ex_world)) as [[w' t'] valid] eqn:E.
  destruct (Tunnel_Validate_registers_anyway false ex_Address_Validate ex_T1
              (ex_registered ex_config ex_world) w' t' valid E) as [Ht Hv].
  assert (Hf : valid = false) by (apply Hv; vm_compute; by eexists).
  subst valid. by exists w', t'.
Defined.

(** ** The resolver of jump hosts, over the whole loop *)

Section ResolverProperties.

Variable verboseFlag : bool.
Variable Address_Validate :
  string -> string -> string -> bool -> bool -> Address ->
  Address * bool * list string.
Variable freePort : nat -> option Z.

Local Abbreviation jump_host_step' :=
  (jump_host_step verboseFlag Address_Validate freePort).
Local Abbreviation jump_hosts_loop' :=
  (jump_hosts_loop verboseFlag Address_Validate freePort).
Local Abbreviation validateJumpHosts' :=
  (validateJumpHosts verboseFlag Address_Validate freePort).

(** The resolver registers no host: a name without host stays so. *)
Lemma jump_host_step_absent k w listeners valid w1 listeners1 valid1 j :
  jump_host_step' k w listeners valid = JumpNext w1 listeners1 valid1 ->
  Hosts w !! j = None -> Hosts w1 !! j = None.
Proof.
  unfold jump_host_step.
  destruct (Hosts w !! k) as [h|] eqn:Hk; [|by intros [= <- <- <-]].
  destruct (bool_decide (JumpHost h ≠ "") && isHost h);
    [|by intros [= <- <- <-]].
  destruct (Hosts w !! JumpHost h) as [jumpHost|] eqn:Hjh;
    [|by intros [= <- <- <-]].
  case_bool_decide; [by intros [= <- <- <-]|].
  destruct (freePort listeners) as [port|]; [|done].
  cbn [new_address].
  destruct (Tunnel_Validate _ _ _ _) as [[w2 t2] v2] eqn:E.
  intros [= <- <- <-] Hj.
  apply Tunnel_Validate_inv in E as (_ & Hth & _ & _ & _ & Hh & _).
  cbn [Tunnel_Host jumpTunnel_for Hosts set_store] in Hth, Hh.
  assert (Hj2 : Hosts w2 !! j = None).
  { destruct Hh as [->|(host & Hhost & ->)]; [done|].
    rewrite lookup_insert_ne; [done|]. intros <-. congruence. }
  unfold point_host_at. cbn [Hosts set_Hosts].
  destruct (decide (k = j)) as [->|Hne].
  - by rewrite lookup_alter_eq, Hj2.
  - by rewrite lookup_alter_ne.
Qed.

Lemma jump_host_step_idle k w listeners valid :
  (∀ h, Hosts w !! k = Some h -> JumpHost h = "" \/ isHost h = false) ->
  jump_host_step' k w listeners valid = JumpNext w listeners valid.
Proof.
  intros Hidle. unfold jump_host_step.
  destruct (Hosts w !! k) as [h|]; [|done].
  destruct (Hidle h eq_refl) as [Hj|Hi].
  - by rewrite bool_decide_eq_false_2 by (by intros []).
  - rewrite Hi. by rewrite andb_false_r.
Qed.

Lemma jump_hosts_loop_undefined order : ∀ w listeners valid k h,
  k ∈ order ->
  Hosts w !! k = Some h -> isHost h = true -> JumpHost h ≠ "" ->
  Hosts w !! JumpHost h = None ->
  (jump_hosts_loop' order w listeners valid).2 = false.
Proof.
  induction order as [|k0 order IH];
    intros w listeners valid k h Hin Hk Hhost Hjump Hjh.
  - by apply elem_of_nil in Hin.
  - cbn [jump_hosts_loop]. destruct (decide (k0 = k)) as [->|Hne].
    + unfold jump_host_step. rewrite Hk, Hhost, Hjh.
      rewrite bool_decide_eq_true_2 by done. cbn [andb].
      apply jump_hosts_loop_false.
    + apply elem_of_cons in Hin as [->|Hin]; [done|].
      destruct (jump_host_step' k0 w listeners valid) as [w1 n1 v1|w1 v1] eqn:E.
      * pose proof (jump_host_step_absent _ _ _ _ _ _ _ _ E Hjh) as Hjh1.
        apply jump_host_step_next in E as (Hkept & _ & _).
        destruct (Hkept _ _ Hk) as (h' & Hk' & Hn' & Hj' & Hi').
        rewrite <- Hj' in Hjh1.
        apply (IH w1 n1 v1 k h' Hin Hk' (Hi' Hhost)); [congruence|done].
      * by apply jump_host_step_break in E as [-> _].
Qed.

(** X23: a host of a tunnel whose jump host is not registered makes
    [validateJumpHosts] return false, wherever the host comes in the order
    of the loop and whatever the loop does for the other hosts. *)
Theorem undefined_jump_host_rejected order w k h :
  k ∈ order ->
  Hosts w !! k = Some h -> isHost h = true -> JumpHost h ≠ "" ->
  Hosts w !! JumpHost h = None ->
  (validateJumpHosts verboseFlag Address_Validate freePort order w).2 = false.
Proof. intros. by eapply jump_hosts_loop_undefined. Qed.

(** X24: when no host of a tunnel has a jump host, [validateJumpHosts]
    returns true and leaves everything as it is: no tunnel is added, no
    address changed, no port asked for, nothing printed. *)
Theorem validateJumpHosts_idle order w :
  (∀ k h, Hosts w !! k = Some h -> JumpHost h = "" \/ isHost h = false) ->
  validateJumpHosts verboseFlag Address_Validate freePort order w = (w, true).
Proof.
  intros Hidle. unfold validateJumpHosts. generalize 0%nat as listeners.
  induction order as [|k order IH]; intros listeners; [done|].
  cbn [jump_hosts_loop]. rewrite jump_host_step_idle by (intros h; apply Hidle).
  apply IH.
Qed.

(** X25: when no free port is found for a host that needs one, the loop
    ends there: [validateJumpHosts] returns false, the hosts that come
    later in the order are not looked at, and not a line is printed about
    it. The hosts before it in the order need nothing. *)
Theorem free_port_shortage_is_silent before k rest w h jumpHost :
  (∀ k' h', k' ∈ before -> Hosts w !! k' = Some h' ->
     JumpHost h' = "" \/ isHost h' = false) ->
  Hosts w !! k = Some h -> isHost h = true -> JumpHost h ≠ "" ->
  Hosts w !! JumpHost h = Some jumpHost -> JumpHost jumpHost = "" ->
  freePort 0%nat = None ->
  validateJumpHosts verboseFlag Address_Validate freePort (before ++ k :: rest) w
  = (w, false).
Proof.
  intros Hidle Hk Hhost Hjump Hjh Hnochain Hport. unfold validateJumpHosts.
  generalize true as valid.
  induction before as [|k' before IH]; intros valid.
  - cbn [app jump_hosts_loop]. unfold jump_host_step.
    rewrite Hk, Hhost, Hjh, Hport.
    rewrite bool_decide_eq_true_2 by done. cbn [andb].
    by rewrite bool_decide_eq_false_2 by (by intros []).
  - cbn [app jump_hosts_loop].
    rewrite jump_host_step_idle
      by (intros h'; apply Hidle, elem_of_cons; by left).
    apply IH. intros k'' h'' Hin. apply Hidle, elem_of_cons. by right.
Qed.

End ResolverProperties.

Lemma undefined_jump_host_rejected_witness :
  (validateJumpHosts false ex_Address_Validate ex_freePort ["A"; "B"]
     (ex_registered
        {| cfg_Hosts := [ex_host "A" (Some 0%nat) ""; ex_host "B" (Some 1%nat) "Z"];
           cfg_Tunnels := [ex_T1] |} ex_world)).2 = false.
Proof.
  apply (undefined_jump_host_rejected false ex_Address_Validate ex_freePort
           ["A"; "B"] _ "B"
           (set_isHost true
              (default (ex_host "" None "")
                 (Hosts (ex_registered
                           {| cfg_Hosts := [ex_host "A" (Some 0%nat) "";
                                            ex_host "B" (Some 1%nat) "Z"];
                              cfg_Tunnels := [] |} ex_world) !! "B")))).
  - apply elem_of_cons. right. apply elem_of_cons. by left.
  - by vm_compute.
  - reflexivity.
  - by vm_compute.
  - by vm_compute.
Defined.

Lemma validateJumpHosts_idle_witness :
  validateJumpHosts false ex_Address_Validate ex_freePort ["A"; "B"]
    (ex_registered ex_config_idle ex_world)
  = (ex_registered ex_config_idle ex_world, true).
Proof.
  apply (validateJumpHosts_idle false ex_Address_Validate ex_freePort
           ["A"; "B"] (ex_registered ex_config_idle ex_world)).
  assert (HF : bool_decide
                 (map_Forall (λ _ h, JumpHost h = "" \/ isHost h = false)
                    (Hosts (ex_registered ex_config_idle ex_world))) = true)
    by (vm_compute; reflexivity).
  apply bool_decide_eq_true_1 in HF. exact HF.
Defined.

Lemma free_port_shortage_is_silent_witness :
  validateJumpHosts false ex_Address_Validate (λ _, None) ([] ++ "B" :: ["A"])
    (ex_registered ex_config ex_world)
  = (ex_registered ex_config ex_world, false).
Proof.
  apply (free_port_shortage_is_silent false ex_Address_Validate (λ _, None)
           [] "B" ["A"] (ex_registered ex_config ex_world)
           ex_registered_B ex_registered_A).
  - by intros k' h' ?%elem_of_nil.
  - by vm_compute.
  - reflexivity.
  - by vm_compute.
  - by vm_compute.
  - reflexivity.
  - reflexivity.
Defined.

(** ** The pruning of unused hosts in [Configuration.Validate] *)

Lemma unused_hosts_spec order : ∀ w,
  store (unused_hosts order w).1 = store w /\
  Hosts (unused_hosts order w).1 = Hosts w /\
  Tunnels (unused_hosts order w).1 = Tunnels w /\
  ∀ name, name ∈ (unused_hosts order w).2 <->
    name ∈ order /\
    ∃ host, Hosts w !! name = Some host /\
      isHost host = false /\ isJumpHost host = false.
Proof.
  induction order as [|k order IH]; intros w.
  - cbn. split_and!; try done. intros name. split.
    + by intros ?%elem_of_nil.
    + by intros [?%elem_of_nil _].
  - cbn [unused_hosts].
    assert (Hrest : ∀ w0, Hosts w0 = Hosts w -> store w0 = store w ->
              Tunnels w0 = Tunnels w ->
              ∀ unused0,
                (∀ name, name ∈ unused0 <->
                   name = k /\ ∃ host, Hosts w !! name = Some host /\
                     isHost host = false /\ isJumpHost host = false) ->
              store (unused_hosts order w0).1 = store w /\
              Hosts (unused_hosts order w0).1 = Hosts w /\
              Tunnels (unused_hosts order w0).1 = Tunnels w /\
              ∀ name, name ∈ unused0 ++ (unused_hosts order w0).2 <->
                name ∈ k :: order /\
                ∃ host, Hosts w !! name = Some host /\
                  isHost host = false /\ isJumpHost host = false).
    { intros w0 Hh Hs Ht unused0 Hu.
      destruct (IH w0) as (Hs0 & Hh0 & Ht0 & Hin0).
      split_and!; try congruence. intros name.
      rewrite elem_of_app, elem_of_cons, Hu, Hin0, Hh. tauto. }
    destruct (Hosts w !! k) as [host|] eqn:Hk.
    + destruct (negb (isHost host) && negb (isJumpHost host)) eqn:Hun.
      * apply andb_true_iff in Hun as [Hi Hj].
        apply negb_true_iff in Hi, Hj.
        destruct (unused_hosts order (say _ w)) as [w1 unused] eqn:E.
        pose proof (Hrest (say ("  Info  - host(" +:+ k +:+ ") is unused") w)
                      eq_refl eq_refl eq_refl [k]) as Hr.
        rewrite E in Hr. cbn [fst snd app] in *. apply Hr.
        intros name. rewrite list_elem_of_singleton. split.
        -- intros ->. split; [done|]. by exists host.
        -- by intros [-> _].
      * pose proof (Hrest w eq_refl eq_refl eq_refl []) as Hr.
        cbn [app] in Hr. apply Hr.
        intros name. split; [by intros ?%elem_of_nil|].
        intros (-> & host' & Hk' & Hi & Hj). rewrite Hk in Hk'.
        injection Hk' as <-. by rewrite Hi, Hj in Hun.
    + pose proof (Hrest w eq_refl eq_refl eq_refl []) as Hr.
      cbn [app] in Hr. apply Hr.
      intros name. split; [by intros ?%elem_of_nil|].
      intros (-> & host' & Hk' & _). congruence.
Qed.

Lemma delete_all_lookup (unused : list string) : ∀ (hs : gmap string Host) k,
  foldl (λ hs name, delete name hs) hs unused !! k
  = if bool_decide (k ∈ unused) then None else hs !! k.
Proof.
  induction unused as [|name unused IH]; intros hs k; [done|].
  cbn [foldl]. rewrite IH.
  destruct (decide (k = name)) as [->|Hne].
  - rewrite lookup_delete_eq.
    rewrite (bool_decide_eq_true_2 (name ∈ name :: unused)) by left.
    by case_bool_decide.
  - rewrite lookup_delete_ne by done.
    case_bool_decide as Hin.
    + by rewrite bool_decide_eq_true_2 by (by right).
    + rewrite bool_decide_eq_false_2; [done|].
      by intros [?|?]%elem_of_cons.
Qed.

(** X26: the two last loops of [Configuration.Validate], the keys of
    [Hosts] taken in the order [order]. The addresses and the tunnels stay;
    no host is added or changed; a host that is the host of a tunnel or a
    jump host stays; of the hosts that the first loop looks at, only such
    hosts are left. *)
Theorem pruning_keeps_used_hosts order w :
  let w' := delete_hosts (unused_hosts order w).2 (unused_hosts order w).1 in
  store w' = store w /\ Tunnels w' = Tunnels w /\
  (∀ k h, Hosts w' !! k = Some h -> Hosts w !! k = Some h) /\
  (∀ k h, Hosts w !! k = Some h ->
     isHost h = true \/ isJumpHost h = true -> Hosts w' !! k = Some h) /\
  (∀ k h, k ∈ order -> Hosts w' !! k = Some h ->
     isHost h = true \/ isJumpHost h = true).
Proof.
  intros w'. subst w'.
  destruct (unused_hosts_spec order w) as (Hs & Hh & Ht & Hin).
  unfold delete_hosts. cbn [store Tunnels Hosts set_Hosts].
  split_and!; try done.
  - intros k h. rewrite delete_all_lookup, Hh. by case_bool_decide.
  - intros k h Hk Hused. rewrite delete_all_lookup, Hh.
    rewrite bool_decide_eq_false_2; [done|].
    intros (_ & host & Hk' & Hi & Hj)%Hin. rewrite Hk in Hk'.
    injection Hk' as <-. destruct Hused; congruence.
  - intros k h Hord. rewrite delete_all_lookup, Hh.
    case_bool_decide as Hun; [done|]. intros Hk.
    destruct (isHost h) eqn:Hi; [by left|].
    destruct (isJumpHost h) eqn:Hj; [by right|].
    exfalso. apply Hun, Hin. split; [done|]. by exists h.
Qed.

(** ** The earlier [Tunnel.Validate] *)

Section LegacyValidationProperties.

Variable LookupIP : string -> option (list IP).

(** X27: the earlier [Tunnel.Validate] needs both addresses of a tunnel:
    with the forward address or the local address nil it panics, whatever
    else the tunnel says; so a tunnel written without [local], which the
    configuration format allows, cannot be validated. *)
Theorem Tunnel_Validate_legacy_nil_address t w :
  Forward t = None \/ Local t = None ->
  Tunnel_Validate_legacy LookupIP t w = Panic.
Proof.
  intros Hnil. unfold Tunnel_Validate_legacy. cbv zeta.
  next_pair w1 v1 E1. clear E1. next_pair w2 v2 E2. clear E2.
  cbn [Forward Local set_Tunnel_Name].
  destruct (deref w2 (Forward t)) as [[lf forward]|] eqn:Ef; [|done].
  cbn [mbind Result_bind].
  destruct Hnil as [Hf|Hl]; [by rewrite Hf in Ef|].
  next_pair w3 v3 E3. clear E3. by rewrite Hl.
Qed.

(** X28: the earlier [Tunnel.Validate] on a tunnel whose local address is
    blank and whose forward address comes out of its validation valid: the
    local address of the tunnel is a new address, made of 0.0.0.0 and the
    port of the forward address and then validated, and the tunnel is
    registered with it. *)
Theorem Tunnel_Validate_legacy_default_local t w ll blank lf a :
  Local t = Some ll -> store w !! ll = Some blank -> address blank = "" ->
  Forward t = Some lf -> store w !! lf = Some a -> address a ≠ "" ->
  let forward :=
    (ValidateAddress LookupIP "tunnel" (TrimSpace (Tunnel_Name t))
       "forward address" true a).1.1 in
  valid forward = true ->
  ∃ w' t' ok, Tunnel_Validate_legacy LookupIP t w = Ok (w', t', ok) /\
    Local t' = Some (length (store w)) /\
    store w' !! length (store w)
    = Some (ValidateAddress LookupIP "tunnel" (TrimSpace (Tunnel_Name t))
              "local address" true
              (NewAddress ("0.0.0.0:" +:+ itoa (port forward)))).1.1 /\
    store w' !! lf = Some forward /\
    Tunnels w' !! TrimSpace (Tunnel_Name t) = Some t'.
Proof.
  intros Hloc Hb Hblank Hfwd Ha Hne forward Hvalid.
  assert (Hll : ll ≠ lf) by (intros ->; congruence).
  unfold Tunnel_Validate_legacy. cbv zeta.
  next_pair w1 v1 E1.
  assert (Q1 : quiet w w1)
    by (case_bool_decide; injection E1 as <- <-; auto with quiet).
  clear E1. next_pair w2 v2 E2.
  assert (Q2 : quiet w w2).
  { eapply quiet_trans; [exact Q1|].
    destruct (Tunnels w1 !! _); injection E2 as <- <-; auto with quiet. }
  clear E2 Q1. destruct Q2 as (Hs2 & _ & Ht2 & _).
  cbn [Forward Local Tunnel_Name set_Tunnel_Name].
  assert (Hd2 : deref w2 (Forward t) = Ok (lf, a))
    by (unfold deref; by rewrite Hfwd, Hs2, Ha).
  rewrite Hd2. clear Hd2. cbn [mbind Result_bind].
  assert (HB : IsBlank a = false)
    by (unfold IsBlank; by apply bool_decide_eq_false_2).
  rewrite HB. clear HB. unfold validate_address_at at 1.
  destruct (validate_at_found
              (λ group name attr remote _,
                 ValidateAddress LookupIP group name attr remote)
              "tunnel" (TrimSpace (Tunnel_Name t)) "forward address" true false
              lf w2 a) as (w3 & Ev & Ha3 & Hl3 & Hs3 & _); [by rewrite Hs2|].
  cbv beta in Ev, Ha3. fold forward in Ha3. rewrite Ev. clear Ev.
  rewrite Hs2 in Hl3, Hs3.
  assert (Hd3 : deref w3 (Local t) = Ok (ll, blank))
    by (unfold deref; by rewrite Hloc, Hs3, Hb).
  rewrite Hd3. clear Hd3. cbn [mbind Result_bind].
  assert (HB : IsBlank blank = true)
    by (unfold IsBlank; by apply bool_decide_eq_true_2).
  rewrite HB. clear HB.
  assert (Hd3 : deref w3 (Forward t) = Ok (lf, forward))
    by (unfold deref; by rewrite Hfwd, Ha3).
  rewrite Hd3. clear Hd3. cbn [mbind Result_bind].
  unfold IsValid, Port. rewrite Hvalid. cbn [new_address mbind Result_bind].
  set (fresh := NewAddress ("0.0.0.0:" +:+ itoa (port forward))).
  set (w4 := set_store _ w3).
  assert (Hfresh : store w4 !! length (store w3) = Some fresh).
  { unfold w4. cbn. by rewrite lookup_app_r, Nat.sub_diag. }
  assert (Hlf4 : store w4 !! lf = Some forward).
  { unfold w4. cbn. rewrite lookup_app_l; [done|]. by eapply lookup_lt_Some. }
  cbn [Local set_Local].
  assert (Hd4 : deref w4 (Some (length (store w3) : loc))
                = Ok (length (store w3) : loc, fresh)).
  { cbn [deref]. unfold loc in *. by rewrite Hfresh. }
  rewrite Hd4. clear Hd4. cbn [mbind Result_bind].
  assert (HB : IsBlank fresh = false)
    by (unfold IsBlank; by apply bool_decide_eq_false_2).
  rewrite HB. clear HB. unfold validate_address_at.
  cbn [Tunnel_Name set_Local set_Tunnel_Name].
  destruct (validate_at_found
              (λ group name attr remote _,
                 ValidateAddress LookupIP group name attr remote)
              "tunnel" (TrimSpace (Tunnel_Name t)) "local address" true false
              (length (store w3)) w4 fresh Hfresh)
    as (w5 & Ev5 & Ha5 & Hl5 & Hs5 & (_ & Ht5 & _)).
  cbv beta in Ev5, Ha5. rewrite Ev5. clear Ev5.
  assert (Hlf5 : store w5 !! lf = Some forward).
  { rewrite Hs5; [done|]. apply lookup_lt_Some in Ha3. lia. }
  next_pair w6 v6 E6.
  assert (Q6 : store w6 = store w5 /\ Tunnels w6 = Tunnels w5).
  { case_bool_decide; [by injection E6 as <- <-|].
    destruct (Hosts w5 !! _); by injection E6 as <- <-. }
  clear E6. destruct Q6 as [Hs6 Ht6].
  eexists _, _, _. split; [done|].
  cbn [Local set_Tunnel_Host set_Local store set_Tunnels Tunnels Tunnel_Name
       set_Tunnel_Name].
  rewrite Hs6, <- Hl3. split_and!; [done|done|done|].
  by rewrite lookup_insert_eq.
Qed.

End LegacyValidationProperties.

Lemma Tunnel_Validate_legacy_nil_address_witness :
  Tunnel_Validate_legacy literalResolver ex_T1 ex_world = Panic.
Proof.
  apply (Tunnel_Validate_legacy_nil_address literalResolver ex_T1 ex_world).
  by right.
Defined.

Lemma Tunnel_Validate_legacy_default_local_witness :
  ∃ w' t' ok,
    Tunnel_Validate_legacy literalResolver
      (set_Local (Some 3%nat) ex_T1)
      (world_start
         [NewAddress "10.0.0.5:22"; NewAddress "10.0.0.6:22";
          NewAddress "10.0.0.5:80"; NewAddress ""])
    = Ok (w', t', ok) /\
    Local t' = Some 4%nat /\
    store w' !! 4%nat
    = Some {| valid := true; address := "0.0.0.0:80"; port := 80 |} /\
    store w' !! 2%nat
    = Some {| valid := true; address := "10.0.0.5:80"; port := 80 |} /\
    Tunnels w' !! "T1" = Some t'.
Proof.
  apply (Tunnel_Validate_legacy_default_local literalResolver
           (set_Local (Some 3%nat) ex_T1)
           (world_start
              [NewAddress "10.0.0.5:22"; NewAddress "10.0.0.6:22";
               NewAddress "10.0.0.5:80"; NewAddress ""])
           3%nat (NewAddress "") 2%nat (NewAddress "10.0.0.5:80"));
    try reflexivity.
  discriminate.
Defined.

(** ** The command line *)

Lemma digit_of_range c d : digit_of c = Some d -> 0 <= d <= 9.
Proof.
  unfold digit_of. cbv zeta.
  destruct (48 <=? Z.of_nat (nat_of_ascii c)) eqn:E1; [|done].
  destruct (Z.of_nat (nat_of_ascii c) <=? 57) eqn:E2; [|done].
  cbn [andb]. intros [= <-]. apply Z.leb_le in E1, E2. lia.
Qed.

Lemma digits_value_nonneg s : ∀ acc v,
  0 <= acc -> digits_value acc s = Some v -> 0 <= v.
Proof.
  induction s as [|c s IH]; intros acc v Hacc; cbn [digits_value].
  - by intros [= <-].
  - destruct (digit_of c) as [d|] eqn:Hd; [|done].
    apply digit_of_range in Hd. apply IH. lia.
Qed.

(** A text that does not start with a minus sign parses to no negative
    number. *)
Lemma ParseInt32_nonneg value i :
  HasPrefix value "-" = false -> ParseInt32 value = Some i ->
  0 <= i <= max_int32.
Proof.
  unfold HasPrefix, ParseInt32. intros Hp.
  assert (Hbody : ∃ body, (match value with
                           | String "-" rest => (true, rest)
                           | String "+" rest => (false, rest)
                           | _ => (false, value)
                           end) = (false, body)).
  { destruct value as [|c rest]; [by eexists|].
    destruct c as [[] [] [] [] [] [] [] []]; try by eexists.
    cbn in Hp. by destruct rest. }
  destruct Hbody as [body ->].
  destruct body as [|c body]; [done|].
  destruct (digits_value 0 (String c body)) as [v|] eqn:Hv; [|done].
  apply digits_value_nonneg in Hv; [|done]. cbv zeta.
  destruct (min_int32 <=? v) eqn:E1; [|done].
  destruct (v <=? max_int32) eqn:E2; [|done].
  cbn [andb]. intros [= <-]. apply Z.leb_le in E2. lia.
Qed.

Lemma parameterInt_nonneg args index o i :
  parameterInt args index o = Goes i -> 0 <= i <= max_int32.
Proof.
  unfold parameterInt, parameter.
  destruct (args !! index) as [value|]; [|done].
  destruct (HasPrefix value "-") eqn:Hp; [done|]. cbn [negb].
  destruct (ParseInt32 value) as [i'|] eqn:Hi; [|done].
  intros [= <-]. by eapply ParseInt32_nonneg.
Qed.

Lemma parameter_exits args index o code out :
  parameter args index o = Exits code out ->
  code = 1 /\ ∃ more, out = cli_out o ++ more.
Proof.
  unfold parameter, terminate.
  destruct (args !! index) as [value|];
    [destruct (negb (HasPrefix value "-")); [done|]|];
    intros [= <- <-]; (split; [done|]); rewrite <- app_assoc; by eexists.
Qed.

Lemma parameterInt_exits args index o code out :
  parameterInt args index o = Exits code out ->
  code = 1 /\ ∃ more, out = cli_out o ++ more.
Proof.
  unfold parameterInt.
  destruct (parameter args index o) as [value|code' out'] eqn:E.
  - destruct (ParseInt32 value); [done|]. unfold terminate.
    intros [= <- <-]. split; [done|]. rewrite <- app_assoc. by eexists.
  - intros [= <- <-]. by eapply parameter_exits.
Qed.

Lemma parse_kept_trans o1 o2 r :
  (cli_helpFlag o1 = true -> cli_helpFlag o2 = true) ->
  (cli_statsPort o2 = cli_statsPort o1 \/ 0 <= cli_statsPort o2 <= max_int32) ->
  (∃ more, cli_out o2 = cli_out o1 ++ more) ->
  parse_kept o2 r -> parse_kept o1 r.
Proof.
  intros Hh Hp [more1 Ho]. destruct r as [o'|code out]; cbn.
  - intros (Hh' & Hp' & more2 & Ho'). split_and!.
    + auto.
    + destruct Hp' as [->|?]; [done|by right].
    + exists (more1 ++ more2). by rewrite Ho', Ho, app_assoc.
  - intros (-> & more2 & ->). split; [done|].
    exists (more1 ++ more2). by rewrite Ho, app_assoc.
Qed.

Lemma parse_loop_kept n : ∀ args rest index o,
  (length rest <= n)%nat -> parse_kept o (parse_loop args rest index o).
Proof.
  induction n as [|n IH]; intros args rest index o Hlen.
  - destruct rest; [|simpl in Hlen; lia]. cbn. split_and!; [done|by left|].
    exists []. by rewrite app_nil_r.
  - destruct rest as [|arg rest].
    { cbn. split_and!; [done|by left|]. exists []. by rewrite app_nil_r. }
    cbn [length] in Hlen. cbn [parse_loop].
    assert (Hsame : ∀ o2, cli_statsPort o2 = cli_statsPort o ->
              cli_out o2 = cli_out o ->
              (cli_helpFlag o = true -> cli_helpFlag o2 = true) ->
              ∀ rest' index', (length rest' <= n)%nat ->
              parse_kept o (parse_loop args rest' index' o2)).
    { intros o2 Hp Ho Hh rest' index' Hl.
      apply (parse_kept_trans o o2); [done|by left| |by apply IH].
      exists []. by rewrite app_nil_r. }
    repeat case_bool_decide.
    + apply Hsame; try done. lia.
    + apply Hsame; try done. lia.
    + apply Hsame; try done. lia.
    + destruct (parameterInt args (S index) o) as [i|code out] eqn:E.
      * apply parameterInt_nonneg in E.
        assert (Hport : parse_kept o (Goes (set_statsPort i o))).
        { cbn. split_and!; [done|by right|]. exists []. by rewrite app_nil_r. }
        destruct rest as [|value rest]; [done|].
        apply (parse_kept_trans o (set_statsPort i o)); [done|by right| |].
        -- exists []. by rewrite app_nil_r.
        -- apply IH. cbn [length] in Hlen. lia.
      * by apply parameterInt_exits in E.
    + destruct (parameter args (S index) o) as [file|code out] eqn:E.
      * destruct rest as [|value rest].
        -- cbn. split_and!; [done|by left|]. exists []. by rewrite app_nil_r.
        -- apply Hsame; try done. cbn [length] in Hlen. lia.
      * by apply parameter_exits in E.
    + match goal with
      | |- context [cli_say ?line o] =>
          apply (parse_kept_trans o (set_helpFlag (cli_say line o)));
            [done|by left|by exists [line]|]
      end.
      apply IH. lia.
Qed.

(** X29: the port of the statistics cannot be made negative on the command
    line: when [parseCommandLine] goes on, the port is the one it was
    before or a number from 0 to 2^31 - 1. So -1, the value with which
    [StartStatsTunnel] leaves the statistics off, cannot be given: its
    text starts with the sign that marks an option. *)
Theorem stats_port_never_negative version_text args o o' :
  parseCommandLine version_text args o = Goes o' ->
  cli_statsPort o' = cli_statsPort o \/ 0 <= cli_statsPort o' <= max_int32.
Proof.
  unfold parseCommandLine.
  pose proof (parse_loop_kept (length (drop 1 args)) args (drop 1 args) 1 o
                (Nat.le_refl _)) as Hkept.
  destruct (parse_loop args (drop 1 args) 1 o) as [o1|code out]; [|done].
  destruct Hkept as (_ & Hport & _).
  destruct (cli_helpFlag o1); [done|]. destruct (cli_versionFlag o1); [done|].
  by intros [= <-].
Qed.





Lemma stats_port_never_negative_witness :
  cli_statsPort (set_statsPort 8080 (defaultValues "/home/u/.ferret/config.yaml"))
  = cli_statsPort (defaultValues "/home/u/.ferret/config.yaml") \/
  0 <= cli_statsPort
         (set_statsPort 8080 (defaultValues "/home/u/.ferret/config.yaml"))
    <= max_int32.
Proof.
  apply (stats_port_never_negative (λ _, "ferret") ["ferret"; "-p"; "8080"]
           (defaultValues "/home/u/.ferret/config.yaml")).
  reflexivity.
Defined.

